(** * protoMock: the dynamic JSON-to-protobuf encoding engine of [mock_server.py]

    A shallow embedding of [ProtobufMockHandler._find_proto_imports],
    [ProtobufMockHandler._populate_message] and
    [ProtobufMockHandler._encode_to_protobuf], with the parts of the Python
    and protobuf runtimes these methods call. *)

From Stdlib Require Import ZArith QArith Qcanon String Ascii List Lia.
From stdpp Require Import gmap strings list.

#[local] Set Warnings "-register-all".
Local Open Scope string_scope.
Local Open Scope Z_scope.

(* ===================================================================== *)
(** * Python strings *)
(* ===================================================================== *)

(** A Python [str] is carried as its UTF-8 encoding.  What the methods used
    here do is settled by the bytes, but for [str.isdigit], whose answer on
    digits beyond ASCII depends on the tables of the interpreter. *)
Module PyStr.

Definition dquote : ascii := Ascii.ascii_of_nat 34.
Definition underscore : ascii := Ascii.ascii_of_nat 95.
Definition slash : ascii := Ascii.ascii_of_nat 47.
Definition dot : ascii := Ascii.ascii_of_nat 46.

(** The blank characters of ASCII, which [str.strip] removes: TAB..CR,
    FS..US and SPACE. *)
Definition is_space (c : ascii) : bool :=
  let n := Ascii.nat_of_ascii c in
  ((9 <=? n) && (n <=? 13))%nat || ((28 <=? n) && (n <=? 32))%nat.

Definition byte_is (n : nat) (c : ascii) : bool := (Ascii.nat_of_ascii c =? n)%nat.

(** The blank characters beyond ASCII, by their encoding: U+0085 and U+00A0
    in two bytes; U+1680, U+2000..U+200A, U+2028, U+2029, U+202F, U+205F and
    U+3000 in three. *)
Definition wide_blank2 (a b : ascii) : bool :=
  byte_is 194 a && (byte_is 133 b || byte_is 160 b).

Definition wide_blank3 (a b c : ascii) : bool :=
  let n := Ascii.nat_of_ascii c in
  (byte_is 225 a && byte_is 154 b && byte_is 128 c)
  || (byte_is 226 a && byte_is 128 b
      && (((128 <=? n) && (n <=? 138))%nat || byte_is 168 c || byte_is 169 c
          || byte_is 175 c))
  || (byte_is 226 a && byte_is 129 b && byte_is 159 c)
  || (byte_is 227 a && byte_is 128 b && byte_is 128 c).

Fixpoint lstrip (s : string) : string :=
  match s with
  | EmptyString => EmptyString
  | String a r1 =>
      if is_space a then lstrip r1
      else
        match r1 with
        | String b r2 =>
            if wide_blank2 a b then lstrip r2
            else
              match r2 with
              | String c r3 => if wide_blank3 a b c then lstrip r3 else s
              | EmptyString => s
              end
        | EmptyString => s
        end
  end.

(** The string holds blank characters only. *)
Fixpoint all_blank (s : string) : bool :=
  match s with
  | EmptyString => true
  | String a r1 =>
      if is_space a then all_blank r1
      else
        match r1 with
        | String b r2 =>
            if wide_blank2 a b then all_blank r2
            else
              match r2 with
              | String c r3 => wide_blank3 a b c && all_blank r3
              | EmptyString => false
              end
        | EmptyString => false
        end
  end.

(** [rstrip] drops a character when everything from it on is blank. *)
Fixpoint rstrip (s : string) : string :=
  match s with
  | EmptyString => EmptyString
  | String c r => if all_blank s then EmptyString else String c (rstrip r)
  end.

(** [s.strip()] *)
Definition strip (s : string) : string := rstrip (lstrip s).

(** [s.startswith(p)] *)
Fixpoint startswith (p s : string) : bool :=
  match p, s with
  | EmptyString, _ => true
  | String a p', String b s' => if Ascii.eqb a b then startswith p' s' else false
  | String _ _, EmptyString => false
  end.

(** [s.split(sep)] for a one-character separator: never the empty list. *)
Fixpoint split (sep : ascii) (s : string) : list string :=
  match s with
  | EmptyString => [EmptyString]
  | String c r =>
      if Ascii.eqb c sep then EmptyString :: split sep r
      else match split sep r with
           | w :: ws => String c w :: ws
           | [] => [String c EmptyString]
           end
  end.

(** [s.endswith('_')] *)
Fixpoint endswith_underscore (s : string) : bool :=
  match s with
  | EmptyString => false
  | String c EmptyString => Ascii.eqb c underscore
  | String _ r => endswith_underscore r
  end.

(** [s[:-1]] *)
Fixpoint drop_last (s : string) : string :=
  match s with
  | EmptyString => EmptyString
  | String _ EmptyString => EmptyString
  | String c r => String c (drop_last r)
  end.

Definition is_digit (c : ascii) : bool :=
  let n := Ascii.nat_of_ascii c in ((48 <=? n) && (n <=? 57))%nat.

Definition is_ascii (c : ascii) : bool := (Ascii.nat_of_ascii c <? 128)%nat.

(** Whether every character is a digit: [Some false] when the string
    holds an ASCII character that is none of [0]..[9], [Some true] when it
    holds these digits only, and [None] when it holds, next to such digits,
    characters beyond ASCII: whether they are digits (as [²] and the
    Arabic-Indic digits are) is a matter of the interpreter's tables. *)
Fixpoint all_digits (s : string) : option bool :=
  match s with
  | EmptyString => Some true
  | String c r =>
      if is_digit c then all_digits r
      else if is_ascii c then Some false
      else match all_digits r with
           | Some false => Some false
           | _ => None
           end
  end.

(** [s.isdigit()]: every character is a digit, and there is one. *)
Definition isdigit (s : string) : option bool :=
  match s with
  | EmptyString => Some false
  | _ => all_digits s
  end.

Fixpoint int_of_digits (acc : Z) (s : string) : Z :=
  match s with
  | EmptyString => acc
  | String c r => int_of_digits (10 * acc + (Z.of_nat (Ascii.nat_of_ascii c) - 48)) r
  end.

(** [sys.get_int_max_str_digits()], as the interpreter sets it. *)
Definition int_max_str_digits : Z := 4300.

(** [int(s)] for a string of the digits [0]..[9]; [None] is the
    [ValueError] for a string of more digits than the limit allows. *)
Definition int_of_str (s : string) : option Z :=
  if int_max_str_digits <? Z.of_nat (String.length s) then None
  else Some (int_of_digits 0 s).

(** [sep.join(parts)] *)
Fixpoint join (sep : string) (parts : list string) : string :=
  match parts with
  | [] => EmptyString
  | [p] => p
  | p :: ps => p ++ sep ++ join sep ps
  end.

(** [PurePath.stem]: the name up to its last dot, unless there is none or
    that dot is the first or the last character. *)
Fixpoint has_dot (s : string) : bool :=
  match s with
  | EmptyString => false
  | String c r => Ascii.eqb c dot || has_dot r
  end.

Fixpoint cut_last_dot (s : string) : string :=
  match s with
  | EmptyString => EmptyString
  | String c r =>
      if Ascii.eqb c dot && negb (has_dot r) then EmptyString
      else String c (cut_last_dot r)
  end.

Fixpoint ends_with_dot (s : string) : bool :=
  match s with
  | EmptyString => false
  | String c EmptyString => Ascii.eqb c dot
  | String _ r => ends_with_dot r
  end.

Definition stem (name : string) : string :=
  match name with
  | EmptyString => EmptyString
  | String c r =>
      if has_dot r && negb (ends_with_dot r) then String c (cut_last_dot r)
      else name
  end.

End PyStr.

(* ===================================================================== *)
(** * Paths and the file system *)
(* ===================================================================== *)

(** A [pathlib.Path] that is absolute: the list of its components below the
    root directory.  Two paths are equal when their components are, which is
    how [Path.__eq__] and [Path.__hash__] compare them. *)
Definition Path : Type := list string.

Module PyPath.

(** Components of a path string: empty and [.] components are dropped by
    [pathlib]; [..] is kept. *)
Definition keep_part (c : string) : bool :=
  negb (String.eqb c "" || String.eqb c ".").

Definition parts_of (s : string) : list string :=
  List.filter keep_part (PyStr.split PyStr.slash s).

(** [root / s]: an absolute [s] replaces [root]. *)
Definition truediv (root : Path) (s : string) : Path :=
  if PyStr.startswith "/" s then parts_of s else (root ++ parts_of s)%list.

(** [p.parent] *)
Definition parent (p : Path) : Path := removelast p.

(** [p.name] *)
Definition name (p : Path) : string := List.last p "".

(** The path without its [..] components, each taken with the component
    before it: the file a path names when no component is a symbolic link.
    None of the code calls it; it says when two paths name one file. *)
Fixpoint normal_parts (stack : list string) (p : Path) : Path :=
  match p with
  | [] => rev stack
  | c :: r =>
      if String.eqb c ".." then normal_parts (tail stack) r
      else normal_parts (c :: stack) r
  end.

Definition normpath (p : Path) : Path := normal_parts [] p.

(** [p.relative_to(root)]: [None] stands for its [ValueError]. *)
Fixpoint relative_to (p root : Path) : option (list string) :=
  match root, p with
  | [], _ => Some p
  | r :: root', c :: p' => if String.eqb r c then relative_to p' root' else None
  | _ :: _, [] => None
  end.

End PyPath.

(** What is found at a path: a text file with its lines; something that
    exists but cannot be read as one (a directory, a file without read
    permission); or a path whose [stat] fails with an error other than the
    file being absent (a name that is too long, a directory that may not be
    searched).  A file that stops decoding half-way is the text file of the
    lines read until then. *)
Inductive fnode :=
  | TextFile (lines : list string)
  | Unreadable
  | Inaccessible.

(** The file system; a path that is no key of it names nothing. *)
Abbreviation file_system := (gmap Path fnode).

(** [p.exists()]: [Path.exists] answers [False] when the file is absent
    and lets every other error of [stat] through. *)
Inductive stat_result := Found | NotFound | StatFails.

Definition stat (fs : file_system) (p : Path) : stat_result :=
  match fs !! p with
  | None => NotFound
  | Some Inaccessible => StatFails
  | Some _ => Found
  end.

(* ===================================================================== *)
(** * Schema Resolver: [_find_proto_imports] *)
(* ===================================================================== *)

Module Resolver.

(** The two closure variables of [parse_imports]. *)
Record rstate := RState {
  seen : gset Path;
  imports : list Path
}.

(** The test on one line of a schema file (lines 280-286): the quoted
    import path of an [import] line. *)
Definition import_of_line (line : string) : option string :=
  let line := PyStr.strip line in
  if PyStr.startswith "import " line then
    match PyStr.split PyStr.dquote line with
    | _ :: import_path :: _ => Some import_path
    | _ => None
    end
  else None.

Section Scan.
Variable fs : file_system.
Variable proto_root : Path.

(** The [for line in f] loop (lines 279-290); [rec] is the recursive
    call [parse_imports(full_import_path)].  When [exists()] raises, the
    handler of line 291 prints its warning and the call returns: the lines
    that follow are not read. *)
Fixpoint scan_lines (rec : Path -> rstate -> option rstate)
    (lines : list string) (st : rstate) : option rstate :=
  match lines with
  | [] => Some st
  | line :: rest =>
      match import_of_line line with
      | Some import_path =>
          let full_import_path := PyPath.truediv proto_root import_path in
          match stat fs full_import_path with
          | Found =>
              match rec full_import_path
                      (RState (seen st) (imports st ++ [full_import_path])%list) with
              | Some st' => scan_lines rec rest st'
              | None => None
              end
          | NotFound => scan_lines rec rest st
          | StatFails => Some st
          end
      | None => scan_lines rec rest st
      end
  end.

(** [parse_imports] (lines 272-292).  [fuel] bounds the depth of the
    Python call stack, which the model leaves unbounded otherwise;
    [None] means the bound was too small.  A file that cannot be opened
    or decoded raises inside the [try]: the warning is printed and the
    call returns. *)
Fixpoint parse_imports (fuel : nat) (pfile : Path) (st : rstate)
  : option rstate :=
  match fuel with
  | O => None
  | S fuel' =>
      if decide (pfile ∈ seen st) then Some st
      else
        let st1 := RState ({[pfile]} ∪ seen st) (imports st) in
        match fs !! pfile with
        | Some (TextFile lines) => scan_lines (parse_imports fuel') lines st1
        | _ => Some st1
        end
  end.

End Scan.

(** Call-stack depth that always suffices: one frame per file. *)
Definition enough_fuel (fs : file_system) : nat := S (size fs).

(** The closure variables when [parse_imports(proto_file)] has returned. *)
Definition find_state (fs : file_system) (proto_file proto_root : Path)
  : option rstate :=
  parse_imports fs proto_root (enough_fuel fs) proto_file (RState ∅ []).

(** [_find_proto_imports] (lines 267-295): the list [imports]. *)
Definition _find_proto_imports (fs : file_system) (proto_file proto_root : Path)
  : list Path :=
  match find_state fs proto_file proto_root with
  | Some st => imports st
  | None => []
  end.

(** [list(dict.fromkeys(l))]: first occurrences, in order. *)
Fixpoint dict_fromkeys (done : list Path) (l : list Path) : list Path :=
  match l with
  | [] => []
  | p :: r =>
      if bool_decide (p ∈ done) then dict_fromkeys done r
      else p :: dict_fromkeys (p :: done) r
  end.

(** Lines 112-119 of [_encode_to_protobuf]: the files handed to [protoc]. *)
Definition proto_files_to_compile (fs : file_system) (proto_path : Path)
    (proto_root : option Path) : list Path :=
  let imports :=
    match proto_root with
    | Some root => _find_proto_imports fs proto_path root
    | None => []
    end in
  dict_fromkeys [] (proto_path :: imports).

(** ** What the resolver's state means *)

Section Invariant.
Variable fs : file_system.
Variable proto_root : Path.

(** The import of the line is one on which [exists()] raises. *)
Definition stat_fails (line : string) : bool :=
  match import_of_line line with
  | Some import_path =>
      match stat fs (PyPath.truediv proto_root import_path) with
      | StatFails => true
      | _ => false
      end
  | None => false
  end.

(** The lines of a file that the loop handles: those before the first
    line on which [exists()] raises. *)
Fixpoint lines_read (lines : list string) : list string :=
  match lines with
  | [] => []
  | line :: rest => if stat_fails line then [] else line :: lines_read rest
  end.

(** Every import line handled in [lines] that names an existing file has
    been followed: the file is in the list and in the visited set. *)
Definition scanned (st : rstate) (lines : list string) : Prop :=
  ∀ line ip, line ∈ lines_read lines → import_of_line line = Some ip →
             stat fs (PyPath.truediv proto_root ip) = Found →
             PyPath.truediv proto_root ip ∈ imports st ∧
             PyPath.truediv proto_root ip ∈ seen st.

Definition closed_file (st : rstate) (q : Path) : Prop :=
  ∀ lines, fs !! q = Some (TextFile lines) → scanned st lines.

(** What a call or a loop may do to the closure variables. *)
Record grows (st st' : rstate) : Prop := Grows {
  grows_seen : seen st ⊆ seen st';
  grows_imports : ∃ l, imports st' = (imports st ++ l)%list ∧
                       ∀ q, q ∈ l → stat fs q = Found ∧ q ∈ seen st';
  grows_closed : ∀ q, q ∈ seen st' → q ∉ seen st → closed_file st' q
}.

(** The files not yet visited: what bounds the recursion. *)
Definition unseen (st : rstate) : nat := size (dom fs ∖ seen st).

(** New members of the visited set are files that exist. *)
Definition new_exist (st st' : rstate) : Prop :=
  ∀ q, q ∈ seen st' → q ∉ seen st → stat fs q = Found.

End Invariant.

End Resolver.

(* ===================================================================== *)
(** * Python values *)
(* ===================================================================== *)

Module Py.

(** The exception classes the handlers of [mock_server.py] tell apart
    ([TypeError], [ValueError], [AttributeError], [ImportError]),
    [json_format.ParseError] and [message.EncodeError]; all of them are
    subclasses of [Exception]. *)
Inductive exn :=
  | TypeError | ValueError | AttributeError | ImportError | ParseError | EncodeError.

(** What [json.load] returns: [None], [bool], [int], [float], [str],
    [list] and [dict].  A [float] is carried as the rational it denotes;
    a [dict] as its items in insertion order (its keys are distinct). *)
Inductive atom :=
  | ANone
  | ABool (b : bool)
  | AInt (n : Z)
  | AFloat (q : Qc)
  | AStr (s : string).

Inductive json :=
  | JAtom (a : atom)
  | JList (items : list json)
  | JDict (entries : list (string * json)).

(** How a call ends.  [OutOfModel] marks executions that depend on
    internals of the protobuf runtime which differ between its
    implementations; nothing is claimed about them. *)
Inductive outcome :=
  | Returned
  | Raised (e : exn)
  | OutOfModel.

(** [isinstance(v, dict)] *)
Definition is_dict (v : json) : bool :=
  match v with JDict _ => true | _ => false end.

(** [isinstance(v, str) and v.isdigit()] *)
Definition is_digit_str (a : atom) : option bool :=
  match a with AStr s => PyStr.isdigit s | _ => Some false end.

(** [isinstance(v, (int, float))]: [bool] is a subclass of [int]. *)
Definition is_int_or_float (a : atom) : bool :=
  match a with ABool _ | AInt _ | AFloat _ => true | _ => false end.

(** [float(n)] for an [int]. *)
Definition float_of_int (n : Z) : Qc := Q2Qc (inject_Z n).

Definition int_of_bool (b : bool) : Z := if b then 1 else 0.

(** Association lists in insertion order, as [dict] keeps them. *)
Fixpoint alist_get {A} (k : string) (l : list (string * A)) : option A :=
  match l with
  | [] => None
  | (k', v) :: r => if String.eqb k' k then Some v else alist_get k r
  end.

Fixpoint alist_set {A} (k : string) (v : A) (l : list (string * A))
  : list (string * A) :=
  match l with
  | [] => [(k, v)]
  | (k', v') :: r =>
      if String.eqb k' k then (k, v) :: r else (k', v') :: alist_set k v r
  end.

End Py.

(* ===================================================================== *)
(** * The protobuf runtime: descriptors, messages, containers *)
(* ===================================================================== *)

Module Proto.
Import Py.

(** [FieldDescriptor.type]; an enum carries whether it is closed and its
    numbers, a message field the full name of its type. *)
Inductive ftype :=
  | TDouble | TFloat
  | TInt32 | TInt64 | TUInt32 | TUInt64 | TSInt32 | TSInt64
  | TFixed32 | TFixed64 | TSFixed32 | TSFixed64
  | TBool | TString | TBytes
  | TEnum (closed : bool) (numbers : list Z)
  | TMessage (type_name : string).

Record FieldDescriptor := {
  name : string;
  repeated : bool;                     (* [label == LABEL_REPEATED] *)
  type : ftype;
  required : bool;                     (* [label == LABEL_REQUIRED] *)
  containing_oneof : option string     (* the name of the oneof it is a member of *)
}.

(** A message [Descriptor].  [class_attrs] are the attributes of the
    generated message class that are not fields: its methods
    ([Clear], [SerializeToString], ...), [DESCRIPTOR], and the nested
    types, nested enums and nested enum values, which the runtime
    attaches to the class under their own names. *)
Record Descriptor := {
  full_name : string;
  fields : list FieldDescriptor;
  map_entry : bool;         (* [GetOptions().map_entry] *)
  class_attrs : list string
}.

Abbreviation DescriptorPool := (gmap string Descriptor).

(** [d.fields_by_name.get(n)] *)
Definition fields_by_name (d : Descriptor) (n : string) : option FieldDescriptor :=
  List.find (fun f => String.eqb (name f) n) (fields d).

(** [field.message_type] *)
Definition message_type (pool : DescriptorPool) (f : FieldDescriptor)
  : option Descriptor :=
  match type f with
  | TMessage n => pool !! n
  | _ => None
  end.

Definition Struct_name : string := "google.protobuf.Struct".

(** [field.message_type and field.message_type.full_name == 'google.protobuf.Struct'] *)
Definition is_struct_typed (pool : DescriptorPool) (f : FieldDescriptor) : bool :=
  match message_type pool f with
  | Some d => String.eqb (full_name d) Struct_name
  | None => false
  end.

(** A message instance: its descriptor and the fields that have been
    written, in the order of their first write; and the values a field
    holds.  Map keys are strings, as every key that comes out of a JSON
    object is. *)
Inductive message :=
  | Msg (DESCRIPTOR : Descriptor) (store : list (string * value))
with value :=
  | VScalar (a : atom)
  | VMessage (m : message)
  | VRepeated (items : list value)
  | VMap (entries : list (string * value)).

Definition DESCRIPTOR (m : message) : Descriptor :=
  match m with Msg d _ => d end.

Definition store (m : message) : list (string * value) :=
  match m with Msg _ st => st end.

(** [cls()] *)
Definition new_message (d : Descriptor) : message := Msg d [].

(** The oneof a field is a member of; a repeated field is a member of
    none. *)
Definition oneof_of (f : FieldDescriptor) : option string :=
  if repeated f then None else containing_oneof f.

(** The other members of the oneof of the field named [n]. *)
Definition siblings (d : Descriptor) (n : string) : list string :=
  match fields_by_name d n with
  | Some f =>
      match oneof_of f with
      | Some o =>
          List.map name
            (List.filter (fun g => bool_decide (oneof_of g = Some o)
                                   && negb (String.eqb (name g) n))
                         (fields d))
      | None => []
      end
  | None => []
  end.

(** What is held under the names [ns] is dropped. *)
Definition clear_fields (ns : list string) (st : list (string * value))
  : list (string * value) :=
  List.filter (fun kv => negb (bool_decide (kv.1 ∈ ns))) st.

(** The field named [n] is written: the other members of its oneof are
    cleared. *)
Definition set_store (m : message) (n : string) (v : value) : message :=
  Msg (DESCRIPTOR m)
      (alist_set n v (clear_fields (siblings (DESCRIPTOR m) n) (store m))).

(** [m.IsInitialized()]: the required fields of the message and of the
    messages it holds are set. *)
Fixpoint IsInitialized (m : message) : bool :=
  match m with
  | Msg d st =>
      forallb (fun f => negb (required f && negb (repeated f))
                        || match alist_get (name f) st with
                           | Some _ => true
                           | None => false
                           end)
              (fields d)
      && (fix held (st : list (string * value)) : bool :=
            match st with
            | [] => true
            | (_, v) :: r => value_initialized v && held r
            end) st
  end
with value_initialized (v : value) : bool :=
  match v with
  | VScalar _ => true
  | VMessage m => IsInitialized m
  | VRepeated items =>
      (fix all (l : list value) : bool :=
         match l with
         | [] => true
         | x :: r => value_initialized x && all r
         end) items
  | VMap entries =>
      (fix all (l : list (string * value)) : bool :=
         match l with
         | [] => true
         | (_, x) :: r => value_initialized x && all r
         end) entries
  end.

(** [hasattr(message, key)]: a field or another attribute of the class. *)
Definition hasattr (m : message) (key : string) : bool :=
  match fields_by_name (DESCRIPTOR m) key with
  | Some _ => true
  | None => bool_decide (key ∈ class_attrs (DESCRIPTOR m))
  end.

(** ** Type checkers ([google.protobuf.internal.type_checkers]) *)

Inductive checked :=
  | Accept (v : atom)
  | Reject (e : exn)
  | Unsettled.     (* the runtimes disagree, or the result is not finite *)

Definition int_range (t : ftype) : option (Z * Z) :=
  match t with
  | TInt32 | TSInt32 | TSFixed32 => Some (- 2 ^ 31, 2 ^ 31 - 1)
  | TInt64 | TSInt64 | TSFixed64 => Some (- 2 ^ 63, 2 ^ 63 - 1)
  | TUInt32 | TFixed32 => Some (0, 2 ^ 32 - 1)
  | TUInt64 | TFixed64 => Some (0, 2 ^ 64 - 1)
  | _ => None
  end.

Definition check_int (lo hi : Z) (a : atom) : checked :=
  match a with
  | AInt n => if (lo <=? n) && (n <=? hi) then Accept (AInt n) else Reject ValueError
  | ABool b => Accept (AInt (int_of_bool b))
  | _ => Reject TypeError
  end.

(** Largest exponents of the binary formats: a larger number is not
    stored as a finite value. *)
Definition fits (bits : Z) (n : Z) : bool := Z.abs n <? 2 ^ bits.

Definition check_float (bits : Z) (a : atom) : checked :=
  match a with
  | AInt n => if fits bits n then Accept (AFloat (float_of_int n)) else Unsettled
  | ABool b => Accept (AFloat (float_of_int (int_of_bool b)))
  | AFloat q =>
      if bool_decide (- float_of_int (2 ^ bits) < q < float_of_int (2 ^ bits))%Qc
      then Accept (AFloat q) else Unsettled
  | _ => Reject TypeError
  end.

(** [checker.CheckValue(a)] for a field of type [t].  The number stored in
    a [float] or [double] field is the exact value: binary rounding is not
    modelled. *)
Definition check_value (t : ftype) (a : atom) : checked :=
  match t with
  | TDouble => check_float 1023 a
  | TFloat => check_float 127 a
  | TBool =>
      match a with
      | ABool b => Accept (ABool b)
      | AInt n => Accept (ABool (negb (n =? 0)))
      | _ => Reject TypeError
      end
  | TString =>
      match a with
      | AStr s => Accept (AStr s)
      | _ => Reject TypeError
      end
  | TBytes => Reject TypeError
  | TEnum closed numbers =>
      match a with
      | AStr _ => Unsettled
      | AInt _ | ABool _ =>
          let n := match a with AInt n => n | ABool b => int_of_bool b | _ => 0 end in
          if closed then
            if bool_decide (n ∈ numbers) then Accept (AInt n) else Reject ValueError
          else check_int (- 2 ^ 31) (2 ^ 31 - 1) (AInt n)
      | _ => Reject TypeError
      end
  | TMessage _ => Reject TypeError
  | _ =>
      match int_range t with
      | Some (lo, hi) => check_int lo hi a
      | None => Reject TypeError
      end
  end.

(** The default a scalar map inserts on a missing key. *)
Definition default_value (t : ftype) : atom :=
  match t with
  | TDouble | TFloat => AFloat (float_of_int 0)
  | TBool => ABool false
  | TString | TBytes => AStr ""
  | _ => AInt 0
  end.

(** ** What [getattr(message, field_name)] is *)

Inductive mapvalue :=
  | MvScalar (t : ftype)
  | MvMessage (d : Descriptor).

Inductive fkind :=
  | FkScalar (t : ftype)                     (* singular scalar: a plain value *)
  | FkMessage (d : Descriptor)               (* singular message *)
  | FkRepScalar (t : ftype)                  (* RepeatedScalarContainer *)
  | FkRepMessage (d : Descriptor)            (* RepeatedCompositeContainer *)
  | FkMap (kt : ftype) (v : mapvalue)        (* ScalarMap / MessageMap *)
  | FkBad.                                   (* a type missing from the pool *)

Definition map_kind (pool : DescriptorPool) (entry : Descriptor) : fkind :=
  match fields_by_name entry "key", fields_by_name entry "value" with
  | Some kf, Some vf =>
      match type vf with
      | TMessage vn =>
          match pool !! vn with
          | Some vd => FkMap (type kf) (MvMessage vd)
          | None => FkBad
          end
      | vt => FkMap (type kf) (MvScalar vt)
      end
  | _, _ => FkBad
  end.

Definition kind_of (pool : DescriptorPool) (f : FieldDescriptor) : fkind :=
  match type f with
  | TMessage n =>
      match pool !! n with
      | None => FkBad
      | Some d =>
          if repeated f then
            if map_entry d then map_kind pool d else FkRepMessage d
          else FkMessage d
      end
  | t => if repeated f then FkRepScalar t else FkScalar t
  end.

(** The objects [_populate_message] is called on: a message, or another
    object of the runtime (a container, a plain value). *)
Inductive okind :=
  | KRepeatedScalar | KRepeatedComposite | KScalarMap | KMessageMap
  | KPlain (t : ftype).

Inductive pyobj :=
  | OMessage (m : message)
  | OOther (k : okind).

Definition stored_message (m : message) (n : string) (d : Descriptor) : message :=
  match alist_get n (store m) with
  | Some (VMessage sub) => sub
  | _ => new_message d
  end.

Definition stored_items (m : message) (n : string) : list value :=
  match alist_get n (store m) with
  | Some (VRepeated l) => l
  | _ => []
  end.

Definition stored_entries (m : message) (n : string) : list (string * value) :=
  match alist_get n (store m) with
  | Some (VMap l) => l
  | _ => []
  end.

(** [getattr(message, f.name)] as an object; [None] when it is [FkBad]. *)
Definition getattr (pool : DescriptorPool) (m : message) (f : FieldDescriptor)
  : option pyobj :=
  match kind_of pool f with
  | FkScalar t => Some (OOther (KPlain t))
  | FkMessage d => Some (OMessage (stored_message m (name f) d))
  | FkRepScalar _ => Some (OOther KRepeatedScalar)
  | FkRepMessage _ => Some (OOther KRepeatedComposite)
  | FkMap _ (MvScalar _) => Some (OOther KScalarMap)
  | FkMap _ (MvMessage _) => Some (OOther KMessageMap)
  | FkBad => None
  end.

(** A sub-message obtained with [getattr] is part of its parent from its
    first modification on; one never written stays absent. *)
Definition attach (m : message) (n : string) (sub : message) : message :=
  match sub with
  | Msg _ [] => m
  | _ => set_store m n (VMessage sub)
  end.

Definition put_items (m : message) (n : string) (l : list value) : message :=
  match l with
  | [] => m
  | _ => set_store m n (VRepeated l)
  end.

Definition put_entries (m : message) (n : string) (l : list (string * value)) : message :=
  match l with
  | [] => m
  | _ => set_store m n (VMap l)
  end.

(** [setattr(message, f.name, a)]: only a singular scalar field can be
    assigned; a repeated, map or message field raises [AttributeError]. *)
Inductive assigned :=
  | SetOk (m : message)
  | SetRaise (e : exn)
  | SetUnsettled.

Definition setattr (pool : DescriptorPool) (m : message) (f : FieldDescriptor)
    (a : atom) : assigned :=
  match kind_of pool f with
  | FkScalar t =>
      match check_value t a with
      | Accept v => SetOk (set_store m (name f) (VScalar v))
      | Reject e => SetRaise e
      | Unsettled => SetUnsettled
      end
  | FkBad => SetUnsettled
  | _ => SetRaise AttributeError
  end.

(** ** [google.protobuf.Struct] and [json_format.ParseDict] *)

Definition Value_name : string := "google.protobuf.Value".
Definition ListValue_name : string := "google.protobuf.ListValue".

Definition Struct_DESCRIPTOR : Descriptor :=
  {| full_name := Struct_name;
     fields := [ {| name := "fields"; repeated := true;
                    type := TMessage "google.protobuf.Struct.FieldsEntry";
                    required := false; containing_oneof := None |} ];
     map_entry := false; class_attrs := [] |}.

(** A member of the oneof [kind] of [Value]. *)
Definition kind_member (n : string) (t : ftype) : FieldDescriptor :=
  {| name := n; repeated := false; type := t;
     required := false; containing_oneof := Some "kind" |}.

Definition Value_DESCRIPTOR : Descriptor :=
  {| full_name := Value_name;
     fields := [ kind_member "null_value" (TEnum false [0]);
                 kind_member "number_value" TDouble;
                 kind_member "string_value" TString;
                 kind_member "bool_value" TBool;
                 kind_member "struct_value" (TMessage Struct_name);
                 kind_member "list_value" (TMessage ListValue_name) ];
     map_entry := false; class_attrs := [] |}.

Definition ListValue_DESCRIPTOR : Descriptor :=
  {| full_name := ListValue_name;
     fields := [ {| name := "values"; repeated := true; type := TMessage Value_name;
                    required := false; containing_oneof := None |} ];
     map_entry := false; class_attrs := [] |}.

(** A [Value] holding one member of its [kind] oneof. *)
Definition Value_of (member : string) (v : value) : message :=
  Msg Value_DESCRIPTOR [(member, v)].

(** [_ConvertValueMessage] of [json_format]: the [Value] a JSON value
    parses to; a [dict] goes through [_ConvertStructMessage], a [list]
    through [_ConvertListValueMessage]. *)
Fixpoint convert_value (v : json) : message :=
  match v with
  | JDict entries =>
      Value_of "struct_value" (VMessage (Msg Struct_DESCRIPTOR
        [("fields",
          VMap (List.fold_left
                  (fun acc '(k, x) => alist_set k (VMessage (convert_value x)) acc)
                  entries []))]))
  | JList items =>
      Value_of "list_value" (VMessage (Msg ListValue_DESCRIPTOR
        [("values", VRepeated (List.map (fun x => VMessage (convert_value x)) items))]))
  | JAtom ANone => Value_of "null_value" (VScalar (AInt 0))
  | JAtom (ABool b) => Value_of "bool_value" (VScalar (ABool b))
  | JAtom (AStr s) => Value_of "string_value" (VScalar (AStr s))
  | JAtom (AInt n) => Value_of "number_value" (VScalar (AFloat (float_of_int n)))
  | JAtom (AFloat q) => Value_of "number_value" (VScalar (AFloat q))
  end.

(** [_ConvertStructMessage(entries, target)]: the target [Struct] is
    cleared, which marks it as present, and filled from the items. *)
Definition convert_struct (target : message) (entries : list (string * json))
  : message :=
  Msg (DESCRIPTOR target)
      [("fields",
        VMap (List.fold_left
                (fun acc '(k, x) => alist_set k (VMessage (convert_value x)) acc)
                entries []))].

(** Every number in the value is one that [number_value], a [double],
    is known to take; [float(n)] raises [OverflowError] for an integer
    beyond the range of a [double], and the parse stops half-way. *)
Fixpoint double_safe (v : json) : bool :=
  match v with
  | JAtom (AInt n) =>
      match check_value TDouble (AInt n) with Accept _ => true | _ => false end
  | JAtom (AFloat q) =>
      match check_value TDouble (AFloat q) with Accept _ => true | _ => false end
  | JAtom _ => true
  | JList items =>
      (fix all (l : list json) : bool :=
         match l with
         | [] => true
         | x :: r => double_safe x && all r
         end) items
  | JDict entries =>
      (fix all (l : list (string * json)) : bool :=
         match l with
         | [] => true
         | (_, x) :: r => double_safe x && all r
         end) entries
  end.

(** [ParseDict(v, target)] on a message whose type is
    [google.protobuf.Struct]: [ParseError] unless [v] is a [dict]; a
    [dict] with a number beyond the range of a [double] is outside the
    model. *)
Definition ParseDict (v : json) (target : message) : message * outcome :=
  match v with
  | JDict entries =>
      if double_safe v then (convert_struct target entries, Returned)
      else (target, OutOfModel)
  | _ => (target, Raised ParseError)
  end.

End Proto.

(* ===================================================================== *)
(** * Generic Message Encoder: [_populate_message] *)
(* ===================================================================== *)

Module Encoder.
Import Py Proto.

(** How the [try] block of lines 205-241 ends: at one of its [continue]
    statements, or past its end (also through [except Exception: pass]). *)
Inductive tried :=
  | Continue
  | Fallthrough
  | Beyond.        (* [OutOfModel] inside the block *)

Definition tried_of (oc : outcome) : tried :=
  match oc with
  | Returned => Continue
  | Raised _ => Fallthrough
  | OutOfModel => Beyond
  end.

(** Lines 192-202: the attribute a JSON key stands for, [None] for the
    two [continue] statements. *)
Definition resolve_key (has : string → bool) (key : string) : option string :=
  if has key then Some key
  else if PyStr.endswith_underscore key then
         let alternate_key := PyStr.drop_last key in
         if has alternate_key then Some alternate_key else None
       else None.

(** The field an item of the JSON object is processed as: the attribute
    its key resolves to, when that attribute is a field (lines 192-208). *)
Definition field_for_key (m : message) (key : string) : option FieldDescriptor :=
  match resolve_key (hasattr m) key with
  | Some actual_key => fields_by_name (DESCRIPTOR m) actual_key
  | None => None
  end.

Section Populate.
Variable pool : DescriptorPool.

(** [hasattr] on the runtime's objects that are not messages. *)
Variable other_hasattr : okind → string → bool.

(** [_populate_message(obj, data)] on an object that is not a message:
    keys that name no attribute are skipped; the first key that names
    one leads into the internals of the runtime. *)
Fixpoint probe_other (k : okind) (entries : list (string * json)) : outcome :=
  match entries with
  | [] => Returned
  | (key, _) :: rest =>
      match resolve_key (other_hasattr k) key with
      | None => probe_other k rest
      | Some _ => OutOfModel
      end
  end.

Section Body.
(** The recursive call on a message. *)
Variable rec : message → json → message * outcome.

(** [map_field[map_key]]: the key is checked, a missing entry is
    created. *)
Definition map_getitem (kt : ftype) (mv : mapvalue)
    (cur : list (string * value)) (map_key : string)
  : list (string * value) * option value * tried :=
  match check_value kt (AStr map_key) with
  | Accept _ =>
      match alist_get map_key cur with
      | Some v => (cur, Some v, Continue)
      | None =>
          let v := match mv with
                   | MvMessage d => VMessage (new_message d)
                   | MvScalar t => VScalar (default_value t)
                   end in
          (alist_set map_key v cur, Some v, Continue)
      end
  | Reject _ => (cur, None, Fallthrough)
  | Unsettled => (cur, None, Beyond)
  end.

(** [map_field[map_key] = map_value] *)
Definition map_setitem (kt : ftype) (mv : mapvalue)
    (cur : list (string * value)) (map_key : string) (map_value : json)
  : list (string * value) * tried :=
  match mv with
  | MvMessage _ => (cur, Fallthrough)     (* [ValueError] *)
  | MvScalar t =>
      match check_value kt (AStr map_key) with
      | Accept _ =>
          match map_value with
          | JAtom a =>
              match check_value t a with
              | Accept v => (alist_set map_key (VScalar v) cur, Continue)
              | Reject _ => (cur, Fallthrough)
              | Unsettled => (cur, Beyond)
              end
          | _ => (cur, Fallthrough)       (* [TypeError] *)
          end
      | Reject _ => (cur, Fallthrough)
      | Unsettled => (cur, Beyond)
      end
  end.

(** Lines 224-237: the loop over the items of a map's JSON object.
    [entry] is [field.message_type]. *)
Fixpoint map_loop (entry : Descriptor) (kt : ftype) (mv : mapvalue)
    (items : list (string * json)) (cur : list (string * value))
  : list (string * value) * tried :=
  match items with
  | [] => (cur, Continue)
  | (map_key, map_value) :: rest =>
      let value_is_struct :=
        match fields_by_name entry "value" with
        | Some value_field => is_struct_typed pool value_field
        | None => false
        end in
      let '(cur', t) :=
        if value_is_struct then
          match map_getitem kt mv cur map_key with
          | (cur1, Some (VMessage target), Continue) =>
              let '(target', oc) := ParseDict map_value target in
              (alist_set map_key (VMessage target') cur1, tried_of oc)
          | (cur1, Some _, Continue) => (cur1, Beyond)
          | (cur1, _, t) => (cur1, t)
          end
        else if is_dict map_value then
          match map_getitem kt mv cur map_key with
          | (cur1, Some (VMessage nested), Continue) =>
              let '(nested', oc) := rec nested map_value in
              (alist_set map_key (VMessage nested') cur1, tried_of oc)
          | (cur1, Some _, Continue) =>
              match mv, map_value with
              | MvScalar t, JDict es => (cur1, tried_of (probe_other (KPlain t) es))
              | _, _ => (cur1, Beyond)
              end
          | (cur1, _, t) => (cur1, t)
          end
        else map_setitem kt mv cur map_key map_value in
      match t with
      | Continue => map_loop entry kt mv rest cur'
      | _ => (cur', t)
      end
  end.

(** Lines 205-241: the [try] block. *)
Definition inspect_field (m : message) (field : FieldDescriptor) (value : json)
  : message * tried :=
  if is_struct_typed pool field && is_dict value then
    match value, kind_of pool field with
    | JDict entries, FkMessage d =>
        match ParseDict value (stored_message m (name field) d) with
        | (struct_field, Returned) =>
            (set_store m (name field) (VMessage struct_field), Continue)
        | (_, _) => (m, Beyond)
        end
    | _, FkBad => (m, Beyond)
    | _, _ => (m, Fallthrough)   (* [ParseDict] on a container: caught *)
    end
  else
    match message_type pool field with
    | Some entry =>
        if map_entry entry then
          match value with
          | JDict items =>
              match kind_of pool field with
              | FkMap kt mv =>
                  let '(cur, t) :=
                    map_loop entry kt mv items (stored_entries m (name field)) in
                  (put_entries m (name field) cur, t)
              | _ => (m, Beyond)
              end
          | _ => (m, Fallthrough)
          end
        else (m, Fallthrough)
    | None => (m, Fallthrough)
    end.

(** Lines 250-255 on a [RepeatedCompositeContainer] of [d]. *)
Fixpoint extend_composite (d : Descriptor) (items : list json) (cur : list value)
  : list value * outcome :=
  match items with
  | [] => (cur, Returned)
  | item :: rest =>
      match item with
      | JDict _ =>
          let '(nested, oc) := rec (new_message d) item in
          let cur' := (cur ++ [VMessage nested])%list in
          match oc with
          | Returned => extend_composite d rest cur'
          | _ => (cur', oc)
          end
      | _ => (cur, Raised TypeError)   (* [append] of a value that is no message *)
      end
  end.

(** Lines 250-255 on a [RepeatedScalarContainer] of [t]. *)
Fixpoint extend_scalar (t : ftype) (items : list json) (cur : list value)
  : list value * outcome :=
  match items with
  | [] => (cur, Returned)
  | item :: rest =>
      match item with
      | JDict _ => (cur, Raised AttributeError)   (* no [add] *)
      | JList _ => (cur, Raised TypeError)
      | JAtom a =>
          match check_value t a with
          | Accept v => extend_scalar t rest (cur ++ [VScalar v])%list
          | Reject e => (cur, Raised e)
          | Unsettled => (cur, OutOfModel)
          end
      end
  end.

(** Lines 258-265: assignment with the coercion fallback. *)
Definition assign_scalar (m : message) (field : FieldDescriptor) (a : atom)
  : message * outcome :=
  let retry (a' : atom) :=
    match setattr pool m field a' with
    | SetOk m' => (m', Returned)
    | SetRaise e => (m, Raised e)
    | SetUnsettled => (m, OutOfModel)
    end in
  match setattr pool m field a with
  | SetOk m' => (m', Returned)
  | SetUnsettled => (m, OutOfModel)
  | SetRaise e =>
      match e with
      | TypeError | ValueError =>
          match a with
          | AStr s =>
              match PyStr.isdigit s with
              | Some true =>
                  match PyStr.int_of_str s with
                  | Some n => retry (AInt n)
                  | None => (m, Raised ValueError)     (* [int(value)] *)
                  end
              | Some false => (m, Returned)
              | None => (m, OutOfModel)
              end
          | _ =>
              if is_int_or_float a then retry a else (m, Returned)
          end
      | _ => (m, Raised e)
      end
  end.

(** Lines 243-265: the dispatch on the shape of the JSON value. *)
Definition dispatch (m : message) (field : FieldDescriptor) (value : json)
  : message * outcome :=
  match value with
  | JDict entries =>
      match getattr pool m field with
      | Some (OMessage nested) =>
          let '(nested', oc) := rec nested value in
          (attach m (name field) nested', oc)
      | Some (OOther k) => (m, probe_other k entries)
      | None => (m, OutOfModel)
      end
  | JList items =>
      match kind_of pool field with
      | FkRepMessage d =>
          let '(cur, oc) := extend_composite d items (stored_items m (name field)) in
          (put_items m (name field) cur, oc)
      | FkRepScalar t =>
          let '(cur, oc) := extend_scalar t items (stored_items m (name field)) in
          (put_items m (name field) cur, oc)
      | FkBad => (m, OutOfModel)
      | FkMessage d =>
          match items with
          | [] => (m, Returned)
          | item :: _ =>
              let method := if is_dict item then "add" else "append" in
              if hasattr (new_message d) method then (m, OutOfModel)
              else (m, Raised AttributeError)
          end
      | FkScalar _ | FkMap _ _ =>
          match items with
          | [] => (m, Returned)
          | _ :: _ => (m, Raised AttributeError)
          end
      end
  | JAtom a => assign_scalar m field a
  end.

(** Lines 204-265 for one item whose key resolved to [actual_key]. *)
Definition populate_field (m : message) (actual_key : string) (value : json)
  : message * outcome :=
  match fields_by_name (DESCRIPTOR m) actual_key with
  | None => (m, Returned)
  | Some field =>
      let '(m1, t) := inspect_field m field value in
      match t with
      | Continue => (m1, Returned)
      | Beyond => (m1, OutOfModel)
      | Fallthrough => dispatch m1 field value
      end
  end.

(** Lines 190-265: the loop over [data.items()]. *)
Fixpoint populate_items (entries : list (string * json)) (m : message)
  : message * outcome :=
  match entries with
  | [] => (m, Returned)
  | (key, value) :: rest =>
      match resolve_key (hasattr m) key with
      | None => populate_items rest m
      | Some actual_key =>
          let '(m', oc) := populate_field m actual_key value in
          match oc with
          | Returned => populate_items rest m'
          | _ => (m', oc)
          end
      end
  end.

End Body.

(** [_populate_message] on a message (lines 182-265): the message as the
    call leaves it, and how the call ends. *)
Fixpoint populate_message (m : message) (data : json) {struct data}
  : message * outcome :=
  match data with
  | JDict entries => populate_items populate_message entries m
  | _ => (m, Returned)
  end.

(** [_populate_message(message, data)] on any object. *)
Definition _populate_message (message : pyobj) (data : json) : pyobj * outcome :=
  match message with
  | OMessage m =>
      let '(m', oc) := populate_message m data in (OMessage m', oc)
  | OOther k =>
      (message, match data with
                | JDict entries => probe_other k entries
                | _ => Returned
                end)
  end.

End Populate.

(** ** Maps of [Struct] values, for the statements below *)

(** [field] is a map field with keys of type [kt] and values of type
    [google.protobuf.Struct], described by [sd]. *)
Definition map_to_struct (pool : DescriptorPool) (field : FieldDescriptor)
    (kt : ftype) (sd : Descriptor) : Prop :=
  repeated field = true ∧
  ∃ entry kf vf,
    message_type pool field = Some entry ∧ map_entry entry = true ∧
    full_name entry ≠ Struct_name ∧
    fields_by_name entry "key" = Some kf ∧ type kf = kt ∧
    fields_by_name entry "value" = Some vf ∧
    message_type pool vf = Some sd ∧ full_name sd = Struct_name.

(** [ParseDict] returns on the value: it is an object, and its numbers
    are ones a [double] takes. *)
Definition parses (v : json) : bool := is_dict v && double_safe v.

(** The entries of such a map are [Struct] messages. *)
Definition struct_entries (sd : Descriptor) (cur : list (string * value)) : Prop :=
  Forall (λ kv, ∃ st, kv.2 = VMessage (Msg sd st)) cur.

(** The map after its JSON object has been parsed entry by entry. *)
Fixpoint parsed_entries (sd : Descriptor) (items : list (string * json))
    (cur : list (string * value)) : list (string * value) :=
  match items with
  | [] => cur
  | (k, JDict es) :: r =>
      parsed_entries sd r (alist_set k (VMessage (convert_struct (new_message sd) es)) cur)
  | _ :: r => parsed_entries sd r cur
  end.

(** The entry [map_field[k]] yields: the one there is, or a new one. *)
Definition entry_at (sd : Descriptor) (k : string) (cur : list (string * value))
  : value :=
  match alist_get k cur with
  | Some v => v
  | None => VMessage (new_message sd)
  end.

End Encoder.

(* ===================================================================== *)
(** * The engine: [_encode_to_protobuf] *)
(* ===================================================================== *)

Module Engine.
Import Py Proto.

(** An attribute of a generated [_pb2] module. *)
Inductive modattr :=
  | AMessageClass (d : Descriptor)   (* a generated message class *)
  | ANotCallable                     (* [DESCRIPTOR], an enum wrapper, a constant, a module *)
  | ACallable.                       (* any other callable *)

(** A loaded module: its namespace, and the descriptor pool its message
    classes resolve their field types in. *)
Record pymodule := {
  mod_attrs : list (string * modattr);
  mod_pool : DescriptorPool
}.

(** What executing a generated module does: it raises, or it yields the
    module and the modules it imports in turn. *)
Inductive loaded :=
  | ExecOk (m : pymodule) (imported : list (string * pymodule))
  | ExecRaises (e : exn).

(** One run of [protoc]: [generated] are the modules written below
    [--python_out], by dotted module name. *)
Record protoc_run := {
  returncode : Z;
  stderr : string;
  generated : gmap string loaded
}.

(** The interpreter state that outlives a request. *)
Record process := {
  sys_path : list string;
  sys_modules : gmap string pymodule
}.

(** What a request finds around it. *)
Record world := {
  fs : file_system;
  temp_dir : string;                                 (* [TemporaryDirectory()] *)
  protoc : Path → list Path → protoc_run;            (* include root, files *)
  other_hasattr : okind → string → bool
}.

(** The diagnostics the engine prints. *)
Inductive printed :=
  | ProtocFailed (stderr : string)
  | ImportFailed (module_name : string)
  | TypeNotFound (message_type : string) (available : list string)
  | EncodingError (e : exn).

(** The value [_encode_to_protobuf] returns: [Bytes m] is
    [m.SerializeToString()], [NoBytes] is [None]. *)
Inductive returned :=
  | Bytes (m : message)
  | NoBytes
  | Unmodelled.

Record response := {
  result : returned;
  output : list printed;
  after : process
}.

(** [sorted] (insertion sort on byte order), for [dir]. *)
Fixpoint insert_sorted (x : string) (l : list string) : list string :=
  match l with
  | [] => [x]
  | y :: r => if String.leb x y then x :: l else y :: insert_sorted x r
  end.

Definition sorted (l : list string) : list string :=
  List.fold_right insert_sorted [] l.

(** [dir(module)] *)
Definition dir (m : pymodule) : list string := sorted (List.map fst (mod_attrs m)).

(** Line 161: the public names of the module. *)
Definition available_names (m : pymodule) : list string :=
  List.filter (fun name => negb (PyStr.startswith "_" name)) (dir m).

(** Lines 139-146: the dotted name of the generated module; [None] is the
    [ValueError] of [relative_to]. *)
Definition proto_module_name (proto_path : Path) (proto_root : option Path)
  : option string :=
  match proto_root with
  | Some root =>
      match PyPath.relative_to proto_path root with
      | Some relative_proto =>
          let module_parts :=
            (removelast relative_proto
               ++ [String.append (PyStr.stem (PyPath.name relative_proto)) "_pb2"])%list in
          Some (PyStr.join "." module_parts)
      | None => None
      end
  | None => Some (String.append (PyStr.stem (PyPath.name proto_path)) "_pb2")
  end.

Fixpoint remove_first (x : string) (l : list string) : list string :=
  match l with
  | [] => []
  | y :: r => if String.eqb y x then r else y :: remove_first x r
  end.

Fixpoint cache_imported (imported : list (string * pymodule))
    (modules : gmap string pymodule) : gmap string pymodule :=
  match imported with
  | [] => modules
  | (n, m) :: r =>
      cache_imported r (match modules !! n with
                        | Some _ => modules
                        | None => <[n := m]> modules
                        end)
  end.

(** [__import__(name, fromlist=[''])] with [temp_dir] first on [sys.path]:
    a module already in [sys.modules] is returned as it is. *)
Definition import_module (run : protoc_run) (ps : process) (name : string)
  : (pymodule + exn) * process :=
  match sys_modules ps !! name with
  | Some m => (inl m, ps)
  | None =>
      match generated run !! name with
      | Some (ExecOk m imported) =>
          (inl m, {| sys_path := sys_path ps;
                     sys_modules := <[name := m]> (cache_imported imported (sys_modules ps)) |})
      | Some (ExecRaises e) => (inr e, ps)
      | None => (inr ImportError, ps)
      end
  end.

(** Lines 105-131: the include directory, the files to compile and the
    run of [protoc] on them. *)
Definition proto_include_dir (proto_path : Path) (proto_root : option Path) : Path :=
  match proto_root with
  | Some root => root
  | None => PyPath.parent proto_path
  end.

Definition compile (w : world) (proto_path : Path) (proto_root : option Path)
  : protoc_run :=
  protoc w (proto_include_dir proto_path proto_root)
    (Resolver.proto_files_to_compile (fs w) proto_path proto_root).

(** Line 148: [sys.path.insert(0, temp_dir)]. *)
Definition with_temp_dir (w : world) (ps : process) : process :=
  {| sys_path := temp_dir w :: sys_path ps; sys_modules := sys_modules ps |}.

(** [_encode_to_protobuf] (lines 90-180).  [proto_file] and [proto_root]
    are the absolute paths that [Path(...).absolute()] yields.  The copy of
    the JSON written to the temporary directory (lines 97-100) is read by
    nothing; [protoc] is taken to be installed.  [SerializeToString] raises
    [EncodeError] when a required field is not set. *)
Definition _encode_to_protobuf (w : world) (ps : process) (json_data : json)
    (proto_file : Path) (message_type : string) (proto_root : option Path)
  : response :=
  let proto_path := proto_file in
  let run := compile w proto_path proto_root in
  if negb (returncode run =? 0) then
    {| result := NoBytes; output := [ProtocFailed (stderr run)]; after := ps |}
  else
    match proto_module_name proto_path proto_root with
    | None =>
        {| result := NoBytes; output := [EncodingError ValueError]; after := ps |}
    | Some proto_module_name =>
        match import_module run (with_temp_dir w ps) proto_module_name with
        | (inr ImportError, ps2) =>
            {| result := NoBytes; output := [ImportFailed proto_module_name];
               after := ps2 |}
        | (inr e, ps2) =>
            {| result := NoBytes; output := [EncodingError e]; after := ps2 |}
        | (inl proto_module, ps2) =>
            match alist_get message_type (mod_attrs proto_module) with
            | None =>
                {| result := NoBytes;
                   output := [TypeNotFound message_type (available_names proto_module)];
                   after := ps2 |}
            | Some ANotCallable =>
                {| result := NoBytes; output := [EncodingError TypeError]; after := ps2 |}
            | Some ACallable =>
                {| result := Unmodelled; output := []; after := ps2 |}
            | Some (AMessageClass d) =>
                let message := new_message d in
                match Encoder._populate_message (mod_pool proto_module)
                        (other_hasattr w) (OMessage message) json_data with
                | (OMessage message', Returned) =>
                    if IsInitialized message' then
                      {| result := Bytes message'; output := [];
                         after := {| sys_path := remove_first (temp_dir w) (sys_path ps2);
                                     sys_modules := sys_modules ps2 |} |}
                    else    (* [SerializeToString] raises [EncodeError] *)
                      {| result := NoBytes; output := [EncodingError EncodeError];
                         after := ps2 |}
                | (_, Raised e) =>
                    {| result := NoBytes; output := [EncodingError e]; after := ps2 |}
                | (_, _) =>
                    {| result := Unmodelled; output := []; after := ps2 |}
                end
            end
        end
    end.

(** The handler serves requests one after the other in one process. *)
Record request := {
  req_world : world;
  json_data : json;
  proto_file : Path;
  message_type : string;
  proto_root : option Path
}.

Fixpoint serve (ps : process) (reqs : list request) : list response :=
  match reqs with
  | [] => []
  | r :: rest =>
      let resp := _encode_to_protobuf (req_world r) ps (json_data r)
                    (proto_file r) (message_type r) (proto_root r) in
      resp :: serve (after resp) rest
  end.

End Engine.

(* ===================================================================== *)
(** * A schema, a file system and a process to run the engine on *)
(* ===================================================================== *)

Module Fixtures.
Import Py Proto Engine.

Definition scalar_field (n : string) (t : ftype) : FieldDescriptor :=
  {| name := n; repeated := false; type := t;
     required := false; containing_oneof := None |}.

Definition repeated_field (n : string) (t : ftype) : FieldDescriptor :=
  {| name := n; repeated := true; type := t;
     required := false; containing_oneof := None |}.

(** The methods every generated message class has. *)
Definition message_methods : list string :=
  ["DESCRIPTOR"; "Clear"; "ClearField"; "CopyFrom"; "FromString"; "HasField";
   "IsInitialized"; "ListFields"; "MergeFrom"; "MergeFromString";
   "ParseFromString"; "SerializeToString"; "SetInParent"; "WhichOneof"].

(** [message Item { int32 id = 1; }] *)
Definition Item : Descriptor :=
  {| full_name := "mock.Item"; fields := [scalar_field "id" TInt32];
     map_entry := false; class_attrs := message_methods |}.

(** [message Note { string id = 1; }] *)
Definition Note : Descriptor :=
  {| full_name := "mock.Note"; fields := [scalar_field "id" TString];
     map_entry := false; class_attrs := message_methods |}.

(** The entry types of [map<string, google.protobuf.Struct>] and
    [map<int32, google.protobuf.Struct>]. *)
Definition AttrsEntry : Descriptor :=
  {| full_name := "mock.Envelope.AttrsEntry";
     fields := [scalar_field "key" TString; scalar_field "value" (TMessage Struct_name)];
     map_entry := true; class_attrs := message_methods |}.

Definition LedgerAttrsEntry : Descriptor :=
  {| full_name := "mock.Ledger.AttrsEntry";
     fields := [scalar_field "key" TInt32; scalar_field "value" (TMessage Struct_name)];
     map_entry := true; class_attrs := message_methods |}.

(** [message Envelope { string header = 1; int32 count = 2;
      map<string, google.protobuf.Struct> attrs = 3;
      repeated Item items = 4; repeated Note notes = 5;
      repeated string tags = 6; }] *)
Definition Envelope : Descriptor :=
  {| full_name := "mock.Envelope";
     fields := [scalar_field "header" TString;
                scalar_field "count" TInt32;
                repeated_field "attrs" (TMessage "mock.Envelope.AttrsEntry");
                repeated_field "items" (TMessage "mock.Item");
                repeated_field "notes" (TMessage "mock.Note");
                repeated_field "tags" TString];
     map_entry := false; class_attrs := message_methods |}.

(** [message Ledger { map<int32, google.protobuf.Struct> attrs = 1; }] *)
Definition Ledger : Descriptor :=
  {| full_name := "mock.Ledger";
     fields := [repeated_field "attrs" (TMessage "mock.Ledger.AttrsEntry")];
     map_entry := false; class_attrs := message_methods |}.

(** [message Packet { enum Part { header_ = 0; body_ = 1; } string header = 1; }]:
    the values of the nested enum are attributes of the class. *)
Definition Packet : Descriptor :=
  {| full_name := "mock.Packet"; fields := [scalar_field "header" TString];
     map_entry := false;
     class_attrs := (message_methods ++ ["Part"; "header_"; "body_"])%list |}.

(** [message Frame { string header = 1; string header_ = 2; }] *)
Definition Frame : Descriptor :=
  {| full_name := "mock.Frame";
     fields := [scalar_field "header" TString; scalar_field "header_" TString];
     map_entry := false; class_attrs := message_methods |}.

Definition pool : DescriptorPool :=
  list_to_map [("mock.Item", Item); ("mock.Note", Note); ("mock.Frame", Frame);
               ("mock.Envelope.AttrsEntry", AttrsEntry);
               ("mock.Ledger.AttrsEntry", LedgerAttrsEntry);
               ("mock.Envelope", Envelope); ("mock.Ledger", Ledger);
               ("mock.Packet", Packet);
               (Struct_name, Struct_DESCRIPTOR);
               (Value_name, Value_DESCRIPTOR);
               (ListValue_name, ListValue_DESCRIPTOR)].

(** Public methods of the runtime's containers and of plain values. *)
Definition container_hasattr (k : okind) (n : string) : bool :=
  bool_decide (n ∈ match k with
                   | KScalarMap | KMessageMap =>
                       ["clear"; "get"; "items"; "keys"; "pop"; "popitem";
                        "setdefault"; "update"; "values"; "MergeFrom";
                        "GetEntryClass"; "get_or_create"]
                   | KRepeatedScalar | KRepeatedComposite =>
                       ["add"; "append"; "extend"; "insert"; "pop"; "remove";
                        "reverse"; "sort"; "MergeFrom"]
                   | KPlain _ =>
                       ["real"; "imag"; "conjugate"; "upper"; "lower"; "strip"]
                   end).

(** The module [protoc] generates for [envelope.proto]. *)
Definition envelope_pb2 : pymodule :=
  {| mod_attrs := [("__name__", ANotCallable); ("__doc__", ANotCallable);
                   ("_builder", ANotCallable); ("_sym_db", ANotCallable);
                   ("DESCRIPTOR", ANotCallable);
                   ("google_dot_protobuf_dot_struct__pb2", ANotCallable);
                   ("Item", AMessageClass Item); ("Note", AMessageClass Note);
                   ("Envelope", AMessageClass Envelope);
                   ("Ledger", AMessageClass Ledger);
                   ("Packet", AMessageClass Packet);
                   ("Frame", AMessageClass Frame)];
     mod_pool := pool |}.

(** The module generated for a schema file that declares no type, only
    an import of [google/protobuf/struct.proto] and a file option. *)
Definition options_pb2 : pymodule :=
  {| mod_attrs := [("__name__", ANotCallable); ("__doc__", ANotCallable);
                   ("_builder", ANotCallable); ("_sym_db", ANotCallable);
                   ("DESCRIPTOR", ANotCallable);
                   ("google_dot_protobuf_dot_struct__pb2", ANotCallable)];
     mod_pool := ∅ |}.

Definition import_line (p : string) : string :=
  "import " ++ String PyStr.dquote (p ++ String PyStr.dquote ";").

Definition include_root : Path := ["srv"; "proto"].

(** A diamond ([a] imports [b] and [c], [b] imports [c]) closed into a
    cycle ([c] imports [a]); [a] also imports a file that does not exist. *)
Definition graph_fs : file_system :=
  list_to_map
    [(["srv"; "proto"; "a.proto"],
      TextFile ["syntax = 'proto3';"; import_line "b.proto"; import_line "c.proto";
                import_line "gone.proto"; "message A {}"]);
     (["srv"; "proto"; "b.proto"], TextFile [import_line "c.proto"; "message B {}"]);
     (["srv"; "proto"; "c.proto"], TextFile [import_line "a.proto"; "message C {}"])].

Definition schema_fs : file_system :=
  list_to_map
    [(["srv"; "proto"; "envelope.proto"], TextFile ["syntax = 'proto3';"]);
     (["srv"; "proto"; "options.proto"],
      TextFile ["syntax = 'proto3';"; import_line "google/protobuf/struct.proto";
                "option java_package = 'mock';"])].

Definition protoc_ok (generated : list (string * loaded)) (_ : Path) (_ : list Path)
  : protoc_run :=
  {| returncode := 0; stderr := ""; generated := list_to_map generated |}.

Definition the_world : world :=
  {| fs := schema_fs; temp_dir := "/tmp/tmpa1";
     protoc := protoc_ok [("envelope_pb2", ExecOk envelope_pb2 []);
                          ("options_pb2", ExecOk options_pb2 [])];
     other_hasattr := container_hasattr |}.

Definition fresh_process : process :=
  {| sys_path := ["/srv/app"]; sys_modules := ∅ |}.

Definition envelope_proto : Path := ["srv"; "proto"; "envelope.proto"].
Definition options_proto : Path := ["srv"; "proto"; "options.proto"].

(** Two versions of [ping.proto]: [message Ping { int32 id = 1; }], to
    which the second adds [string note = 2;]. *)
Definition Ping_v1 : Descriptor :=
  {| full_name := "mock.Ping"; fields := [scalar_field "id" TInt32];
     map_entry := false; class_attrs := message_methods |}.

Definition Ping_v2 : Descriptor :=
  {| full_name := "mock.Ping";
     fields := [scalar_field "id" TInt32; scalar_field "note" TString];
     map_entry := false; class_attrs := message_methods |}.

Definition ping_pb2 (d : Descriptor) : pymodule :=
  {| mod_attrs := [("DESCRIPTOR", ANotCallable); ("Ping", AMessageClass d)];
     mod_pool := {[ "mock.Ping" := d ]} |}.

Definition ping_proto : Path := ["srv"; "proto"; "ping.proto"].

Definition ping_world (tmp : string) (d : Descriptor) (lines : list string) : world :=
  {| fs := {[ ping_proto := TextFile lines ]}; temp_dir := tmp;
     protoc := protoc_ok [("ping_pb2", ExecOk (ping_pb2 d) [])];
     other_hasattr := container_hasattr |}.

Definition ping_json : json :=
  JDict [("id", JAtom (AInt 1)); ("note", JAtom (AStr "hi"))].

Definition ping_request (w : world) : request :=
  {| req_world := w; json_data := ping_json; proto_file := ping_proto;
     message_type := "Ping"; proto_root := None |}.

Definition ping_before : world :=
  ping_world "/tmp/tmpa1" Ping_v1 ["message Ping { int32 id = 1; }"].

Definition ping_after : world :=
  ping_world "/tmp/tmpb2" Ping_v2 ["message Ping { int32 id = 1; string note = 2; }"].

(** The fields of [Envelope], the requests and the JSON values the cases
    below are about. *)
Definition header_field : FieldDescriptor := scalar_field "header" TString.
Definition count_field : FieldDescriptor := scalar_field "count" TInt32.
Definition attrs_field : FieldDescriptor :=
  repeated_field "attrs" (TMessage "mock.Envelope.AttrsEntry").
Definition items_field : FieldDescriptor := repeated_field "items" (TMessage "mock.Item").
Definition tags_field : FieldDescriptor := repeated_field "tags" TString.

Definition encode (data : json) (proto : Path) (message_type : string) : response :=
  _encode_to_protobuf the_world fresh_process data proto message_type None.

Definition the_attrs : json :=
  JDict [("a", JDict [("x", JAtom (AInt 1))]); ("b", JDict [("y", JAtom (AStr "z"))])].

Definition two_objects : json := JList [JDict [("id", JAtom (AInt 1))]; JDict [("id", JAtom (AInt 2))]].

Definition broken_attrs : json :=
  JDict [("a", JDict [("x", JAtom (AInt 1))]); ("b", JAtom (AInt 5)); ("c", JDict [("y", JAtom (AStr "z"))])].

Definition a_proto : Path := ["srv"; "proto"; "a.proto"].
Definition b_proto : Path := ["srv"; "proto"; "b.proto"].
Definition c_proto : Path := ["srv"; "proto"; "c.proto"].

(** An include root given with a [..] in it: [a.proto] and [b.proto]
    import each other; every spelling of a file finds the same file. *)
Definition dotted_root : Path := ["srv"; "app"; ".."; "protos"].
Definition plain_a : Path := ["srv"; "protos"; "a.proto"].
Definition plain_b : Path := ["srv"; "protos"; "b.proto"].
Definition dotted_a : Path := ["srv"; "app"; ".."; "protos"; "a.proto"].
Definition dotted_b : Path := ["srv"; "app"; ".."; "protos"; "b.proto"].

Definition dotted_fs : file_system :=
  list_to_map
    [(plain_a, TextFile [import_line "b.proto"; "message A {}"]);
     (plain_b, TextFile [import_line "a.proto"; "message B {}"]);
     (dotted_a, TextFile [import_line "b.proto"; "message A {}"]);
     (dotted_b, TextFile [import_line "a.proto"; "message B {}"])].

(** A schema whose first import has a file name of 262 bytes, more than
    a file name may have: [stat] fails on it with [ENAMETOOLONG].  Its
    second import exists. *)
Fixpoint letters (n : nat) : string :=
  match n with
  | O => EmptyString
  | S k => String "x" (letters k)
  end.

Definition long_import : string := letters 256 ++ ".proto".
Definition main_proto : Path := ["srv"; "proto"; "main.proto"].
Definition main_lines : list string :=
  [import_line long_import; import_line "b.proto"; "message M {}"].

Definition long_fs : file_system :=
  list_to_map
    [(main_proto, TextFile main_lines);
     (b_proto, TextFile ["message B {}"]);
     (["srv"; "proto"; long_import], Inaccessible)].

(** The same schema where the first import names a file that is absent. *)
Definition short_fs : file_system :=
  list_to_map
    [(main_proto, TextFile main_lines);
     (b_proto, TextFile ["message B {}"])].

(** [ping.proto] changed to declare [message Pong { int32 id = 1; }] and
    no [Ping]. *)
Definition Pong : Descriptor :=
  {| full_name := "mock.Pong"; fields := [scalar_field "id" TInt32];
     map_entry := false; class_attrs := message_methods |}.

Definition pong_pb2 : pymodule :=
  {| mod_attrs := [("DESCRIPTOR", ANotCallable); ("Pong", AMessageClass Pong)];
     mod_pool := {[ "mock.Pong" := Pong ]} |}.

Definition pong_world : world :=
  {| fs := {[ ping_proto := TextFile ["message Pong { int32 id = 1; }"] ]};
     temp_dir := "/tmp/tmpc3";
     protoc := protoc_ok [("ping_pb2", ExecOk pong_pb2 [])];
     other_hasattr := container_hasattr |}.

End Fixtures.

(* ===================================================================== *)
(** * The import graph of a schema *)
(* ===================================================================== *)

Module ResolverSpec.
Import Resolver.

Section Graph.
Variable fs : file_system.
Variable proto_root : Path.

(** A line of the readable file [p] imports the existing file [q], and
    [exists()] raises on no import line of [p] before it. *)
Definition imports_file (p q : Path) : Prop :=
  ∃ lines line import_path,
    fs !! p = Some (TextFile lines) ∧ line ∈ lines_read fs proto_root lines ∧
    import_of_line line = Some import_path ∧
    q = PyPath.truediv proto_root import_path ∧ stat fs q = Found.

(** The files a schema depends on: itself and, transitively, what its
    readable files import. *)
Inductive reachable (start : Path) : Path → Prop :=
  | reach_start : reachable start start
  | reach_import p q : reachable start p → imports_file p q → reachable start q.

End Graph.

(** Strings of blanks, and strings without a given character. *)
Fixpoint all_space (s : string) : bool :=
  match s with
  | EmptyString => true
  | String c r => PyStr.is_space c && all_space r
  end.

Fixpoint lacks (c : ascii) (s : string) : bool :=
  match s with
  | EmptyString => true
  | String c' r => negb (Ascii.eqb c' c) && lacks c r
  end.

(** The text of an import statement: [import <modifier>"<path>"<rest>]. *)
Definition import_statement (modifier path rest : string) : string :=
  "import " ++ modifier ++ String PyStr.dquote (path ++ String PyStr.dquote rest).

End ResolverSpec.

(* ===================================================================== *)
(** * Configuration: [load_endpoints_config] *)
(* ===================================================================== *)

Module Config.
Import Py.

(** What is found where a JSON file is expected: text that parses to a
    value, text on which [json.load] raises [JSONDecodeError], or something
    [open] or the decoder raises another exception on. *)
Inductive jnode :=
  | JsonText (data : json)
  | NotJson
  | NotReadable.

(** The keys of the endpoint table.  Python compares numbers by value
    ([True == 1 == 1.0]), so one key stands for all of them. *)
Inductive key :=
  | KStr (s : string)
  | KNum (q : Qc)
  | KNone.

#[global] Instance key_eq_dec : EqDecision key.
Proof. solve_decision. Defined.

(** [bool(v)] *)
Definition truthy (v : json) : bool :=
  match v with
  | JAtom ANone => false
  | JAtom (ABool b) => b
  | JAtom (AInt n) => negb (n =? 0)
  | JAtom (AFloat q) => negb (bool_decide (q = float_of_int 0))
  | JAtom (AStr s) => negb (String.eqb s "")
  | JList l => match l with [] => false | _ => true end
  | JDict l => match l with [] => false | _ => true end
  end.

(** The key a value is stored under; a [list] or a [dict] is not hashable. *)
Definition key_of (v : json) : option key :=
  match v with
  | JAtom ANone => Some KNone
  | JAtom (ABool b) => Some (KNum (float_of_int (int_of_bool b)))
  | JAtom (AInt n) => Some (KNum (float_of_int n))
  | JAtom (AFloat q) => Some (KNum q)
  | JAtom (AStr s) => Some (KStr s)
  | JList _ | JDict _ => None
  end.

(** [d.get(k, default)] *)
Definition get (d : list (string * json)) (k : string) (default : json) : json :=
  match alist_get k d with
  | Some v => v
  | None => default
  end.

(** [table[k]] and [table[k] = v] *)
Fixpoint table_get (k : key) (table : list (key * json)) : option json :=
  match table with
  | [] => None
  | (k', v) :: r => if decide (k' = k) then Some v else table_get k r
  end.

Fixpoint table_set (k : key) (v : json) (table : list (key * json))
  : list (key * json) :=
  match table with
  | [] => [(k, v)]
  | (k', v') :: r =>
      if decide (k' = k) then (k', v) :: r else (k', v') :: table_set k v r
  end.

(** [str(p)] for an absolute path. *)
Definition path_str (p : Path) : string :=
  match p with
  | [] => "/"
  | _ => "/" ++ PyStr.join "/" p
  end.

(** [os.path.isabs(s)] *)
Definition isabs (s : string) : bool := PyStr.startswith "/" s.

(** Lines 331-334: the [json_file] of an entry, made absolute against the
    directory of the script; [None] is the [TypeError] of [os.path.isabs] on
    a value that is no string. *)
Definition resolve_json_file (script_dir : Path) (json_file : json) : option json :=
  if truthy json_file then
    match json_file with
    | JAtom (AStr s) =>
        if isabs s then Some json_file
        else Some (JAtom (AStr (path_str (PyPath.truediv script_dir s))))
    | _ => None
    end
  else Some json_file.

(** Lines 336-341: the dict stored for an entry. *)
Definition entry_config (endpoint : list (string * json)) (json_file : json) : json :=
  JDict [("json_file", json_file);
         ("proto_file", get endpoint "proto_file" (JAtom (AStr "")));
         ("message_type", get endpoint "message_type" (JAtom (AStr "")));
         ("proto_root", get endpoint "proto_root" (JAtom ANone))].

(** Lines 326-341: the loop over the entries; [None] is an exception, which
    the handlers of lines 345-350 turn into [sys.exit(1)]. *)
Fixpoint load_entries (script_dir : Path) (entries : list json)
    (endpoints_dict : list (key * json)) : option (list (key * json)) :=
  match entries with
  | [] => Some endpoints_dict
  | endpoint :: rest =>
      match endpoint with
      | JDict e =>
          let path := get e "path" (JAtom ANone) in
          if negb (truthy path) then load_entries script_dir rest endpoints_dict
          else
            match resolve_json_file script_dir (get e "json_file" (JAtom (AStr ""))) with
            | None => None
            | Some json_file =>
                match key_of path with
                | None => None
                | Some k =>
                    load_entries script_dir rest
                      (table_set k (entry_config e json_file) endpoints_dict)
                end
            end
      | _ => None      (* no [get] on it *)
      end
  end.

(** Line 326: what [for endpoint in config.get('endpoints', [])] iterates
    over; [None] when the value cannot be iterated. *)
Definition endpoints_of (config : json) : option (list json) :=
  match config with
  | JDict c =>
      match get c "endpoints" (JList []) with
      | JList entries => Some entries
      | JDict entries => Some (List.map (λ kv, JAtom (AStr kv.1)) entries)
      | JAtom (AStr s) =>
          Some (List.map (λ c, JAtom (AStr (String c EmptyString))) (list_ascii_of_string s))
      | JAtom _ => None
      end
  | _ => None
  end.

(** [load_endpoints_config] (lines 310-350): [config_file] is what is found
    at [script_dir / config_file]; [None] is [sys.exit(1)]. *)
Definition load_endpoints_config (script_dir : Path) (config_file : option jnode)
  : option (list (key * json)) :=
  match config_file with
  | Some (JsonText config) =>
      match endpoints_of config with
      | Some entries => load_entries script_dir entries []
      | None => None
      end
  | _ => None
  end.

(** An entry that is stored: a dict with a path. *)
Definition has_path (endpoint : json) : bool :=
  match endpoint with
  | JDict e => truthy (get e "path" (JAtom ANone))
  | _ => true
  end.

(** The key of an entry, when it has one. *)
Definition entry_key (endpoint : json) : option key :=
  match endpoint with
  | JDict e =>
      if truthy (get e "path" (JAtom ANone)) then key_of (get e "path" (JAtom ANone))
      else None
  | _ => None
  end.

End Config.

(* ===================================================================== *)
(** * The request handler: [_handle_request] *)
(* ===================================================================== *)

Module Handler.
Import Py Proto Engine Config.

(** The configuration of an endpoint as [main] leaves it (lines 391-402):
    both files as absolute paths. *)
Record endpoint := {
  ep_json_file : Path;
  ep_proto_file : Path;
  ep_message_type : string;
  ep_proto_root : option Path
}.

(** [ProtobufMockHandler.endpoints], and the JSON files on disk. *)
Record site := {
  endpoints : list (string * endpoint);
  json_files : gmap Path jnode
}.

(** The texts of the error responses. *)
Inductive error_text :=
  | EndpointNotFound (endpoint_path : string) (available : list string)
  | JsonFileNotFound (json_file : Path)
  | InvalidJson
  | FailedToEncode
  | ServerError.

Inductive header :=
  | ContentType (v : string)
  | ContentLength (of_body : message)      (* [str(len(proto_data))] *)
  | AllowOrigin (v : string).

Inductive payload :=
  | ProtoData (proto_data : message)
  | ErrorBody (text : error_text).

Record http_response := {
  status : Z;
  headers : list header;
  body : payload
}.

(** [_send_error] (lines 297-303) *)
Definition _send_error (code : Z) (text : error_text) : http_response :=
  {| status := code; headers := [ContentType "text/plain"]; body := ErrorBody text |}.

Inductive handled :=
  | Responded (r : http_response) (ps : process)
  | NotModelled.

Definition question_mark : ascii := Ascii.ascii_of_nat 63.

(** Line 34: [self.path.split('?')[0]] *)
Definition endpoint_path_of (path : string) : string :=
  List.hd "" (PyStr.split question_mark path).

(** [_handle_request] (lines 30-88), which [do_GET] and [do_POST] both
    call. *)
Definition _handle_request (s : site) (w : world) (ps : process) (path : string)
  : handled :=
  let endpoint_path := endpoint_path_of path in
  match alist_get endpoint_path (endpoints s) with
  | None =>
      let available := List.map fst (endpoints s) in
      Responded (_send_error 404 (EndpointNotFound endpoint_path available)) ps
  | Some config =>
      let json_file := ep_json_file config in
      match json_files s !! json_file with
      | None => Responded (_send_error 404 (JsonFileNotFound json_file)) ps
      | Some NotJson => Responded (_send_error 400 InvalidJson) ps
      | Some NotReadable => Responded (_send_error 500 ServerError) ps
      | Some (JsonText json_data) =>
          let resp := _encode_to_protobuf w ps json_data (ep_proto_file config)
                        (ep_message_type config) (ep_proto_root config) in
          match result resp with
          | Bytes proto_data =>
              Responded {| status := 200;
                           headers := [ContentType "application/x-protobuf";
                                       ContentLength proto_data;
                                       AllowOrigin "*"];
                           body := ProtoData proto_data |}
                        (after resp)
          | NoBytes => Responded (_send_error 500 FailedToEncode) (after resp)
          | Unmodelled => NotModelled
          end
      end
  end.

Definition do_GET := _handle_request.
Definition do_POST := _handle_request.

(** The request is for a configured endpoint whose file holds JSON: the
    engine is called, with this configuration and this JSON. *)
Definition reaches_engine (s : site) (path : string) (config : endpoint)
    (json_data : json) : Prop :=
  alist_get (endpoint_path_of path) (endpoints s) = Some config ∧
  json_files s !! ep_json_file config = Some (JsonText json_data).

Definition encoded (w : world) (ps : process) (config : endpoint) (json_data : json)
  : response :=
  _encode_to_protobuf w ps json_data (ep_proto_file config)
    (ep_message_type config) (ep_proto_root config).

End Handler.

(* ===================================================================== *)
(** * Vocabulary for the statements about the encoder *)
(* ===================================================================== *)

Module EncoderSpec.
Import Py Proto Encoder.

(** A path of singular message fields below a message of type [d]: each
    step names a field and the type of the message it holds, which is
    neither [google.protobuf.Struct] nor the entry type of a map. *)
Fixpoint links (pool : DescriptorPool) (d : Descriptor)
    (path : list (string * Descriptor)) : Prop :=
  match path with
  | [] => True
  | (k, d') :: r =>
      (∃ f, fields_by_name d k = Some f ∧ kind_of pool f = FkMessage d' ∧
            is_struct_typed pool f = false ∧ map_entry d' = false) ∧
      links pool d' r
  end.

(** The JSON object that holds [inner] at the end of the path. *)
Fixpoint nest (path : list (string * Descriptor)) (inner : json) : json :=
  match path with
  | [] => inner
  | (k, _) :: r => JDict [(k, nest r inner)]
  end.

(** A new message of type [d] that holds [leaf] at the end of the path. *)
Fixpoint wrap (d : Descriptor) (path : list (string * Descriptor)) (leaf : message)
  : message :=
  match path with
  | [] => leaf
  | (k, d') :: r => attach (new_message d) k (wrap d' r leaf)
  end.

(** The type of the message at the end of the path. *)
Definition leaf_of (d : Descriptor) (path : list (string * Descriptor)) : Descriptor :=
  List.last (List.map snd path) d.

(** [field] is a map field with keys of type [kt] and scalar values of
    type [vt]. *)
Definition scalar_map (pool : DescriptorPool) (field : FieldDescriptor)
    (kt vt : ftype) : Prop :=
  repeated field = true ∧
  ∃ entry kf vf,
    message_type pool field = Some entry ∧ map_entry entry = true ∧
    full_name entry ≠ Struct_name ∧
    fields_by_name entry "key" = Some kf ∧ type kf = kt ∧
    fields_by_name entry "value" = Some vf ∧ type vf = vt ∧
    message_type pool vf = None ∧ (∀ n, vt ≠ TMessage n).

(** [field] is a map field with keys of type [kt] whose values are
    messages of type [d], which is not [google.protobuf.Struct]. *)
Definition message_map (pool : DescriptorPool) (field : FieldDescriptor)
    (kt : ftype) (d : Descriptor) : Prop :=
  repeated field = true ∧
  ∃ entry kf vf,
    message_type pool field = Some entry ∧ map_entry entry = true ∧
    full_name entry ≠ Struct_name ∧
    fields_by_name entry "key" = Some kf ∧ type kf = kt ∧
    fields_by_name entry "value" = Some vf ∧
    message_type pool vf = Some d ∧ full_name d ≠ Struct_name.

(** A scalar map after the values [vs] have been stored under [keys]. *)
Fixpoint stored_under (keys : list string) (vs : list atom)
    (cur : list (string * value)) : list (string * value) :=
  match keys, vs with
  | k :: keys', v :: vs' => stored_under keys' vs' (alist_set k (VScalar v) cur)
  | _, _ => cur
  end.

(** The JSON object with the scalar values [atoms] under [keys]. *)
Fixpoint object_of (keys : list string) (atoms : list atom) : list (string * json) :=
  match keys, atoms with
  | k :: keys', a :: atoms' => (k, JAtom a) :: object_of keys' atoms'
  | _, _ => []
  end.

(** [m'] is [m] but for what it holds under [n] and under the other
    members of the oneof of [n]. *)
Definition writes_only (n : string) (m m' : message) : Prop :=
  DESCRIPTOR m' = DESCRIPTOR m ∧
  ∀ n', n' ≠ n → n' ∉ siblings (DESCRIPTOR m) n →
        alist_get n' (store m') = alist_get n' (store m).

(** The container a map field yields. *)
Definition container_of (mv : mapvalue) : okind :=
  match mv with
  | MvScalar _ => KScalarMap
  | MvMessage _ => KMessageMap
  end.

End EncoderSpec.

(* ===================================================================== *)
(** * A second schema, a site and a configuration *)
(* ===================================================================== *)

Module Directory.
Import Py Proto Engine Config Handler Fixtures.

(** [message Geo { int32 lat = 1; }] *)
Definition Geo : Descriptor :=
  {| full_name := "mock.Geo"; fields := [scalar_field "lat" TInt32];
     map_entry := false; class_attrs := message_methods |}.

(** [message Address { string city = 1; Geo geo = 2; }] *)
Definition Address : Descriptor :=
  {| full_name := "mock.Address";
     fields := [scalar_field "city" TString; scalar_field "geo" (TMessage "mock.Geo")];
     map_entry := false; class_attrs := message_methods |}.

(** The entry types of [map<string, int32>], [map<string, Address>] and
    [map<int32, string>]. *)
Definition ScoresEntry : Descriptor :=
  {| full_name := "mock.Profile.ScoresEntry";
     fields := [scalar_field "key" TString; scalar_field "value" TInt32];
     map_entry := true; class_attrs := message_methods |}.

Definition PlacesEntry : Descriptor :=
  {| full_name := "mock.Profile.PlacesEntry";
     fields := [scalar_field "key" TString; scalar_field "value" (TMessage "mock.Address")];
     map_entry := true; class_attrs := message_methods |}.

Definition CodesEntry : Descriptor :=
  {| full_name := "mock.Profile.CodesEntry";
     fields := [scalar_field "key" TInt32; scalar_field "value" TString];
     map_entry := true; class_attrs := message_methods |}.

(** [message Profile { string name = 1; int32 age = 2; Address address = 3;
      google.protobuf.Struct extra = 4; map<string, int32> scores = 5;
      map<string, Address> places = 6; map<int32, string> codes = 7;
      bool active = 8; double ratio = 9; repeated Geo track = 10; }] *)
Definition name_field : FieldDescriptor := scalar_field "name" TString.
Definition age_field : FieldDescriptor := scalar_field "age" TInt32.
Definition address_field : FieldDescriptor := scalar_field "address" (TMessage "mock.Address").
Definition extra_field : FieldDescriptor := scalar_field "extra" (TMessage Struct_name).
Definition scores_field : FieldDescriptor :=
  repeated_field "scores" (TMessage "mock.Profile.ScoresEntry").
Definition places_field : FieldDescriptor :=
  repeated_field "places" (TMessage "mock.Profile.PlacesEntry").
Definition codes_field : FieldDescriptor :=
  repeated_field "codes" (TMessage "mock.Profile.CodesEntry").
Definition active_field : FieldDescriptor := scalar_field "active" TBool.
Definition ratio_field : FieldDescriptor := scalar_field "ratio" TDouble.
Definition track_field : FieldDescriptor := repeated_field "track" (TMessage "mock.Geo").

Definition Profile : Descriptor :=
  {| full_name := "mock.Profile";
     fields := [name_field; age_field; address_field; extra_field; scores_field;
                places_field; codes_field; active_field; ratio_field; track_field];
     map_entry := false; class_attrs := message_methods |}.

Definition profile_pool : DescriptorPool :=
  list_to_map [("mock.Geo", Geo); ("mock.Address", Address);
               ("mock.Profile.ScoresEntry", ScoresEntry);
               ("mock.Profile.PlacesEntry", PlacesEntry);
               ("mock.Profile.CodesEntry", CodesEntry);
               ("mock.Profile", Profile);
               (Struct_name, Struct_DESCRIPTOR);
               (Value_name, Value_DESCRIPTOR);
               (ListValue_name, ListValue_DESCRIPTOR)].

(** A message that already holds something. *)
Definition a_profile : message :=
  Msg Profile [("name", VScalar (AStr "Ann")); ("age", VScalar (AInt 30))].

(** The endpoints of a site and its JSON files. *)
Definition ping_endpoint : endpoint :=
  {| ep_json_file := ["srv"; "data"; "ping.json"]; ep_proto_file := ping_proto;
     ep_message_type := "Ping"; ep_proto_root := None |}.

Definition pong_endpoint : endpoint :=
  {| ep_json_file := ["srv"; "data"; "pong.json"]; ep_proto_file := ping_proto;
     ep_message_type := "Pong"; ep_proto_root := None |}.

Definition the_site : site :=
  {| endpoints := [("/ping", ping_endpoint); ("/pong", pong_endpoint);
                   ("/gone", {| ep_json_file := ["srv"; "data"; "gone.json"];
                                ep_proto_file := ping_proto;
                                ep_message_type := "Ping"; ep_proto_root := None |});
                   ("/torn", {| ep_json_file := ["srv"; "data"; "torn.json"];
                                ep_proto_file := ping_proto;
                                ep_message_type := "Ping"; ep_proto_root := None |})];
     json_files := {[ ["srv"; "data"; "ping.json"] := JsonText ping_json;
                      ["srv"; "data"; "pong.json"] := JsonText ping_json;
                      ["srv"; "data"; "torn.json"] := NotJson ]} |}.

(** An [endpoints.json]: the path [/ping] is configured twice, one entry
    has no path. *)
Definition entry (path json_file message_type : string) : json :=
  JDict [("path", JAtom (AStr path)); ("json_file", JAtom (AStr json_file));
         ("proto_file", JAtom (AStr "proto/ping.proto"));
         ("message_type", JAtom (AStr message_type))].

Definition endpoints_json : json :=
  JDict [("endpoints",
          JList [entry "/ping" "data/old.json" "Ping";
                 JDict [("json_file", JAtom (AInt 7))];
                 entry "/pong" "/abs/pong.json" "Pong";
                 entry "/ping" "data/ping.json" "Ping"])].

Definition script_dir : Path := ["srv"; "app"].

(** A process that has served a request for [ping.proto] in its first
    version. *)
Definition warm_process : process :=
  {| sys_path := ["/srv/app"]; sys_modules := {[ "ping_pb2" := ping_pb2 Ping_v1 ]} |}.

(** The response to [/ping] under the first version of the schema. *)
Definition ping_response : http_response :=
  {| status := 200;
     headers := [ContentType "application/x-protobuf";
                 ContentLength (Msg Ping_v1 [("id", VScalar (AInt 1))]);
                 AllowOrigin "*"];
     body := ProtoData (Msg Ping_v1 [("id", VScalar (AInt 1))]) |}.

(** A path of two singular message fields below [Profile]. *)
Definition geo_path : list (string * Descriptor) := [("address", Address); ("geo", Geo)].

(** [message Choice { oneof pick { string text = 1; int32 number = 2; }
      string tag = 3; }], and one that holds [text] and [tag]. *)
Definition pick_member (n : string) (t : ftype) : FieldDescriptor :=
  {| name := n; repeated := false; type := t;
     required := false; containing_oneof := Some "pick" |}.

Definition Choice : Descriptor :=
  {| full_name := "mock.Choice";
     fields := [pick_member "text" TString; pick_member "number" TInt32;
                scalar_field "tag" TString];
     map_entry := false; class_attrs := message_methods |}.

Definition a_choice : message :=
  Msg Choice [("text", VScalar (AStr "old")); ("tag", VScalar (AStr "t"))].

(** A schema in the [proto2] syntax:
    [message Login { required string user = 1; optional int32 tries = 2; }] *)
Definition Login : Descriptor :=
  {| full_name := "mock.Login";
     fields := [ {| name := "user"; repeated := false; type := TString;
                    required := true; containing_oneof := None |};
                 scalar_field "tries" TInt32 ];
     map_entry := false; class_attrs := message_methods |}.

Definition login_pb2 : pymodule :=
  {| mod_attrs := [("DESCRIPTOR", ANotCallable); ("Login", AMessageClass Login)];
     mod_pool := {[ "mock.Login" := Login ]} |}.

Definition login_proto : Path := ["srv"; "proto"; "login.proto"].

Definition login_world : world :=
  {| fs := {[ login_proto :=
                TextFile ["syntax = 'proto2';";
                          "message Login { required string user = 1; optional int32 tries = 2; }"] ]};
     temp_dir := "/tmp/tmpd4";
     protoc := protoc_ok [("login_pb2", ExecOk login_pb2 [])];
     other_hasattr := container_hasattr |}.

End Directory.

(* ===================================================================== *)
(** * Properties of the Schema Resolver *)
(* ===================================================================== *)

Module ResolverFacts.
Import Resolver.
#[local] Set Warnings "-clear-no-such-hyp".

Lemma stat_found_exists (fs : file_system) p : stat fs p = Found → is_Some (fs !! p).
Proof. unfold stat. destruct (fs !! p) as [[]|]; by eauto. Qed.

Section Invariants.
Variable fs : file_system.
Variable proto_root : Path.

Abbreviation target ip := (PyPath.truediv proto_root ip).

Abbreviation scanned := (Resolver.scanned fs proto_root).
Abbreviation closed_file := (Resolver.closed_file fs proto_root).
Abbreviation grows := (Resolver.grows fs proto_root).
Abbreviation unseen := (Resolver.unseen fs).
Abbreviation new_exist := (Resolver.new_exist fs).
Abbreviation lines_read := (Resolver.lines_read fs proto_root).
Abbreviation stat_fails := (Resolver.stat_fails fs proto_root).

Lemma grows_refl st : grows st st.
Proof.
  split; [done | | done].
  exists []. rewrite app_nil_r. split; [done | intros q Hq; inversion Hq].
Qed.

Lemma scanned_mono st st' lines :
  seen st ⊆ seen st' → (∃ l, imports st' = (imports st ++ l)%list) →
  scanned st lines → scanned st' lines.
Proof.
  intros Hs [l Hl] H line ip Hin Hip Hex.
  destruct (H line ip Hin Hip Hex) as [Hi Hsn]. split.
  - rewrite Hl. apply elem_of_app. by left.
  - by apply Hs.
Qed.

Lemma closed_mono st st' q :
  seen st ⊆ seen st' → (∃ l, imports st' = (imports st ++ l)%list) →
  closed_file st q → closed_file st' q.
Proof. intros Hs Hl H lines Hq. eapply scanned_mono; eauto. Qed.

Lemma grows_trans st1 st2 st3 : grows st1 st2 → grows st2 st3 → grows st1 st3.
Proof.
  intros [Hs1 (l1 & Hl1 & Hm1) Hc1] [Hs2 (l2 & Hl2 & Hm2) Hc2]. split.
  - set_solver.
  - exists (l1 ++ l2)%list. split.
    + by rewrite Hl2, Hl1, app_assoc.
    + intros q [Hq|Hq]%elem_of_app.
      * destruct (Hm1 q Hq). split; [done | by apply Hs2].
      * by apply Hm2.
  - intros q Hq3 Hn1. destruct (decide (q ∈ seen st2)) as [Hq2'|Hq2'].
    + eapply closed_mono; [exact Hs2 | by eexists | by apply Hc1].
    + by apply Hc2.
Qed.

Lemma unseen_mono st st' : seen st ⊆ seen st' → (unseen st' ≤ unseen st)%nat.
Proof. intros H. unfold unseen. apply subseteq_size. set_solver. Qed.

Lemma unseen_visit p st X :
  is_Some (fs !! p) → p ∉ seen st →
  (unseen (RState ({[p]} ∪ seen st) X) < unseen st)%nat.
Proof.
  intros Hp Hn. unfold unseen; simpl. apply subset_size.
  apply elem_of_dom in Hp. set_solver.
Qed.

(** The lines the loop handles, by what the first line is. *)
Lemma lines_read_skip line rest :
  stat_fails line = false → lines_read (line :: rest) = line :: lines_read rest.
Proof. intros H. simpl. by rewrite H. Qed.

Lemma lines_read_stop line rest :
  stat_fails line = true → lines_read (line :: rest) = [].
Proof. intros H. simpl. by rewrite H. Qed.

Lemma scan_lines_spec rec fuel' :
  (∀ p st, stat fs p = Found → (unseen st < fuel')%nat →
           ∃ st', rec p st = Some st' ∧ grows st st' ∧ new_exist st st' ∧
                  p ∈ seen st') →
  ∀ lines st, (unseen st < fuel')%nat →
    ∃ st', scan_lines fs proto_root rec lines st = Some st' ∧
           grows st st' ∧ new_exist st st' ∧ scanned st' lines.
Proof.
  intros IH. induction lines as [|line rest IHl]; intros st Hfuel; simpl.
  - exists st. split; [done|]. split; [apply grows_refl|].
    split; [by intros q ? ?|]. intros ? ? Hin. inversion Hin.
  - destruct (import_of_line line) as [ip|] eqn:Hip.
    2:{ destruct (IHl st Hfuel) as (st' & Hr & Hg & Hn & Hsc).
        exists st'. split; [done|]. split; [done|]. split; [done|].
        intros l ip'. rewrite lines_read_skip
          by (unfold Resolver.stat_fails; by rewrite Hip).
        intros [->|Hin]%elem_of_cons Hip' Hex; [congruence|].
        by apply (Hsc l ip'). }
    destruct (stat fs (target ip)) eqn:Hex.
    + set (st0 := RState (seen st) (imports st ++ [target ip])%list).
      destruct (IH (target ip) st0) as (st1 & Hr1 & Hg1 & Hn1 & Hp1); [done | done |].
      rewrite Hr1.
      assert (seen st ⊆ seen st1) as Hss by apply Hg1.
      destruct (IHl st1) as (st2 & Hr2 & Hg2 & Hn2 & Hsc2).
      { eapply Nat.le_lt_trans; [apply unseen_mono, Hss | done]. }
      exists st2. split; [done|].
      assert (grows st st1) as Hg01.
      { destruct Hg1 as [Hs1 (l1 & Hl1 & Hq1) Hc1]. split; [done | | done].
        exists (target ip :: l1). simpl in Hl1. split.
        - by rewrite Hl1, <- app_assoc.
        - intros q [->|Hq]%elem_of_cons; [|by apply Hq1]. by split. }
      split; [by eapply grows_trans|]. split.
      * intros q Hq2 Hq. destruct (decide (q ∈ seen st1)); [by apply Hn1 | by apply Hn2].
      * intros l ip'. rewrite lines_read_skip
          by (unfold Resolver.stat_fails; by rewrite Hip, Hex).
        intros [->|Hin]%elem_of_cons Hip' Hex'; [|by apply (Hsc2 l ip')].
        assert (ip' = ip) as -> by congruence.
        destruct Hg2 as [Hs2 (l2 & Hl2 & _) _]. split.
        -- destruct Hg1 as [_ (l1' & Hl1' & _) _]. rewrite Hl2, Hl1'. simpl.
           apply elem_of_app. left. apply elem_of_app. left.
           apply elem_of_app. right. by apply list_elem_of_singleton.
        -- by apply Hs2.
    + destruct (IHl st Hfuel) as (st' & Hr & Hg & Hn & Hsc).
      exists st'. split; [done|]. split; [done|]. split; [done|].
      intros l ip'. rewrite lines_read_skip
        by (unfold Resolver.stat_fails; by rewrite Hip, Hex).
      intros [->|Hin]%elem_of_cons Hip' Hex'.
      * assert (ip' = ip) as -> by congruence. congruence.
      * by apply (Hsc l ip').
    + exists st. split; [done|]. split; [apply grows_refl|].
      split; [by intros q ? ?|].
      intros l ip'. rewrite lines_read_stop
        by (unfold Resolver.stat_fails; by rewrite Hip, Hex).
      by intros ?%elem_of_nil.
Qed.

(** The result of a call on a file that cannot be read. *)
Lemma visit_unreadable p st :
  (∀ lines, fs !! p ≠ Some (TextFile lines)) →
  let st1 := RState ({[p]} ∪ seen st) (imports st) in
  grows st st1 ∧
  (∀ q, q ∈ seen st1 → q ∉ seen st → q = p ∨ stat fs q = Found) ∧
  p ∈ seen st1.
Proof.
  intros Hno st1. split; [split|split].
  - subst st1; simpl. set_solver.
  - exists []. rewrite app_nil_r. split; [done | intros q Hq; inversion Hq].
  - intros q Hq Hnq lines Hl. subst st1; simpl in *.
    assert (q = p) as -> by set_solver. by destruct (Hno lines).
  - intros q Hq Hnq. left. subst st1; simpl in *. set_solver.
  - subst st1; simpl. set_solver.
Qed.

(** A call of [parse_imports] with enough stack returns; it marks
    [pfile] visited, and every file it newly visits other than [pfile]
    exists and has had its imports followed. *)
Lemma parse_imports_spec fuel :
  ∀ p st, (unseen st < fuel)%nat →
    ∃ st', parse_imports fs proto_root fuel p st = Some st' ∧
           grows st st' ∧
           (∀ q, q ∈ seen st' → q ∉ seen st → q = p ∨ stat fs q = Found) ∧
           p ∈ seen st'.
Proof.
  induction fuel as [|fuel IH]; intros p st Hfuel; [lia|]. simpl.
  destruct (decide (p ∈ seen st)) as [Hin|Hnin].
  { exists st. split; [done|]. split; [apply grows_refl|]. split; [|done].
    by intros q ? ?. }
  set (st1 := RState ({[p]} ∪ seen st) (imports st)).
  destruct (fs !! p) as [[lines| |]|] eqn:Hp.
  - assert (unseen st1 < fuel)%nat as Hf1.
    { pose proof (unseen_visit p st (imports st)) as Hv.
      rewrite Hp in Hv. specialize (Hv (mk_is_Some _ _ eq_refl) Hnin).
      fold st1 in Hv. lia. }
    destruct (scan_lines_spec (parse_imports fs proto_root fuel) fuel) with
      (lines := lines) (st := st1) as (st' & Hr & Hg & Hn & Hsc); [|done|].
    { intros p' st0 Hex Hf. destruct (IH p' st0 Hf) as (st2 & ? & ? & Hnew & ?).
      exists st2. split; [done|]. split; [done|]. split; [|done].
      intros q Hq Hnq. destruct (Hnew q Hq Hnq) as [->|]; done. }
    exists st'. split; [done|].
    destruct Hg as [Hs (l & Hl & Hq) Hc]. split; [split|split].
    + subst st1; simpl in *. set_solver.
    + exists l. done.
    + intros q Hq' Hnq. destruct (decide (q = p)) as [->|Hne].
      * intros lines' Hlines'. rewrite Hp in Hlines'.
        by injection Hlines' as <-.
      * apply Hc; [done|]. subst st1; simpl. set_solver.
    + intros q Hq' Hnq. destruct (decide (q = p)) as [->|Hne]; [by left|].
      right. apply Hn; [done|]. subst st1; simpl. set_solver.
    + apply Hs. subst st1; simpl. set_solver.
  - exists st1. split; [done|]. apply visit_unreadable.
    intros lines. by rewrite Hp.
  - exists st1. split; [done|]. apply visit_unreadable.
    intros lines. by rewrite Hp.
  - exists st1. split; [done|]. apply visit_unreadable.
    intros lines. by rewrite Hp.
Qed.

(** More stack than needed does not change the result. *)
Lemma scan_lines_mono (rec1 rec2 : Path → rstate → option rstate) :
  (∀ p st st', rec1 p st = Some st' → rec2 p st = Some st') →
  ∀ lines st st', scan_lines fs proto_root rec1 lines st = Some st' →
                  scan_lines fs proto_root rec2 lines st = Some st'.
Proof.
  intros Hrec. induction lines as [|line rest IHl]; intros st st'; simpl; [done|].
  destruct (import_of_line line); [|by apply IHl].
  destruct (stat fs (target s)); [|by apply IHl|done].
  destruct (rec1 _ _) as [st1|] eqn:H1; [|done].
  rewrite (Hrec _ _ _ H1). by apply IHl.
Qed.

Lemma parse_imports_mono fuel :
  ∀ fuel' p st st', (fuel ≤ fuel')%nat →
    parse_imports fs proto_root fuel p st = Some st' →
    parse_imports fs proto_root fuel' p st = Some st'.
Proof.
  induction fuel as [|fuel IH]; intros fuel' p st st' Hle; [done|].
  destruct fuel' as [|fuel']; [lia|]. simpl.
  destruct (decide (p ∈ seen st)); [done|].
  destruct (fs !! p) as [[lines| |]|]; [|done..].
  apply scan_lines_mono. intros p0 st0 st0'. apply IH. lia.
Qed.

End Invariants.
(** ** [dict.fromkeys] *)

Lemma dict_fromkeys_elem done l q :
  q ∈ dict_fromkeys done l ↔ q ∈ l ∧ q ∉ done.
Proof.
  revert done. induction l as [|p r IH]; intros done; simpl.
  - split; [intros H; inversion H | intros [H _]; inversion H].
  - case_bool_decide as Hp.
    + rewrite IH. split.
      * intros [? ?]. split; [by right | done].
      * intros [[->|?]%elem_of_cons ?]; done.
    + rewrite elem_of_cons, IH. split.
      * intros [->|[? Hq]]; [split; [by left | done]|].
        split; [by right|]. intros ?. apply Hq. by right.
      * intros [[->|?]%elem_of_cons Hq]; [by left|].
        destruct (decide (q = p)) as [->|Hne]; [by left|]. right.
        split; [done|]. by intros [?|?]%elem_of_cons.
Qed.

Lemma dict_fromkeys_NoDup done l : NoDup (dict_fromkeys done l).
Proof.
  revert done. induction l as [|p r IH]; intros done; simpl; [constructor|].
  case_bool_decide; [apply IH|]. constructor; [|apply IH].
  rewrite dict_fromkeys_elem. intros [_ Hn]. apply Hn. by left.
Qed.

(** ** The whole resolution *)

Lemma find_state_spec fs proto_file proto_root :
  ∃ st, (∀ fuel, (size fs < fuel)%nat →
           parse_imports fs proto_root fuel proto_file (RState ∅ []) = Some st) ∧
        find_state fs proto_file proto_root = Some st ∧
        proto_file ∈ seen st ∧
        (∀ q, q ∈ imports st → stat fs q = Found ∧ q ∈ seen st) ∧
        (∀ q, q ∈ seen st → q = proto_file ∨ stat fs q = Found) ∧
        (∀ q, q ∈ seen st → closed_file fs proto_root st q).
Proof.
  assert (unseen fs (RState ∅ []) < enough_fuel fs)%nat as Hfuel.
  { unfold unseen, enough_fuel; simpl.
    replace (dom fs ∖ ∅) with (dom fs) by set_solver.
    rewrite size_dom. lia. }
  destruct (parse_imports_spec fs proto_root _ proto_file _ Hfuel)
    as (st & Hr & [Hs (l & Hl & Hq) Hc] & Hnew & Hp).
  exists st. split; [|split; [done|split; [done|split; [|split]]]].
  - intros fuel Hf. eapply parse_imports_mono; [|exact Hr].
    unfold enough_fuel. lia.
  - intros q Hin. simpl in Hl. rewrite Hl in Hin. by apply Hq.
  - intros q Hin. apply Hnew; [done | set_solver].
  - intros q Hin. apply Hc; [done | set_solver].
Qed.

Lemma absent_occurs_never (x : Path) (l : list Path) :
  x ∉ l → List.filter (λ f, bool_decide (f = x)) l = [].
Proof.
  induction l as [|y l IH]; intros Hx; [done|]. simpl.
  case_bool_decide as Hy.
  - subst y. exfalso. apply Hx. by left.
  - apply IH. intros ?. apply Hx. by right.
Qed.

Lemma occurs_once (x : Path) (l : list Path) :
  NoDup l → x ∈ l → length (List.filter (λ f, bool_decide (f = x)) l) = 1%nat.
Proof.
  induction l as [|y l IH]; intros Hnd Hx; [by inversion Hx|].
  apply NoDup_cons in Hnd as [Hy Hnd]. simpl. case_bool_decide as Hxe.
  - subst y. simpl. by rewrite absent_occurs_never.
  - apply IH; [done|]. apply elem_of_cons in Hx as [Heq|?]; [congruence | done].
Qed.

Lemma find_proto_imports_eq fs proto_file proto_root st :
  find_state fs proto_file proto_root = Some st →
  _find_proto_imports fs proto_file proto_root = imports st.
Proof. unfold _find_proto_imports. by intros ->. Qed.


(** C9 (amended): an import for whose file [exists()] answers [False] is
    skipped without an error: the line leaves the resolver's state as it
    was, so the file is neither added to the list nor scanned, and the loop
    goes on with the next line; the resolution as a whole returns, every
    file in its list exists, and every path it has scanned is the root
    schema or a file that exists. *)
Theorem missing_import_is_skipped
    (fs : file_system) (proto_file proto_root : Path) :
  (∀ rec line import_path rest st,
      import_of_line line = Some import_path →
      stat fs (PyPath.truediv proto_root import_path) = NotFound →
      scan_lines fs proto_root rec (line :: rest) st
      = scan_lines fs proto_root rec rest st) ∧
  (∃ st, find_state fs proto_file proto_root = Some st ∧
         _find_proto_imports fs proto_file proto_root = imports st ∧
         (∀ q, q ∈ imports st → stat fs q = Found) ∧
         (∀ q, q ∈ seen st → q = proto_file ∨ stat fs q = Found) ∧
         (∀ q, q ∈ proto_files_to_compile fs proto_file (Some proto_root) →
               q = proto_file ∨ stat fs q = Found)).
Proof.
  split.
  - intros rec line ip rest st Hip Hno. simpl. by rewrite Hip, Hno.
  - destruct (find_state_spec fs proto_file proto_root)
      as (st & _ & Hfind & _ & Himp & Hseen & _).
    exists st. split; [done|]. split; [by apply find_proto_imports_eq|].
    split; [intros q Hq; by apply Himp|]. split; [done|].
    intros q Hq. unfold proto_files_to_compile in Hq.
    rewrite (find_proto_imports_eq _ _ _ _ Hfind) in Hq.
    apply dict_fromkeys_elem in Hq as [[->|Hq]%elem_of_cons _]; [by left|].
    right. by apply Himp.
Qed.

End ResolverFacts.

(* ===================================================================== *)
(** * Properties of the Generic Message Encoder *)
(* ===================================================================== *)

Module EncoderFacts.
Import Py Proto Encoder.

Section Facts.
Variable pool : DescriptorPool.
Variable oh : okind → string → bool.

Abbreviation populate := (populate_message pool oh).

Lemma populate_dict m entries :
  populate m (JDict entries) = populate_items pool oh populate entries m.
Proof. reflexivity. Qed.

(** On a message, [_populate_message] is [populate_message]. *)
Lemma populate_message_object m data :
  _populate_message pool oh (OMessage m) data
  = (OMessage (populate m data).1, (populate m data).2).
Proof. unfold _populate_message. by destruct (populate m data). Qed.

Lemma fields_by_name_name d n f : fields_by_name d n = Some f → name f = n.
Proof.
  unfold fields_by_name. intros H. apply List.find_some in H as [_ H].
  by apply String.eqb_eq in H.
Qed.

(** One item of the JSON object, by the field its key stands for. *)
Lemma populate_cons_dropped m key value rest :
  field_for_key m key = None →
  populate m (JDict ((key, value) :: rest)) = populate m (JDict rest).
Proof.
  unfold field_for_key. rewrite !populate_dict. simpl.
  destruct (resolve_key (hasattr m) key) as [actual_key|]; [|done].
  intros Hf. unfold populate_field. by rewrite Hf.
Qed.

Lemma populate_cons_field m key value rest f :
  field_for_key m key = Some f →
  populate m (JDict ((key, value) :: rest))
  = let '(m', oc) := populate_field pool oh populate m (name f) value in
    match oc with
    | Returned => populate m' (JDict rest)
    | _ => (m', oc)
    end.
Proof.
  unfold field_for_key. rewrite populate_dict. simpl.
  destruct (resolve_key (hasattr m) key) as [actual_key|]; [|done].
  intros Hf. by rewrite (fields_by_name_name _ _ _ Hf).
Qed.

(** The [try] block leaves a scalar JSON value to the dispatch. *)
Lemma inspect_field_atom m field a :
  inspect_field pool oh populate m field (JAtom a) = (m, Fallthrough).
Proof.
  unfold inspect_field. simpl. rewrite andb_false_r.
  destruct (message_type pool field) as [entry|]; [|done].
  by destruct (map_entry entry).
Qed.

Lemma populate_field_atom m field a :
  fields_by_name (DESCRIPTOR m) (name field) = Some field →
  populate_field pool oh populate m (name field) (JAtom a)
  = assign_scalar pool m field a.
Proof.
  intros Hf. unfold populate_field. rewrite Hf.
  by rewrite inspect_field_atom.
Qed.

Lemma field_for_key_Some m key f :
  field_for_key m key = Some f →
  fields_by_name (DESCRIPTOR m) (name f) = Some f.
Proof.
  unfold field_for_key.
  destruct (resolve_key (hasattr m) key) as [actual_key|]; [|done].
  intros Hf. by rewrite (fields_by_name_name _ _ _ Hf).
Qed.

Lemma populate_cons_atom m key a rest f :
  field_for_key m key = Some f →
  populate m (JDict ((key, JAtom a) :: rest))
  = let '(m', oc) := assign_scalar pool m f a in
    match oc with
    | Returned => populate m' (JDict rest)
    | _ => (m', oc)
    end.
Proof.
  intros Hf. rewrite (populate_cons_field _ _ _ _ _ Hf).
  by rewrite (populate_field_atom _ _ _ (field_for_key_Some _ _ _ Hf)).
Qed.

(** ** Integer fields *)

Lemma integer_field_kind field lo hi :
  repeated field = false → int_range (type field) = Some (lo, hi) →
  kind_of pool field = FkScalar (type field) ∧
  (∀ a, check_value (type field) a = check_int lo hi a) ∧
  (∀ n, 0 ≤ n ≤ 42 → lo ≤ n ≤ hi).
Proof.
  unfold kind_of. intros -> Hr.
  destruct (type field); simpl in Hr; try discriminate;
    injection Hr as <- <-; (split; [done | split; [done | lia]]).
Qed.

Lemma setattr_integer m field lo hi a :
  repeated field = false → int_range (type field) = Some (lo, hi) →
  setattr pool m field a
  = match check_int lo hi a with
    | Accept v => SetOk (set_store m (name field) (VScalar v))
    | Reject e => SetRaise e
    | Unsettled => SetUnsettled
    end.
Proof.
  intros Hs Hr. destruct (integer_field_kind field lo hi Hs Hr) as (Hk & Hc & _).
  unfold setattr. by rewrite Hk, Hc.
Qed.

(** C3: a scalar integer field given the JSON string ["42"] is set to
    the integer 42 by the coercion fallback, the direct assignment having
    raised [TypeError]; given ["abc"] it is left as it was and nothing is
    raised; in both cases population goes on with the remaining items.
    The same holds of every string of the digits 0-9 that [int] converts
    to a number the field can hold, and of every string for which
    [isdigit] is false. *)
Theorem digit_string_is_coerced_for_integer_field
    m key field lo hi rest :
  field_for_key m key = Some field →
  repeated field = false →
  int_range (type field) = Some (lo, hi) →
  setattr pool m field (AStr "42") = SetRaise TypeError ∧
  populate m (JDict [(key, JAtom (AStr "42"))])
    = (set_store m (name field) (VScalar (AInt 42)), Returned) ∧
  populate m (JDict [(key, JAtom (AStr "abc"))]) = (m, Returned) ∧
  populate m (JDict ((key, JAtom (AStr "42")) :: rest))
    = populate (set_store m (name field) (VScalar (AInt 42))) (JDict rest) ∧
  populate m (JDict ((key, JAtom (AStr "abc")) :: rest)) = populate m (JDict rest) ∧
  (∀ s n, PyStr.isdigit s = Some true → PyStr.int_of_str s = Some n → lo ≤ n ≤ hi →
          populate m (JDict ((key, JAtom (AStr s)) :: rest))
          = populate (set_store m (name field) (VScalar (AInt n))) (JDict rest)) ∧
  (∀ s, PyStr.isdigit s = Some false →
        populate m (JDict ((key, JAtom (AStr s)) :: rest)) = populate m (JDict rest)).
Proof.
  intros Hf Hs Hr.
  destruct (integer_field_kind field lo hi Hs Hr) as (_ & _ & Hsmall).
  assert (lo ≤ 42 ≤ hi) as H42 by (apply Hsmall; lia).
  assert (∀ s n, PyStr.isdigit s = Some true → PyStr.int_of_str s = Some n →
                 lo ≤ n ≤ hi →
                 populate m (JDict ((key, JAtom (AStr s)) :: rest))
                 = populate (set_store m (name field) (VScalar (AInt n))) (JDict rest))
    as Hdigits.
  { intros s n Hd Hn [Hlo Hhi]. rewrite (populate_cons_atom _ _ _ _ _ Hf).
    unfold assign_scalar. rewrite !(setattr_integer _ _ lo hi) by done.
    cbn [check_int]. rewrite Hd, Hn. cbv beta iota zeta.
    rewrite (setattr_integer _ _ lo hi) by done. cbn [check_int].
    apply Z.leb_le in Hlo, Hhi. by rewrite Hlo, Hhi. }
  assert (∀ s, PyStr.isdigit s = Some false →
               populate m (JDict ((key, JAtom (AStr s)) :: rest))
               = populate m (JDict rest)) as Hother.
  { intros s Hd. rewrite (populate_cons_atom _ _ _ _ _ Hf).
    unfold assign_scalar. rewrite !(setattr_integer _ _ lo hi) by done.
    cbn [check_int]. by rewrite Hd. }
  split; [by rewrite (setattr_integer _ _ lo hi)|].
  split; [|split; [|split; [|split; [|split]]]].
  - rewrite (populate_cons_atom _ _ _ _ _ Hf).
    unfold assign_scalar. rewrite !(setattr_integer _ _ lo hi) by done.
    cbn [check_int].
    change (PyStr.isdigit "42") with (Some true).
    change (PyStr.int_of_str "42") with (Some 42). cbv beta iota zeta.
    rewrite (setattr_integer _ _ lo hi) by done. cbn [check_int].
    destruct H42 as [Hlo Hhi]. apply Z.leb_le in Hlo, Hhi.
    by rewrite Hlo, Hhi.
  - rewrite (populate_cons_atom _ _ _ _ _ Hf).
    unfold assign_scalar. by rewrite !(setattr_integer _ _ lo hi) by done.
  - by apply (Hdigits "42" 42).
  - by apply (Hother "abc").
  - exact Hdigits.
  - exact Hother.
Qed.


(** ** Key resolution *)

Lemma hasattr_field m key f :
  fields_by_name (DESCRIPTOR m) key = Some f → hasattr m key = true.
Proof. unfold hasattr. by intros ->. Qed.

Lemma hasattr_no_field m key :
  fields_by_name (DESCRIPTOR m) key = None →
  hasattr m key = bool_decide (key ∈ class_attrs (DESCRIPTOR m)).
Proof. unfold hasattr. by intros ->. Qed.

(** C2 (amended): a key that names a field stands for that field (the
    exact match comes first); a key that names no field and no other
    attribute of the message, and ends with an underscore, stands for the
    field named by the key without its last character, when there is one;
    in every other case the item is dropped and population goes on with
    the remaining items.  An item whose key stands for a field is
    processed as that field; a singular string field given a string is
    set to it. *)
Theorem key_resolution m key value rest :
  (∀ f, fields_by_name (DESCRIPTOR m) key = Some f →
        field_for_key m key = Some f) ∧
  (∀ f, fields_by_name (DESCRIPTOR m) key = None →
        key ∉ class_attrs (DESCRIPTOR m) →
        PyStr.endswith_underscore key = true →
        fields_by_name (DESCRIPTOR m) (PyStr.drop_last key) = Some f →
        field_for_key m key = Some f) ∧
  (fields_by_name (DESCRIPTOR m) key = None →
   key ∈ class_attrs (DESCRIPTOR m) ∨
   PyStr.endswith_underscore key = false ∨
   fields_by_name (DESCRIPTOR m) (PyStr.drop_last key) = None →
   field_for_key m key = None) ∧
  (field_for_key m key = None →
   populate m (JDict ((key, value) :: rest)) = populate m (JDict rest)) ∧
  (∀ f, field_for_key m key = Some f →
        populate m (JDict ((key, value) :: rest))
        = let '(m', oc) := populate_field pool oh populate m (name f) value in
          match oc with
          | Returned => populate m' (JDict rest)
          | _ => (m', oc)
          end) ∧
  (∀ f s, field_for_key m key = Some f →
          repeated f = false → type f = TString →
          populate m (JDict ((key, JAtom (AStr s)) :: rest))
          = populate (set_store m (name f) (VScalar (AStr s))) (JDict rest)).
Proof.
  split; [|split; [|split; [|split; [|split]]]].
  - intros f Hf. unfold field_for_key, resolve_key.
    by rewrite (hasattr_field _ _ _ Hf).
  - intros f Hno Hattr Hus Hf. unfold field_for_key, resolve_key.
    rewrite (hasattr_no_field _ _ Hno), bool_decide_eq_false_2 by done.
    by rewrite Hus, (hasattr_field _ _ _ Hf).
  - intros Hno Hcase. unfold field_for_key, resolve_key.
    rewrite (hasattr_no_field _ _ Hno).
    case_bool_decide as Hattr; [done|].
    destruct Hcase as [Hc | [Hc | Hc]]; [done | by rewrite Hc |].
    destruct (PyStr.endswith_underscore key); [|done].
    destruct (hasattr m (PyStr.drop_last key)); done.
  - apply populate_cons_dropped.
  - intros f. apply populate_cons_field.
  - intros f s Hf Hs Ht. rewrite (populate_cons_atom _ _ _ _ _ Hf).
    unfold assign_scalar, setattr, kind_of. by rewrite Ht, Hs.
Qed.

(** ** Association lists *)

Lemma alist_set_set {A} k (v v' : A) l :
  alist_set k v (alist_set k v' l) = alist_set k v l.
Proof.
  induction l as [|[k0 v0] l IH]; simpl.
  - by rewrite String.eqb_refl.
  - destruct (String.eqb k0 k) eqn:Hk; simpl.
    + by rewrite String.eqb_refl.
    + by rewrite Hk, IH.
Qed.

Lemma alist_get_set {A} k (v : A) l : alist_get k (alist_set k v l) = Some v.
Proof.
  induction l as [|[k0 v0] l IH]; simpl.
  - by rewrite String.eqb_refl.
  - destruct (String.eqb k0 k) eqn:Hk; simpl.
    + by rewrite String.eqb_refl.
    + by rewrite Hk, IH.
Qed.

Lemma alist_set_Forall {A} (P : string * A → Prop) k v l :
  Forall P l → P (k, v) → Forall P (alist_set k v l).
Proof.
  intros Hl Hk. induction Hl as [|[k0 v0] l H0 Hl IH]; simpl.
  - by constructor.
  - destruct (String.eqb k0 k); by constructor.
Qed.

Lemma alist_get_Forall {A} (P : string * A → Prop) k v l :
  Forall P l → alist_get k l = Some v → P (k, v).
Proof.
  intros Hl. induction Hl as [|[k0 v0] l H0 Hl IH]; simpl; [done|].
  destruct (String.eqb k0 k) eqn:Hk; [|done].
  apply String.eqb_eq in Hk as ->. by intros [= <-].
Qed.

(** ** Maps whose values are [Struct] messages *)

Lemma map_to_struct_kind field kt sd :
  map_to_struct pool field kt sd →
  is_struct_typed pool field = false ∧
  kind_of pool field = FkMap kt (MvMessage sd) ∧
  ∃ entry vf, message_type pool field = Some entry ∧ map_entry entry = true ∧
              fields_by_name entry "value" = Some vf ∧
              is_struct_typed pool vf = true.
Proof.
  intros (Hrep & entry & kf & vf & Hmt & Hme & Hfn & Hkf & Hkt & Hvf & Hvt & Hsn).
  split; [|split].
  - unfold is_struct_typed. rewrite Hmt. by apply String.eqb_neq.
  - unfold message_type in Hmt, Hvt. unfold kind_of, map_kind.
    destruct (type field); try discriminate. rewrite Hmt, Hrep, Hme, Hkf, Hvf.
    destruct (type vf); try discriminate. by rewrite Hvt, Hkt.
  - exists entry, vf. split; [done|]. split; [done|]. split; [done|].
    unfold is_struct_typed. rewrite Hvt. by apply String.eqb_eq.
Qed.

Lemma entry_at_struct sd k cur :
  struct_entries sd cur → ∃ st, entry_at sd k cur = VMessage (Msg sd st).
Proof.
  intros Hcur. unfold entry_at. destruct (alist_get k cur) as [v|] eqn:Hk.
  - apply (alist_get_Forall _ _ _ _ Hcur Hk).
  - by exists [].
Qed.

Lemma map_getitem_struct sd k cur :
  map_getitem TString (MvMessage sd) cur k
  = (match alist_get k cur with
     | Some _ => cur
     | None => alist_set k (VMessage (new_message sd)) cur
     end, Some (entry_at sd k cur), Continue).
Proof.
  unfold map_getitem, entry_at. simpl. by destruct (alist_get k cur).
Qed.

Lemma parsed_entries_struct sd items cur :
  struct_entries sd cur → struct_entries sd (parsed_entries sd items cur).
Proof.
  revert cur. induction items as [|[k v] r IH]; intros cur Hcur; [done|].
  destruct v; simpl; try by apply IH.
  apply IH. apply alist_set_Forall; [done|]. by eexists.
Qed.

Section StructMap.
Variables (entry : Descriptor) (vf : FieldDescriptor) (sd : Descriptor).
Hypothesis Hvf : fields_by_name entry "value" = Some vf.
Hypothesis Hst : is_struct_typed pool vf = true.

Abbreviation loop := (map_loop pool oh populate entry TString (MvMessage sd)).

(** An entry whose value is an object is parsed into its [Struct]. *)
Lemma map_loop_object k es rest cur :
  struct_entries sd cur → parses (JDict es) = true →
  loop ((k, JDict es) :: rest) cur
  = loop rest (alist_set k (VMessage (convert_struct (new_message sd) es)) cur).
Proof.
  intros Hcur Hes. cbn [map_loop]. rewrite Hvf, Hst, map_getitem_struct.
  destruct (entry_at_struct sd k cur Hcur) as [st Hat]. rewrite Hat.
  unfold ParseDict. unfold parses in Hes. cbn [is_dict andb] in Hes. rewrite Hes.
  cbn [tried_of]. unfold convert_struct, new_message; cbn [DESCRIPTOR].
  destruct (alist_get k cur); [done | by rewrite alist_set_set].
Qed.

Lemma parses_object v : parses v = true → ∃ es, v = JDict es.
Proof. destruct v; try discriminate. by eexists. Qed.

Lemma map_loop_objects items cur :
  struct_entries sd cur →
  Forall (λ kv, parses kv.2 = true) items →
  loop items cur = (parsed_entries sd items cur, Continue).
Proof.
  intros Hcur Hitems. revert cur Hcur.
  induction Hitems as [|[k v] r Hv Hr IH]; intros cur Hcur; [done|].
  destruct (parses_object _ Hv) as [es Hes]. simpl in Hes. subst v.
  rewrite map_loop_object by done. simpl.
  apply IH. apply alist_set_Forall; [done|]. by eexists.
Qed.

(** An entry whose value is no object: the entry has been created,
    the parse raises, and the loop is left. *)
Lemma map_loop_not_object k v rest cur :
  struct_entries sd cur → is_dict v = false →
  loop ((k, v) :: rest) cur = (alist_set k (entry_at sd k cur) cur, Fallthrough).
Proof.
  intros Hcur Hv. simpl. rewrite Hvf, Hst, map_getitem_struct.
  destruct (entry_at_struct sd k cur Hcur) as [st Hat]. rewrite Hat.
  assert (ParseDict v (Msg sd st) = (Msg sd st, Raised ParseError)) as ->.
  { by destruct v. }
  simpl. unfold entry_at in Hat.
  destruct (alist_get k cur); [done|].
  injection Hat as <-. by rewrite alist_set_set.
Qed.

Lemma map_loop_app pre post cur :
  struct_entries sd cur →
  Forall (λ kv, parses kv.2 = true) pre →
  loop (pre ++ post) cur = loop post (parsed_entries sd pre cur).
Proof.
  intros Hcur Hpre. revert cur Hcur.
  induction Hpre as [|[k v] r Hv Hr IH]; intros cur Hcur; [done|].
  destruct (parses_object _ Hv) as [es Hes]. simpl in Hes. subst v.
  rewrite <- app_comm_cons.
  rewrite map_loop_object by done. simpl.
  apply IH. apply alist_set_Forall; [done|]. by eexists.
Qed.

End StructMap.

Lemma put_entries_set m n k v cur :
  put_entries m n (alist_set k v cur) = set_store m n (VMap (alist_set k v cur)).
Proof.
  unfold put_entries. destruct cur as [|[k0 v0] cur]; simpl; [done|].
  by destruct (String.eqb k0 k).
Qed.

Lemma probe_other_no_attribute k items :
  (∀ kv, kv ∈ items → resolve_key (oh k) kv.1 = None) →
  probe_other oh k items = Returned.
Proof.
  induction items as [|[key v] r IH]; intros Hno; [done|]. simpl.
  assert (resolve_key (oh k) key = None) as -> by (apply (Hno (key, v)); by left).
  apply IH. intros kv Hkv. apply Hno. by right.
Qed.

Lemma probe_other_not_raised k items e : probe_other oh k items ≠ Raised e.
Proof.
  induction items as [|[key v] r IH]; simpl; [done|].
  by destruct (resolve_key (oh k) key).
Qed.

(** C4 (amended): a map field with string keys whose values are
    [google.protobuf.Struct] messages, given a JSON object whose values
    are objects that [ParseDict] parses (their numbers are ones a [double]
    takes), gets one entry per item, each the [Struct] its object parses
    to; from [{"a": {"x": 1}, "b": {"y": "z"}}] an empty map gets exactly
    the entries [a] and [b], whose [Struct]s hold the number 1 under [x]
    and the string [z] under [y]: the objects are parsed by [ParseDict],
    not populated field by field. *)
Theorem struct_map_entries_are_parsed m field sd rest :
  field_for_key m "attrs" = Some field →
  map_to_struct pool field TString sd →
  (stored_entries m (name field) = [] →
   populate m (JDict (("attrs",
                       JDict [("a", JDict [("x", JAtom (AInt 1))]);
                              ("b", JDict [("y", JAtom (AStr "z"))])]) :: rest))
   = populate
       (set_store m (name field)
          (VMap [("a", VMessage (Msg sd [("fields", VMap
                         [("x", VMessage (Value_of "number_value"
                                            (VScalar (AFloat (float_of_int 1)))))])]));
                 ("b", VMessage (Msg sd [("fields", VMap
                         [("y", VMessage (Value_of "string_value"
                                            (VScalar (AStr "z"))))])]))]))
       (JDict rest)) ∧
  (∀ key items,
      field_for_key m key = Some field →
      struct_entries sd (stored_entries m (name field)) →
      Forall (λ kv, parses kv.2 = true) items →
      populate m (JDict ((key, JDict items) :: rest))
      = populate (put_entries m (name field)
                    (parsed_entries sd items (stored_entries m (name field))))
          (JDict rest)).
Proof.
  intros Hattrs Hmap.
  assert (∀ key items,
      field_for_key m key = Some field →
      struct_entries sd (stored_entries m (name field)) →
      Forall (λ kv, parses kv.2 = true) items →
      populate m (JDict ((key, JDict items) :: rest))
      = populate (put_entries m (name field)
                    (parsed_entries sd items (stored_entries m (name field))))
          (JDict rest)) as Hgen.
  { intros key items Hf Hcur Hitems.
    destruct (map_to_struct_kind field TString sd Hmap)
      as (Hns & Hk & entry & vf & Hmt & Hme & Hvf & Hst).
    rewrite (populate_cons_field _ _ _ _ _ Hf). unfold populate_field.
    rewrite (field_for_key_Some _ _ _ Hf).
    unfold inspect_field. rewrite Hns. simpl. rewrite Hmt, Hme, Hk.
    by rewrite (map_loop_objects entry vf sd Hvf Hst items _ Hcur Hitems). }
  split; [|exact Hgen].
  intros Hempty. rewrite (Hgen "attrs" _ Hattrs).
  - by rewrite Hempty.
  - rewrite Hempty. constructor.
  - by repeat constructor.
Qed.

(** C10 (amended): in a map field with string keys whose values are
    [google.protobuf.Struct] messages, an entry whose JSON value is not
    an object is handed to [ParseDict], which raises; the [except
    Exception] of the field inspection swallows the exception.  The
    entries before it, objects that [ParseDict] parses, stay parsed, the
    entry itself stays as [map_field[key]] left it, the entries after it
    are not looked at, and the item is then handled as a nested message:
    [_populate_message] is called on the map container with the JSON
    object.  The exception of the parse is never what the item ends with,
    and when no key of the object names an attribute of the container
    population goes on with the remaining items. *)
Theorem failed_struct_parse_is_absorbed m key field sd pre k v post rest :
  field_for_key m key = Some field →
  map_to_struct pool field TString sd →
  struct_entries sd (stored_entries m (name field)) →
  Forall (λ kv, parses kv.2 = true) pre →
  is_dict v = false →
  let items := (pre ++ (k, v) :: post)%list in
  let cur := parsed_entries sd pre (stored_entries m (name field)) in
  let m' := set_store m (name field) (VMap (alist_set k (entry_at sd k cur) cur)) in
  (∀ target, ParseDict v target = (target, Raised ParseError)) ∧
  inspect_field pool oh populate m field (JDict items) = (m', Fallthrough) ∧
  populate_field pool oh populate m (name field) (JDict items)
    = (m', (_populate_message pool oh (OOther KMessageMap) (JDict items)).2) ∧
  (populate_field pool oh populate m (name field) (JDict items)).2 ≠ Raised ParseError ∧
  ((∀ kv, kv ∈ items → resolve_key (oh KMessageMap) kv.1 = None) →
   populate m (JDict ((key, JDict items) :: rest)) = populate m' (JDict rest)).
Proof.
  intros Hf Hmap Hcur Hpre Hv items cur m'.
  destruct (map_to_struct_kind field TString sd Hmap)
    as (Hns & Hk & entry & vf & Hmt & Hme & Hvf & Hst).
  assert (inspect_field pool oh populate m field (JDict items) = (m', Fallthrough))
    as Hinspect.
  { unfold inspect_field. rewrite Hns. simpl. rewrite Hmt, Hme, Hk.
    subst items. rewrite (map_loop_app entry vf sd Hvf Hst) by done.
    rewrite (map_loop_not_object entry vf sd Hvf Hst); [|by apply parsed_entries_struct|done].
    by rewrite put_entries_set. }
  assert (populate_field pool oh populate m (name field) (JDict items)
          = (m', probe_other oh KMessageMap items)) as Hfield.
  { unfold populate_field. rewrite (field_for_key_Some _ _ _ Hf), Hinspect.
    unfold dispatch, getattr. by rewrite Hk. }
  split; [by intros target; destruct v|]. split; [done|]. split; [done|].
  split.
  - rewrite Hfield. apply probe_other_not_raised.
  - intros Hno. rewrite (populate_cons_field _ _ _ _ _ Hf), Hfield.
    by rewrite (probe_other_no_attribute _ _ Hno).
Qed.

(** ** Repeated fields *)

Lemma inspect_field_list m field items :
  inspect_field pool oh populate m field (JList items) = (m, Fallthrough).
Proof.
  unfold inspect_field. simpl. rewrite andb_false_r.
  destruct (message_type pool field) as [entry|]; [|done].
  by destruct (map_entry entry).
Qed.

Lemma populate_cons_list m key items rest f :
  field_for_key m key = Some f →
  populate m (JDict ((key, JList items) :: rest))
  = let '(m', oc) := dispatch pool oh populate m f (JList items) in
    match oc with
    | Returned => populate m' (JDict rest)
    | _ => (m', oc)
    end.
Proof.
  intros Hf. rewrite (populate_cons_field _ _ _ _ _ Hf). unfold populate_field.
  by rewrite (field_for_key_Some _ _ _ Hf), inspect_field_list.
Qed.

Lemma extend_composite_objects d items cur :
  Forall (λ item, is_dict item = true ∧
                  (populate (new_message d) item).2 = Returned) items →
  extend_composite populate d items cur
  = ((cur ++ List.map (λ item, VMessage (populate (new_message d) item).1) items)%list,
     Returned).
Proof.
  intros Hitems. revert cur.
  induction Hitems as [|item r [Hd Hret] Hr IH]; intros cur; simpl.
  - by rewrite app_nil_r.
  - destruct item; try discriminate.
    destruct (populate (new_message d) (JDict entries)) as [nested oc] eqn:Hp.
    simpl in Hret. subst oc. rewrite IH. simpl. by rewrite <- app_assoc.
Qed.

Lemma extend_scalar_atoms t atoms vs cur :
  Forall2 (λ a v, check_value t a = Accept v) atoms vs →
  extend_scalar t (List.map JAtom atoms) cur
  = ((cur ++ List.map VScalar vs)%list, Returned).
Proof.
  intros Hall. revert cur.
  induction Hall as [|a v atoms vs Hv Hr IH]; intros cur; simpl.
  - by rewrite app_nil_r.
  - rewrite Hv, IH. by rewrite <- app_assoc.
Qed.

Lemma put_items_app m n l x r :
  put_items m n (l ++ x :: r) = set_store m n (VRepeated (l ++ x :: r)).
Proof. unfold put_items. by destruct l. Qed.

Lemma populate_integer_id d idf lo hi n :
  fields_by_name d "id" = Some idf →
  repeated idf = false → int_range (type idf) = Some (lo, hi) →
  0 ≤ n ≤ 42 →
  populate (new_message d) (JDict [("id", JAtom (AInt n))])
  = (Msg d [("id", VScalar (AInt n))], Returned).
Proof.
  intros Hid Hs Hr Hn.
  assert (field_for_key (new_message d) "id" = Some idf) as Hf.
  { unfold field_for_key, resolve_key.
    by rewrite (hasattr_field (new_message d) "id" idf Hid). }
  destruct (integer_field_kind idf lo hi Hs Hr) as (_ & _ & Hsmall).
  destruct (Hsmall n Hn) as [Hlo Hhi]. apply Z.leb_le in Hlo, Hhi.
  rewrite (populate_cons_atom _ _ _ _ _ Hf). unfold assign_scalar.
  rewrite (setattr_integer _ _ lo hi) by done. simpl. rewrite Hlo, Hhi. simpl.
  by rewrite (fields_by_name_name _ _ _ Hid).
Qed.

(** C8 (amended): a JSON array given to a repeated message field (not a
    map) appends one new nested message per object, populated from that
    object, in the order of the array, provided the population of each
    returns; from [[{"id": 1}, {"id": 2}]], for an element type whose
    [id] is a singular integer field, exactly two entries are appended,
    the one with [id] 1 before the one with [id] 2.  A JSON array of
    scalars given to a repeated scalar field appends, in order, the
    value the type checker of the container accepts each as. *)
Theorem array_items_are_appended_in_order m key field rest :
  field_for_key m key = Some field →
  (∀ d idf lo hi,
      kind_of pool field = FkRepMessage d →
      fields_by_name d "id" = Some idf →
      repeated idf = false → int_range (type idf) = Some (lo, hi) →
      populate m (JDict ((key, JList [JDict [("id", JAtom (AInt 1))];
                                      JDict [("id", JAtom (AInt 2))]]) :: rest))
      = populate
          (set_store m (name field)
             (VRepeated (stored_items m (name field)
                           ++ [VMessage (Msg d [("id", VScalar (AInt 1))]);
                               VMessage (Msg d [("id", VScalar (AInt 2))])])%list))
          (JDict rest)) ∧
  (∀ d items,
      kind_of pool field = FkRepMessage d →
      Forall (λ item, is_dict item = true ∧
                      (populate (new_message d) item).2 = Returned) items →
      populate m (JDict ((key, JList items) :: rest))
      = populate
          (put_items m (name field)
             (stored_items m (name field)
                ++ List.map (λ item, VMessage (populate (new_message d) item).1) items)%list)
          (JDict rest)) ∧
  (∀ t atoms vs,
      kind_of pool field = FkRepScalar t →
      Forall2 (λ a v, check_value t a = Accept v) atoms vs →
      populate m (JDict ((key, JList (List.map JAtom atoms)) :: rest))
      = populate
          (put_items m (name field)
             (stored_items m (name field) ++ List.map VScalar vs)%list)
          (JDict rest)).
Proof.
  intros Hf.
  assert (∀ d items,
      kind_of pool field = FkRepMessage d →
      Forall (λ item, is_dict item = true ∧
                      (populate (new_message d) item).2 = Returned) items →
      populate m (JDict ((key, JList items) :: rest))
      = populate
          (put_items m (name field)
             (stored_items m (name field)
                ++ List.map (λ item, VMessage (populate (new_message d) item).1) items)%list)
          (JDict rest)) as Hobjects.
  { intros d items Hk Hitems. rewrite (populate_cons_list _ _ _ _ _ Hf).
    unfold dispatch. rewrite Hk.
    by rewrite (extend_composite_objects d items _ Hitems). }
  split; [|split; [exact Hobjects|]].
  - intros d idf lo hi Hk Hid Hs Hr.
    rewrite (Hobjects d _ Hk).
    + cbn [List.map].
      rewrite !(populate_integer_id d idf lo hi) by (done || lia). cbn [fst].
      by rewrite put_items_app.
    + repeat constructor;
        by rewrite (populate_integer_id d idf lo hi) by (done || lia).
  - intros t atoms vs Hk Hall. rewrite (populate_cons_list _ _ _ _ _ Hf).
    unfold dispatch. rewrite Hk.
    by rewrite (extend_scalar_atoms t atoms vs _ Hall).
Qed.

End Facts.
End EncoderFacts.

(* ===================================================================== *)
(** * Properties of the engine *)
(* ===================================================================== *)

Module EngineFacts.
Import Py Proto Engine.

Lemma insert_sorted_elem x y l : x ∈ insert_sorted y l ↔ x = y ∨ x ∈ l.
Proof.
  induction l as [|z l IH]; simpl.
  - rewrite list_elem_of_singleton. split; [by left | intros [?|?%elem_of_nil]; done].
  - destruct (String.leb y z).
    + by rewrite elem_of_cons.
    + rewrite !elem_of_cons, IH. tauto.
Qed.

Lemma sorted_elem x l : x ∈ sorted l ↔ x ∈ l.
Proof.
  induction l as [|y l IH]; simpl; [done|].
  by rewrite insert_sorted_elem, elem_of_cons, IH.
Qed.

(** The names the diagnostic lists: the module's public attributes. *)
Lemma available_names_elem m n :
  n ∈ available_names m ↔
  (∃ a, (n, a) ∈ mod_attrs m) ∧ PyStr.startswith "_" n = false.
Proof.
  unfold available_names, dir.
  rewrite list_elem_of_In, filter_In, <- list_elem_of_In, sorted_elem.
  rewrite negb_true_iff. change (List.map fst (mod_attrs m)) with (fst <$> mod_attrs m).
  rewrite list_elem_of_fmap. split.
  - intros [([n' a] & -> & Hin) Hn]. split; [by exists a | done].
  - intros [[a Hin] Hn]. split; [|done]. by exists (n, a).
Qed.

(** A module that is in [sys.modules] is what the import yields, whatever
    [protoc] has just generated. *)
Lemma cached_module_wins run ps name m :
  sys_modules ps !! name = Some m → import_module run ps name = (inl m, ps).
Proof. unfold import_module. by intros ->. Qed.

(** With the module in [sys.modules], the response does not depend on the
    schema files or on what [protoc] has generated from them. *)
Lemma cached_module_decides_response
    w w' ps json_data proto_file message_type proto_root module_name m :
  returncode (compile w proto_file proto_root) = 0 →
  returncode (compile w' proto_file proto_root) = 0 →
  temp_dir w = temp_dir w' → other_hasattr w = other_hasattr w' →
  proto_module_name proto_file proto_root = Some module_name →
  sys_modules ps !! module_name = Some m →
  _encode_to_protobuf w ps json_data proto_file message_type proto_root
  = _encode_to_protobuf w' ps json_data proto_file message_type proto_root.
Proof.
  intros Hrc Hrc' Htmp Hoh Hname Hm. unfold _encode_to_protobuf.
  rewrite Hrc, Hrc', Hname. simpl.
  rewrite !(cached_module_wins _ _ module_name m) by done.
  unfold with_temp_dir. by rewrite Htmp, Hoh.
Qed.

(** The module that the import of line 151 yields: the one in
    [sys.modules] under the name, when there is one, and otherwise the one
    [protoc] has generated for the root schema file. *)
Lemma import_yields run ps name m :
  sys_modules ps !! name = Some m ∨
  (sys_modules ps !! name = None ∧
   ∃ imported, generated run !! name = Some (ExecOk m imported)) →
  ∃ ps', import_module run ps name = (inl m, ps').
Proof.
  unfold import_module. intros [->|[-> [imported ->]]]; by eexists.
Qed.


End EngineFacts.

(* ===================================================================== *)
(** * The engine on the sample schema *)
(* ===================================================================== *)

Module Cases.
Import Py Proto Encoder Engine Fixtures.

Abbreviation populate := (populate_message pool container_hasattr).
Abbreviation text s := (JAtom (AStr s)).
Abbreviation num n := (JAtom (AInt n)).

(** ** C1 *)



(** ** C2 *)

(** [Packet] has the field [header] and no field [header_], but its class
    has the attribute [header_] (a value of its nested enum): [hasattr]
    answers for the key itself, the key without its underscore is never
    tried, and the item is dropped. *)
Lemma shadowed_key_is_dropped :
  fields_by_name Packet "header_" = None ∧
  PyStr.endswith_underscore "header_" = true ∧
  fields_by_name Packet (PyStr.drop_last "header_") = Some header_field ∧
  hasattr (new_message Packet) "header_" = true ∧
  field_for_key (new_message Packet) "header_" = None ∧
  populate (new_message Packet) (JDict [("header_", text "x")])
    = (new_message Packet, Returned) ∧
  result (encode (JDict [("header_", text "x")]) envelope_proto "Packet")
    = Bytes (new_message Packet).
Proof. repeat split; by vm_compute. Qed.

Lemma key_resolution_witness :
  populate (new_message Envelope) (JDict [("header_", text "x"); ("count", num 7)])
    = (Msg Envelope [("header", VScalar (AStr "x")); ("count", VScalar (AInt 7))],
       Returned) ∧
  populate (new_message Frame) (JDict [("header_", text "x"); ("header", text "y")])
    = (Msg Frame [("header_", VScalar (AStr "x")); ("header", VScalar (AStr "y"))],
       Returned) ∧
  populate (new_message Envelope) (JDict [("unknown_", text "x"); ("count", num 7)])
    = (Msg Envelope [("count", VScalar (AInt 7))], Returned).
Proof.
  destruct (EncoderFacts.key_resolution pool container_hasattr
              (new_message Envelope) "header_" (text "x") [("count", num 7)])
    as (_ & Hfallback & _ & _ & _ & Hstring).
  destruct (EncoderFacts.key_resolution pool container_hasattr
              (new_message Frame) "header_" (text "x") [("header", text "y")])
    as (Hexact & _ & _ & _ & _ & Hstring').
  destruct (EncoderFacts.key_resolution pool container_hasattr
              (new_message Envelope) "unknown_" (text "x") [("count", num 7)])
    as (_ & _ & Hnone & Hdropped & _).
  split; [|split].
  - rewrite (Hstring header_field "x"); [by vm_compute | | done | done].
    apply Hfallback; [done | | done | done].
    apply (bool_decide_unpack _). by vm_compute.
  - rewrite (Hstring' (scalar_field "header_" TString) "x"); [by vm_compute | | done | done].
    by apply Hexact.
  - rewrite Hdropped; [by vm_compute|]. apply Hnone; [done|]. right. by right.
Defined.

(** ** C3 *)

Lemma digit_string_witness :
  field_for_key (new_message Envelope) "count" = Some count_field ∧
  int_range (type count_field) = Some (- 2 ^ 31, 2 ^ 31 - 1) ∧
  populate (new_message Envelope) (JDict [("count", text "42")])
    = (Msg Envelope [("count", VScalar (AInt 42))], Returned) ∧
  populate (new_message Envelope) (JDict [("count", text "abc")])
    = (new_message Envelope, Returned) ∧
  result (encode (JDict [("count", text "abc")]) envelope_proto "Envelope")
    = Bytes (new_message Envelope).
Proof.
  assert (field_for_key (new_message Envelope) "count" = Some count_field) as Hf
    by reflexivity.
  assert (int_range (type count_field) = Some (- 2 ^ 31, 2 ^ 31 - 1)) as Hr
    by reflexivity.
  destruct (EncoderFacts.digit_string_is_coerced_for_integer_field
              pool container_hasattr (new_message Envelope) "count" count_field
              _ _ [] Hf eq_refl Hr) as (_ & H42 & Habc & _).
  split; [exact Hf|]. split; [exact Hr|]. split; [exact H42|]. split; [exact Habc|].
  by vm_compute.
Defined.

(** ** C4 *)

(** [Ledger.attrs] is a [map<int32, google.protobuf.Struct>]: its container
    refuses the key ["a"] with a [TypeError], which the field inspection
    swallows; the map stays empty. *)
Lemma integer_keyed_struct_map_gets_no_entry :
  map_to_struct pool (repeated_field "attrs" (TMessage "mock.Ledger.AttrsEntry"))
    TInt32 Struct_DESCRIPTOR ∧
  populate (new_message Ledger) (JDict [("attrs", the_attrs)])
    = (new_message Ledger, Returned) ∧
  result (encode (JDict [("attrs", the_attrs)]) envelope_proto "Ledger")
    = Bytes (new_message Ledger).
Proof.
  split; [|split; by vm_compute].
  split; [done|]. exists LedgerAttrsEntry, (scalar_field "key" TInt32),
    (scalar_field "value" (TMessage Struct_name)).
  repeat split; first [by vm_compute | intros H; discriminate H].
Qed.

Lemma envelope_attrs_map : map_to_struct pool attrs_field TString Struct_DESCRIPTOR.
Proof.
  split; [done|]. exists AttrsEntry, (scalar_field "key" TString),
    (scalar_field "value" (TMessage Struct_name)).
  repeat split; first [by vm_compute | intros H; discriminate H].
Defined.

Lemma struct_map_witness :
  field_for_key (new_message Envelope) "attrs" = Some attrs_field ∧
  map_to_struct pool attrs_field TString Struct_DESCRIPTOR ∧
  populate (new_message Envelope) (JDict [("attrs", the_attrs)])
    = (Msg Envelope
         [("attrs",
           VMap [("a", VMessage (Msg Struct_DESCRIPTOR [("fields", VMap
                          [("x", VMessage (Value_of "number_value"
                                             (VScalar (AFloat (float_of_int 1)))))])]));
                 ("b", VMessage (Msg Struct_DESCRIPTOR [("fields", VMap
                          [("y", VMessage (Value_of "string_value"
                                             (VScalar (AStr "z"))))])]))])],
       Returned) ∧
  populate (new_message Struct_DESCRIPTOR) (JDict [("x", num 1)])
    = (new_message Struct_DESCRIPTOR, Returned).
Proof.
  assert (field_for_key (new_message Envelope) "attrs" = Some attrs_field) as Hf
    by reflexivity.
  destruct (EncoderFacts.struct_map_entries_are_parsed pool container_hasattr
              (new_message Envelope) attrs_field Struct_DESCRIPTOR [] Hf envelope_attrs_map)
    as [Hclaim _].
  split; [exact Hf|]. split; [exact envelope_attrs_map|]. split.
  - unfold the_attrs. by rewrite Hclaim.
  - by vm_compute.
Defined.

(** ** C8 *)

(** [notes] is a repeated message field whose elements have a string [id]:
    the first object is appended, its population raises, no second entry is
    appended and the engine returns [None].  [tags] is a repeated string
    field: its container has no [add]. *)
Lemma array_into_other_fields_raises :
  kind_of pool (repeated_field "notes" (TMessage "mock.Note")) = FkRepMessage Note ∧
  populate (new_message Envelope) (JDict [("notes", two_objects)])
    = (Msg Envelope [("notes", VRepeated [VMessage (new_message Note)])],
       Raised TypeError) ∧
  result (encode (JDict [("notes", two_objects)]) envelope_proto "Envelope") = NoBytes ∧
  kind_of pool tags_field = FkRepScalar TString ∧
  populate (new_message Envelope) (JDict [("tags", two_objects)])
    = (new_message Envelope, Raised AttributeError) ∧
  result (encode (JDict [("tags", two_objects)]) envelope_proto "Envelope") = NoBytes.
Proof. repeat split; by vm_compute. Qed.

Lemma array_items_witness :
  field_for_key (new_message Envelope) "items" = Some items_field ∧
  kind_of pool items_field = FkRepMessage Item ∧
  populate (new_message Envelope) (JDict [("items", two_objects)])
    = (Msg Envelope
         [("items", VRepeated [VMessage (Msg Item [("id", VScalar (AInt 1))]);
                               VMessage (Msg Item [("id", VScalar (AInt 2))])])],
       Returned) ∧
  populate (new_message Envelope) (JDict [("tags", JList [text "a"; text "b"])])
    = (Msg Envelope [("tags", VRepeated [VScalar (AStr "a"); VScalar (AStr "b")])],
       Returned).
Proof.
  assert (field_for_key (new_message Envelope) "items" = Some items_field) as Hf
    by reflexivity.
  assert (field_for_key (new_message Envelope) "tags" = Some tags_field) as Hf'
    by reflexivity.
  assert (kind_of pool items_field = FkRepMessage Item) as Hk by (by vm_compute).
  destruct (EncoderFacts.array_items_are_appended_in_order pool container_hasattr
              (new_message Envelope) "items" items_field [] Hf) as (Hclaim & _ & _).
  destruct (EncoderFacts.array_items_are_appended_in_order pool container_hasattr
              (new_message Envelope) "tags" tags_field [] Hf') as (_ & _ & Hscalars).
  split; [exact Hf|]. split; [exact Hk|]. split.
  - unfold two_objects.
    by rewrite (Hclaim Item (scalar_field "id" TInt32) _ _ Hk eq_refl eq_refl eq_refl).
  - change [text "a"; text "b"] with (List.map JAtom [AStr "a"; AStr "b"]).
    rewrite (Hscalars TString [AStr "a"; AStr "b"] [AStr "a"; AStr "b"]);
      [done | by vm_compute | by repeat constructor].
Defined.

(** ** C10 *)

(** The entry [b] is not an object: [ParseDict] raises, yet population
    returns and the engine serializes the message.  The entry [a] is parsed,
    [b] is the empty [Struct] that [map_field["b"]] created, [c] is never
    looked at, and [count], the next item, is set. *)
Lemma failed_parse_does_not_fail_the_message :
  ParseDict (num 5) (new_message Struct_DESCRIPTOR)
    = (new_message Struct_DESCRIPTOR, Raised ParseError) ∧
  populate (new_message Envelope) (JDict [("attrs", broken_attrs); ("count", num 3)])
    = (Msg Envelope
         [("attrs",
           VMap [("a", VMessage (Msg Struct_DESCRIPTOR [("fields", VMap
                          [("x", VMessage (Value_of "number_value"
                                             (VScalar (AFloat (float_of_int 1)))))])]));
                 ("b", VMessage (new_message Struct_DESCRIPTOR))]);
          ("count", VScalar (AInt 3))],
       Returned) ∧
  output (encode (JDict [("attrs", broken_attrs); ("count", num 3)])
            envelope_proto "Envelope") = [] ∧
  result (encode (JDict [("attrs", JDict [("b", num 5)])]) envelope_proto "Envelope")
    = Bytes (Msg Envelope
               [("attrs", VMap [("b", VMessage (new_message Struct_DESCRIPTOR))])]).
Proof. repeat split; by vm_compute. Qed.

Lemma failed_parse_witness :
  field_for_key (new_message Envelope) "attrs" = Some attrs_field ∧
  is_dict (num 5) = false ∧
  populate (new_message Envelope) (JDict [("attrs", broken_attrs); ("count", num 3)])
    = populate
        (Msg Envelope
           [("attrs",
             VMap [("a", VMessage (Msg Struct_DESCRIPTOR [("fields", VMap
                            [("x", VMessage (Value_of "number_value"
                                               (VScalar (AFloat (float_of_int 1)))))])]));
                   ("b", VMessage (new_message Struct_DESCRIPTOR))])])
        (JDict [("count", num 3)]).
Proof.
  assert (field_for_key (new_message Envelope) "attrs" = Some attrs_field) as Hf
    by reflexivity.
  destruct (EncoderFacts.failed_struct_parse_is_absorbed pool container_hasattr
              (new_message Envelope) "attrs" attrs_field Struct_DESCRIPTOR
              [("a", JDict [("x", num 1)])] "b" (num 5) [("c", JDict [("y", text "z")])]
              [("count", num 3)] Hf envelope_attrs_map)
    as (_ & _ & _ & _ & Hgoes_on); [constructor | by repeat constructor | done |].
  split; [exact Hf|]. split; [done|].
  unfold broken_attrs. cbn [app] in Hgoes_on. rewrite Hgoes_on; [by vm_compute|].
  intros kv Hkv. repeat (apply elem_of_cons in Hkv as [->|Hkv]; [by vm_compute|]).
  by apply elem_of_nil in Hkv.
Defined.

(** ** C6 *)



(** ** C7 *)

(** C7 (what the code does): two requests for the same endpoint in one
    process, the schema file changed in between: the second request compiles the new file, but its
    [__import__] finds the module of the first request in [sys.modules]; the
    response is encoded with the first schema (the field [note] is dropped),
    where a new process encodes it with the second. *)
Theorem stale_module_is_reused :
  List.map result (serve fresh_process [ping_request ping_before; ping_request ping_after])
    = [Bytes (Msg Ping_v1 [("id", VScalar (AInt 1))]);
       Bytes (Msg Ping_v1 [("id", VScalar (AInt 1))])] ∧
  List.map result (serve fresh_process [ping_request ping_after])
    = [Bytes (Msg Ping_v2 [("id", VScalar (AInt 1)); ("note", VScalar (AStr "hi"))])] ∧
  generated (compile ping_after ping_proto None) !! "ping_pb2"
    = Some (ExecOk (ping_pb2 Ping_v2) []) ∧
  sys_modules (after (_encode_to_protobuf ping_before fresh_process ping_json
                        ping_proto "Ping" None)) !! "ping_pb2"
    = Some (ping_pb2 Ping_v1).
Proof. repeat split; by vm_compute. Qed.

(** ** C5 and C9 *)



Lemma missing_import_witness :
  Resolver.import_of_line (import_line "gone.proto") = Some "gone.proto" ∧
  stat graph_fs (PyPath.truediv include_root "gone.proto") = NotFound ∧
  (∀ rec rest st,
      Resolver.scan_lines graph_fs include_root rec (import_line "gone.proto" :: rest) st
      = Resolver.scan_lines graph_fs include_root rec rest st) ∧
  Resolver.proto_files_to_compile graph_fs a_proto (Some include_root)
    = [a_proto; b_proto; c_proto].
Proof.
  assert (Resolver.import_of_line (import_line "gone.proto") = Some "gone.proto") as Hl
    by (by vm_compute).
  assert (stat graph_fs (PyPath.truediv include_root "gone.proto") = NotFound) as Hno
    by (by vm_compute).
  destruct (ResolverFacts.missing_import_is_skipped graph_fs a_proto include_root)
    as [Hskip _].
  split; [exact Hl|]. split; [exact Hno|]. split; [|by vm_compute].
  intros rec rest st. by apply (Hskip rec _ "gone.proto").
Defined.

(** The first import of [main.proto] names a file that does not exist and
    whose name is too long for [stat]: [exists()] raises, the handler of
    line 291 ends the scan of [main.proto], and [b.proto], imported on the
    next line, is not handed to the compiler; it is when the first import
    names a file that is merely absent. *)
Lemma failing_stat_abandons_the_file :
  Resolver.import_of_line (import_line long_import) = Some long_import ∧
  String.length long_import = 262%nat ∧
  stat long_fs (PyPath.truediv include_root long_import) = StatFails ∧
  stat long_fs b_proto = Found ∧
  Resolver.lines_read long_fs include_root main_lines = [] ∧
  Resolver.proto_files_to_compile long_fs main_proto (Some include_root)
    = [main_proto] ∧
  stat short_fs (PyPath.truediv include_root long_import) = NotFound ∧
  Resolver.proto_files_to_compile short_fs main_proto (Some include_root)
    = [main_proto; b_proto].
Proof. repeat split; by vm_compute. Qed.

End Cases.

(* ===================================================================== *)
(** * More on the Schema Resolver *)
(* ===================================================================== *)

Module ResolverMore.
Import Resolver ResolverSpec.
#[local] Set Warnings "-clear-no-such-hyp".

Section Sound.
Variable fs : file_system.
Variable proto_root : Path.

(** A set of files closed under imports. *)
Variable R : Path → Prop.

Lemma scan_lines_sound (rec : Path → rstate → option rstate) :
  (∀ q st st', rec q st = Some st' → R q →
               (∀ x, x ∈ imports st → R x) → ∀ x, x ∈ imports st' → R x) →
  ∀ lines st st',
    (∀ line ip, line ∈ lines_read fs proto_root lines →
                import_of_line line = Some ip →
                stat fs (PyPath.truediv proto_root ip) = Found →
                R (PyPath.truediv proto_root ip)) →
    scan_lines fs proto_root rec lines st = Some st' →
    (∀ x, x ∈ imports st → R x) → ∀ x, x ∈ imports st' → R x.
Proof.
  intros Hrec. induction lines as [|line rest IH]; intros st st' Hlines Hscan Hst.
  - simpl in Hscan. by injection Hscan as <-.
  - simpl in Hscan. simpl in Hlines. unfold stat_fails in Hlines.
    destruct (import_of_line line) as [ip|] eqn:Hip.
    2:{ eapply IH; [|exact Hscan|done]. intros l ip' Hl. apply Hlines. by right. }
    destruct (stat fs (PyPath.truediv proto_root ip)) eqn:Hex.
    + destruct (rec _ _) as [st1|] eqn:Hr; [|done].
      assert (R (PyPath.truediv proto_root ip)) as HRq.
      { apply (Hlines line ip); [by left | done | done]. }
      eapply IH; [| exact Hscan |].
      * intros l ip' Hl. apply Hlines. by right.
      * eapply Hrec; [exact Hr | done |]. simpl.
        intros x [Hx|Hx]%elem_of_app; [by apply Hst|].
        apply list_elem_of_singleton in Hx. by subst x.
    + eapply IH; [|exact Hscan|done]. intros l ip' Hl. apply Hlines. by right.
    + by injection Hscan as <-.
Qed.

Hypothesis R_closed : ∀ p q, R p → imports_file fs proto_root p q → R q.

Lemma parse_imports_sound fuel :
  ∀ p st st', parse_imports fs proto_root fuel p st = Some st' → R p →
              (∀ x, x ∈ imports st → R x) → ∀ x, x ∈ imports st' → R x.
Proof.
  induction fuel as [|fuel IH]; intros p st st' Hparse HRp Hst; [done|].
  simpl in Hparse. destruct (decide (p ∈ seen st)).
  { by injection Hparse as <-. }
  destruct (fs !! p) as [[lines| |]|] eqn:Hp.
  - eapply (scan_lines_sound _ IH lines); [| exact Hparse | done].
    intros line ip Hline Hip Hex. apply (R_closed p); [done|].
    by exists lines, line, ip.
  - by injection Hparse as <-.
  - by injection Hparse as <-.
  - by injection Hparse as <-.
Qed.

End Sound.

Lemma reachable_closed fs proto_root start p q :
  reachable fs proto_root start p → imports_file fs proto_root p q →
  reachable fs proto_root start q.
Proof. intros Hp Hq. by eapply reach_import. Qed.


(** ** Reading an import statement *)

Lemma lstrip_space c r : PyStr.is_space c = true → PyStr.lstrip (String c r) = PyStr.lstrip r.
Proof. intros H. simpl. by rewrite H. Qed.

Lemma lstrip_blank indent s :
  all_space indent = true → PyStr.lstrip (indent ++ s) = PyStr.lstrip s.
Proof.
  induction indent as [|c r IH]; [done|]. cbn [all_space].
  intros [Hc Hr]%andb_prop.
  change (String c r ++ s) with (String c (r ++ s)).
  rewrite (lstrip_space _ _ Hc). by apply IH.
Qed.

Lemma append_assoc (a b c : string) : (a ++ b) ++ c = a ++ (b ++ c).
Proof.
  induction a as [|x a IH]; [done|].
  change (String x ((a ++ b) ++ c) = String x (a ++ (b ++ c))). by rewrite IH.
Qed.

Lemma lacks_app c a b : lacks c (a ++ b) = lacks c a && lacks c b.
Proof.
  induction a as [|x a IH]; [done|].
  change (String x a ++ b) with (String x (a ++ b)). cbn [lacks].
  by rewrite IH, andb_assoc.
Qed.

(** A blank character holds no double quote. *)
Lemma ascii_is_no_quote c :
  PyStr.is_ascii c = false → Ascii.eqb c PyStr.dquote = false.
Proof.
  intros H. destruct (Ascii.eqb c PyStr.dquote) eqn:Hc; [|done].
  apply Ascii.eqb_eq in Hc as ->. by vm_compute in H.
Qed.

Lemma space_is_no_quote c :
  PyStr.is_space c = true → Ascii.eqb c PyStr.dquote = false.
Proof.
  intros H. destruct (Ascii.eqb c PyStr.dquote) eqn:Hc; [|done].
  apply Ascii.eqb_eq in Hc as ->. by vm_compute in H.
Qed.

Lemma wide_blank2_bytes a b :
  PyStr.wide_blank2 a b = true → PyStr.is_ascii a = false ∧ PyStr.is_ascii b = false.
Proof.
  unfold PyStr.wide_blank2, PyStr.byte_is, PyStr.is_ascii.
  rewrite andb_true_iff, orb_true_iff, !Nat.eqb_eq, !Nat.ltb_ge. lia.
Qed.

Lemma wide_blank3_bytes a b c :
  PyStr.wide_blank3 a b c = true →
  PyStr.is_ascii a = false ∧ PyStr.is_ascii b = false ∧ PyStr.is_ascii c = false.
Proof.
  unfold PyStr.wide_blank3, PyStr.byte_is, PyStr.is_ascii.
  rewrite !orb_true_iff, !andb_true_iff, !orb_true_iff, !andb_true_iff,
    !Nat.eqb_eq, !Nat.leb_le, !Nat.ltb_ge. lia.
Qed.

Lemma all_blank_lacks n : ∀ s,
  (String.length s ≤ n)%nat → PyStr.all_blank s = true → lacks PyStr.dquote s = true.
Proof.
  induction n as [|n IH]; intros s Hlen Hb.
  { destruct s; [done | simpl in Hlen; lia]. }
  destruct s as [|a r1]; [done|]. simpl in Hlen.
  cbn [PyStr.all_blank] in Hb. cbn [lacks].
  destruct (PyStr.is_space a) eqn:Ha.
  { rewrite (space_is_no_quote a Ha). apply IH; [lia | done]. }
  destruct r1 as [|b r2]; [done|]. simpl in Hlen. cbn [lacks].
  destruct (PyStr.wide_blank2 a b) eqn:H2.
  { destruct (wide_blank2_bytes a b H2) as [Ha' Hb'].
    rewrite (ascii_is_no_quote a Ha'), (ascii_is_no_quote b Hb').
    apply IH; [lia | done]. }
  destruct r2 as [|c r3]; [done|]. simpl in Hlen. cbn [lacks].
  apply andb_prop in Hb as [H3 Hb].
  destruct (wide_blank3_bytes a b c H3) as (Ha' & Hb' & Hc').
  rewrite (ascii_is_no_quote a Ha'), (ascii_is_no_quote b Hb'),
    (ascii_is_no_quote c Hc').
  apply IH; [lia | done].
Qed.

Lemma quoted_is_not_blank s : lacks PyStr.dquote s = false → PyStr.all_blank s = false.
Proof.
  intros H. destruct (PyStr.all_blank s) eqn:Hb; [|done].
  by rewrite (all_blank_lacks (String.length s) s) in H.
Qed.

Lemma rstrip_quote a s :
  PyStr.rstrip (a ++ String PyStr.dquote s) = a ++ String PyStr.dquote (PyStr.rstrip s).
Proof.
  induction a as [|x a IH].
  - change ("" ++ String PyStr.dquote s) with (String PyStr.dquote s).
    cbn [PyStr.rstrip]. rewrite quoted_is_not_blank; [done|].
    cbn [lacks]. by rewrite Ascii.eqb_refl.
  - change (String x a ++ String PyStr.dquote s)
      with (String x (a ++ String PyStr.dquote s)).
    cbn [PyStr.rstrip]. rewrite quoted_is_not_blank.
    + by rewrite IH.
    + cbn [lacks]. rewrite lacks_app. cbn [lacks]. rewrite Ascii.eqb_refl.
      cbn [negb andb]. by rewrite !andb_false_r.
Qed.

Lemma split_at_separator sep a b :
  lacks sep a = true →
  PyStr.split sep (a ++ String sep b) = a :: PyStr.split sep b.
Proof.
  induction a as [|x a IH]; simpl.
  - intros _. by rewrite Ascii.eqb_refl.
  - intros [Hx Ha]%andb_prop. apply negb_true_iff in Hx. rewrite Hx.
    by rewrite (IH Ha).
Qed.

(** X2: an import statement is read back as the path between its first
    pair of double quotes, whatever blanks precede it, whatever stands
    between [import] and the path (as [public] or [weak] do) and whatever
    follows the closing quote. *)
Theorem import_statement_is_read_back (indent modifier path rest : string) :
  all_space indent = true →
  lacks PyStr.dquote modifier = true →
  lacks PyStr.dquote path = true →
  import_of_line (indent ++ import_statement modifier path rest) = Some path.
Proof.
  intros Hindent Hmod Hpath. unfold import_of_line, PyStr.strip, import_statement.
  rewrite (lstrip_blank _ _ Hindent).
  change (PyStr.lstrip ("import " ++ ?s)) with ("import " ++ s).
  replace ("import " ++ modifier ++ String PyStr.dquote (path ++ String PyStr.dquote rest))
    with (("import " ++ modifier ++ String PyStr.dquote path) ++ String PyStr.dquote rest).
  2:{ by rewrite !append_assoc. }
  rewrite rstrip_quote.
  replace (("import " ++ modifier ++ String PyStr.dquote path)
             ++ String PyStr.dquote (PyStr.rstrip rest))
    with (("import " ++ modifier)
            ++ String PyStr.dquote (path ++ String PyStr.dquote (PyStr.rstrip rest))).
  2:{ by rewrite !append_assoc. }
  assert (PyStr.startswith "import " (("import " ++ modifier)
            ++ String PyStr.dquote (path ++ String PyStr.dquote (PyStr.rstrip rest)))
          = true) as -> by done.
  rewrite split_at_separator by (by rewrite lacks_app, Hmod).
  by rewrite split_at_separator.
Qed.

End ResolverMore.

(* ===================================================================== *)
(** * More on the Encoding Engine: what a request leaves behind *)
(* ===================================================================== *)

Module EngineMore.
Import Py Proto Engine.

Lemma remove_first_head x l : remove_first x (x :: l) = l.
Proof. simpl. by rewrite String.eqb_refl. Qed.

Lemma import_module_sys_path run ps name r ps' :
  import_module run ps name = (r, ps') → sys_path ps' = sys_path ps.
Proof.
  unfold import_module. intros H.
  destruct (sys_modules ps !! name); [by injection H as _ <-|].
  destruct (generated run !! name) as [[m imported|e]|];
    injection H as _ <-; done.
Qed.

Lemma cache_imported_keeps imported : ∀ modules name (m : pymodule),
  modules !! name = Some m → cache_imported imported modules !! name = Some m.
Proof.
  induction imported as [|[n m'] r IH]; intros modules name m Hm; simpl; [done|].
  apply IH. destruct (modules !! n) eqn:Hn; [done|].
  rewrite lookup_insert_ne; [done|]. intros ->. congruence.
Qed.

Lemma import_module_keeps run ps name' r ps' name m :
  import_module run ps name' = (r, ps') →
  sys_modules ps !! name = Some m → sys_modules ps' !! name = Some m.
Proof.
  unfold import_module. intros H Hm.
  destruct (sys_modules ps !! name') eqn:Hn; [by injection H as _ <-|].
  destruct (generated run !! name') as [[pm imported|e]|];
    injection H as _ <-; [|done|done]. simpl.
  rewrite lookup_insert_ne by (intros ->; congruence).
  by apply cache_imported_keeps.
Qed.

(** What the process can be after a request: as before, or as the import
    left it, with or without the temporary directory removed. *)
Lemma after_cases w ps json_data proto_file message_type proto_root :
  after (_encode_to_protobuf w ps json_data proto_file message_type proto_root) = ps ∨
  ∃ name r ps2,
    import_module (compile w proto_file proto_root) (with_temp_dir w ps) name = (r, ps2) ∧
    (after (_encode_to_protobuf w ps json_data proto_file message_type proto_root) = ps2 ∨
     after (_encode_to_protobuf w ps json_data proto_file message_type proto_root)
       = {| sys_path := remove_first (temp_dir w) (sys_path ps2);
            sys_modules := sys_modules ps2 |}).
Proof.
  unfold _encode_to_protobuf.
  destruct (negb _); [by left|].
  destruct (proto_module_name _ _) as [name|]; [|by left]. right.
  destruct (import_module _ _ name) as [r ps2] eqn:Himp.
  exists name, r, ps2. split; [done|].
  destruct r as [pm|e]; [|destruct e; by left].
  destruct (alist_get _ _) as [[d| |]|]; [|by left..].
  destruct (Encoder._populate_message _ _ _ _) as [[m'|k] [|e|]];
    try destruct (IsInitialized m'); first [by left | by right].
Qed.

(** X3: when bytes are returned, the module search path is exactly what it
    was before the request: the temporary directory put in front of it has
    been taken out again. *)
Theorem success_restores_the_search_path
    w ps json_data proto_file message_type proto_root m :
  result (_encode_to_protobuf w ps json_data proto_file message_type proto_root)
    = Bytes m →
  sys_path (after (_encode_to_protobuf w ps json_data proto_file message_type proto_root))
    = sys_path ps.
Proof.
  unfold _encode_to_protobuf.
  destruct (negb _); [done|].
  destruct (proto_module_name _ _) as [name|]; [|done].
  destruct (import_module _ _ name) as [r ps2] eqn:Himp.
  apply import_module_sys_path in Himp.
  destruct r as [pm|e]; [|by destruct e].
  destruct (alist_get _ _) as [[d| |]|]; [|done..].
  destruct (Encoder._populate_message _ _ _ _) as [[m'|k] [|e|]]; try done.
  destruct (IsInitialized m'); [|done].
  intros _. simpl. rewrite Himp. simpl. apply remove_first_head.
Qed.

(** X4: when [protoc] has succeeded and the module name could be formed,
    every request that ends with [None] leaves the temporary directory,
    which no longer exists, at the front of the module search path. *)
Theorem failure_leaves_the_temporary_directory_on_the_search_path
    w ps json_data proto_file message_type proto_root :
  returncode (compile w proto_file proto_root) = 0 →
  is_Some (proto_module_name proto_file proto_root) →
  result (_encode_to_protobuf w ps json_data proto_file message_type proto_root)
    = NoBytes →
  sys_path (after (_encode_to_protobuf w ps json_data proto_file message_type proto_root))
    = temp_dir w :: sys_path ps.
Proof.
  intros Hrc [name Hname]. unfold _encode_to_protobuf. rewrite Hrc, Hname. simpl.
  destruct (import_module _ _ name) as [r ps2] eqn:Himp.
  apply import_module_sys_path in Himp. simpl in Himp.
  destruct r as [pm|e]; [|by destruct e].
  destruct (alist_get _ _) as [[d| |]|]; [|done..].
  destruct (Encoder.populate_message (mod_pool pm) (other_hasattr w)
              (new_message d) json_data) as [m' [|e|]]; try done.
  by destruct (IsInitialized m').
Qed.

Lemma encode_keeps_modules w ps json_data proto_file message_type proto_root name m :
  sys_modules ps !! name = Some m →
  sys_modules (after (_encode_to_protobuf w ps json_data proto_file message_type
                        proto_root)) !! name = Some m.
Proof.
  intros Hm.
  destruct (after_cases w ps json_data proto_file message_type proto_root)
    as [->|(n & r & ps2 & Himp & [->| ->])]; [done|..]; simpl;
    by eapply import_module_keeps.
Qed.

(** X5: a module that is in [sys.modules] stays there, unchanged, through
    every later request of the process, whatever the requests are and
    however they end. *)
Theorem loaded_modules_stay_loaded ps (reqs : list request) name m :
  sys_modules ps !! name = Some m →
  Forall (λ resp, sys_modules (after resp) !! name = Some m) (serve ps reqs).
Proof.
  revert ps. induction reqs as [|r rest IH]; intros ps Hm; simpl; [constructor|].
  pose proof (encode_keeps_modules (req_world r) ps (json_data r) (proto_file r)
                (message_type r) (proto_root r) name m Hm) as H.
  constructor; [done | by apply IH].
Qed.

Lemma relative_to_app (root rel : Path) :
  PyPath.relative_to (root ++ rel)%list root = Some rel.
Proof.
  induction root as [|r root IH]; simpl; [by destruct rel|].
  by rewrite String.eqb_refl, IH.
Qed.

(** X6: for a schema at [dirs/file] below the include root, the module
    imported is the dotted path [dirs.stem_pb2]: the directories verbatim
    and the stem of the file name followed by [_pb2]. *)
Theorem module_name_is_the_dotted_path_below_the_root
    (root dirs : Path) (file : string) :
  proto_module_name (root ++ dirs ++ [file])%list (Some root)
  = Some (PyStr.join "." (dirs ++ [String.append (PyStr.stem file) "_pb2"])%list).
Proof.
  unfold proto_module_name. rewrite relative_to_app.
  unfold PyPath.name. by rewrite removelast_last, last_last.
Qed.

(** X22: a JSON document that is no object (an array, a string, a
    number, [null]) populates nothing: the engine serializes the empty
    message of the requested type.  When the type has no required field
    the bytes of the empty message are returned and nothing is printed;
    when it has one, [SerializeToString] raises [EncodeError] and the
    engine prints the encoding error and returns [None]. *)
Theorem document_that_is_no_object_encodes_the_empty_message
    w ps json_data proto_file message_type proto_root module_name m ps' d :
  returncode (compile w proto_file proto_root) = 0 →
  proto_module_name proto_file proto_root = Some module_name →
  import_module (compile w proto_file proto_root) (with_temp_dir w ps) module_name
    = (inl m, ps') →
  alist_get message_type (mod_attrs m) = Some (AMessageClass d) →
  is_dict json_data = false →
  (IsInitialized (new_message d) = true →
   result (_encode_to_protobuf w ps json_data proto_file message_type proto_root)
     = Bytes (new_message d) ∧
   output (_encode_to_protobuf w ps json_data proto_file message_type proto_root) = []) ∧
  (IsInitialized (new_message d) = false →
   result (_encode_to_protobuf w ps json_data proto_file message_type proto_root)
     = NoBytes ∧
   output (_encode_to_protobuf w ps json_data proto_file message_type proto_root)
     = [EncodingError EncodeError]).
Proof.
  intros Hrc Hname Himp Hattr Hdata. unfold _encode_to_protobuf.
  rewrite Hrc, Hname. cbn [Z.eqb negb]. rewrite Himp, Hattr.
  assert (Encoder._populate_message (mod_pool m) (other_hasattr w)
            (OMessage (new_message d)) json_data
          = (OMessage (new_message d), Returned)) as ->
    by (by destruct json_data).
  split; intros ->; done.
Qed.

(** X23: once the module of a schema is in [sys.modules], what a request
    for that schema returns and prints, when [protoc] accepts the schema
    files as they are then, depends on the cached module alone: not on the
    schema files, nor on what [protoc] generates from them, nor on the
    temporary directory of the request.  (When [protoc] rejects them the
    request returns [None] before anything is imported.) *)
Theorem cached_module_answers_whatever_the_schema_is
    w w' ps json_data proto_file message_type proto_root module_name m :
  other_hasattr w = other_hasattr w' →
  proto_module_name proto_file proto_root = Some module_name →
  sys_modules ps !! module_name = Some m →
  (returncode (compile w proto_file proto_root) = 0 →
   returncode (compile w' proto_file proto_root) = 0 →
   result (_encode_to_protobuf w ps json_data proto_file message_type proto_root)
   = result (_encode_to_protobuf w' ps json_data proto_file message_type proto_root) ∧
   output (_encode_to_protobuf w ps json_data proto_file message_type proto_root)
   = output (_encode_to_protobuf w' ps json_data proto_file message_type proto_root)) ∧
  (returncode (compile w proto_file proto_root) ≠ 0 →
   _encode_to_protobuf w ps json_data proto_file message_type proto_root
   = {| result := NoBytes;
        output := [ProtocFailed (stderr (compile w proto_file proto_root))];
        after := ps |}).
Proof.
  intros Hoh Hname Hm. split.
  - intros Hrc Hrc'. unfold _encode_to_protobuf.
    rewrite Hrc, Hrc', Hname. cbn [Z.eqb negb].
    rewrite !(EngineFacts.cached_module_wins _ _ module_name m) by done.
    rewrite Hoh.
    destruct (alist_get message_type (mod_attrs m)) as [[d| |]|]; [|done..].
    destruct (Encoder._populate_message (mod_pool m) (other_hasattr w')
                (OMessage (new_message d)) json_data) as [[m'|k] [|e|]]; try done.
    by destruct (IsInitialized m').
  - intros Hrc. unfold _encode_to_protobuf.
    apply Z.eqb_neq in Hrc. by rewrite Hrc.
Qed.

End EngineMore.

(* ===================================================================== *)
(** * The request handler *)
(* ===================================================================== *)

Module HandlerFacts.
Import Py Proto Engine Config Handler.

Lemma split_without_separator sep s :
  ResolverSpec.lacks sep s = true → PyStr.split sep s = [s].
Proof.
  induction s as [|c r IH]; simpl; [done|].
  intros [Hc Hr]%andb_prop. apply negb_true_iff in Hc. rewrite Hc.
  by rewrite (IH Hr).
Qed.

Lemma endpoint_path_of_query p query :
  ResolverSpec.lacks question_mark p = true →
  endpoint_path_of (p ++ String question_mark query) = p.
Proof.
  intros Hp. unfold endpoint_path_of.
  by rewrite (ResolverMore.split_at_separator _ _ _ Hp).
Qed.

(** X7: the query string of the request path plays no part: a request for
    [p?query] is answered exactly as the request for [p], and leaves the
    process in the same state. *)
Theorem query_string_is_ignored s w ps (p query : string) :
  ResolverSpec.lacks question_mark p = true →
  _handle_request s w ps (p ++ String question_mark query)
  = _handle_request s w ps p.
Proof.
  intros Hp. unfold _handle_request.
  rewrite (endpoint_path_of_query _ _ Hp).
  unfold endpoint_path_of. by rewrite (split_without_separator _ _ Hp).
Qed.

Lemma reaches_engine_unique s path config json_data config' json_data' :
  reaches_engine s path config json_data →
  reaches_engine s path config' json_data' →
  config' = config ∧ json_data' = json_data.
Proof.
  intros [Hc Hj] [Hc' Hj']. rewrite Hc in Hc'. injection Hc' as <-.
  rewrite Hj in Hj'. by injection Hj' as <-.
Qed.

Local Ltac settle :=
  repeat match goal with
    | H : _ ∧ _ |- _ => destruct H
    | H : ∃ _, _ |- _ => destruct H
    | H : _ ∨ _ |- _ => destruct H
    | H : ?a = Some _, H' : ?a = Some _ |- _ => rewrite H in H'
    | H : ?a = Some _, H' : ?a = None |- _ => rewrite H in H'
    | H : ?a = None, H' : ?a = Some _ |- _ => rewrite H in H'
    | H : Some _ = Some _ |- _ => injection H as H; subst
    | H : JsonText _ = JsonText _ |- _ => injection H as H; subst
    | H : ?a = Bytes _, H' : ?a = _ |- _ => rewrite H in H'
    | H : ?a = NoBytes, H' : ?a = _ |- _ => rewrite H in H'
    | H : Bytes _ = Bytes _ |- _ => injection H as H; subst
    end;
  try done; try congruence; try lia; eauto 10;
  try (exfalso; match goal with H : ∀ _ _, ¬ _ |- _ => by eapply H end).

(** X8: the response of the handler, by its cause, in both directions.
    Every request is answered (but where the engine is outside the model).
    The status is 200 exactly when the engine was called and returned
    bytes, and then the response is those bytes with their length as
    [Content-Length] and the protobuf content type; 404 exactly when the
    path is no configured endpoint or the JSON file of the endpoint does
    not exist; 400 exactly when the file is no JSON; 500 exactly when the
    file cannot be read or the engine returned [None].  Every response but
    200 is a [text/plain] error, which for an unknown endpoint lists all
    configured paths.  The process is afterwards as the engine left it
    when the engine was called, and as it was otherwise. *)
Theorem response_of_the_handler s w ps path :
  match _handle_request s w ps path with
  | Responded r ps' =>
      (status r = 200 ↔
       ∃ config json_data proto_data,
         reaches_engine s path config json_data ∧
         result (encoded w ps config json_data) = Bytes proto_data) ∧
      (∀ config json_data proto_data,
         reaches_engine s path config json_data →
         result (encoded w ps config json_data) = Bytes proto_data →
         r = {| status := 200;
                headers := [ContentType "application/x-protobuf";
                            ContentLength proto_data; AllowOrigin "*"];
                body := ProtoData proto_data |}) ∧
      (status r = 404 ↔
       alist_get (endpoint_path_of path) (endpoints s) = None ∨
       ∃ config, alist_get (endpoint_path_of path) (endpoints s) = Some config ∧
                 json_files s !! ep_json_file config = None) ∧
      (status r = 400 ↔
       ∃ config, alist_get (endpoint_path_of path) (endpoints s) = Some config ∧
                 json_files s !! ep_json_file config = Some NotJson) ∧
      (status r = 500 ↔
       (∃ config, alist_get (endpoint_path_of path) (endpoints s) = Some config ∧
                  json_files s !! ep_json_file config = Some NotReadable) ∨
       (∃ config json_data,
          reaches_engine s path config json_data ∧
          result (encoded w ps config json_data) = NoBytes)) ∧
      (status r ≠ 200 →
       headers r = [ContentType "text/plain"] ∧ ∃ text, body r = ErrorBody text) ∧
      (alist_get (endpoint_path_of path) (endpoints s) = None →
       body r = ErrorBody (EndpointNotFound (endpoint_path_of path)
                             (List.map fst (endpoints s)))) ∧
      (∀ config json_data,
         reaches_engine s path config json_data →
         ps' = after (encoded w ps config json_data)) ∧
      ((∀ config json_data, ¬ reaches_engine s path config json_data) → ps' = ps)
  | NotModelled =>
      ∃ config json_data,
        reaches_engine s path config json_data ∧
        result (encoded w ps config json_data) = Unmodelled
  end.
Proof.
  unfold _handle_request, reaches_engine, encoded.
  destruct (alist_get (endpoint_path_of path) (endpoints s)) as [config|] eqn:Hep.
  2:{ cbn [status headers body _send_error]. repeat split; intros; settle. }
  destruct (json_files s !! ep_json_file config) as [[json_data| |]|] eqn:Hfile.
  - destruct (result (_encode_to_protobuf w ps json_data (ep_proto_file config)
                        (ep_message_type config) (ep_proto_root config)))
      as [proto_data| |] eqn:Hres.
    + cbn [status headers body]. repeat split; intros; settle.
    + cbn [status headers body _send_error]. repeat split; intros; settle.
    + by exists config, json_data.
  - cbn [status headers body _send_error]. repeat split; intros; settle.
  - cbn [status headers body _send_error]. repeat split; intros; settle.
  - cbn [status headers body _send_error]. repeat split; intros; settle.
Qed.

End HandlerFacts.

(* ===================================================================== *)
(** * The configuration loader *)
(* ===================================================================== *)

Module ConfigFacts.
Import Py Config.

Lemma table_get_set k v table : table_get k (table_set k v table) = Some v.
Proof.
  induction table as [|[k' v'] r IH]; simpl.
  - by rewrite decide_True.
  - destruct (decide (k' = k)) as [->|Hne]; simpl.
    + by rewrite decide_True.
    + by rewrite decide_False.
Qed.

Lemma table_get_set_ne k k' v table :
  k' ≠ k → table_get k (table_set k' v table) = table_get k table.
Proof.
  intros Hne. induction table as [|[k0 v0] r IH]; simpl.
  - by rewrite decide_False.
  - destruct (decide (k0 = k')) as [->|Hne']; simpl.
    + by rewrite !decide_False.
    + destruct (decide (k0 = k)); [done | exact IH].
Qed.

Lemma load_entries_app script_dir pre post : ∀ table,
  load_entries script_dir (pre ++ post) table
  = match load_entries script_dir pre table with
    | Some table' => load_entries script_dir post table'
    | None => None
    end.
Proof.
  induction pre as [|x pre IH]; intros table; simpl; [done|].
  destruct x as [a|l|e]; [done|done|].
  destruct (negb _); [apply IH|].
  destruct (resolve_json_file _ _); [|done].
  destruct (key_of _); [apply IH | done].
Qed.

(** Entries that do not carry a key leave the value under it alone. *)
Lemma load_entries_other_keys script_dir k entries : ∀ table table',
  load_entries script_dir entries table = Some table' →
  (∀ x, x ∈ entries → entry_key x ≠ Some k) →
  table_get k table' = table_get k table.
Proof.
  induction entries as [|x rest IH]; intros table table' Hload Hkeys; simpl in Hload.
  { by injection Hload as <-. }
  assert (∀ y, y ∈ rest → entry_key y ≠ Some k) as Hrest
    by (intros y Hy; apply Hkeys; by right).
  pose proof (Hkeys x ltac:(by left)) as Hx.
  destruct x as [a|l|e]; [done|done|]. simpl in Hx.
  destruct (truthy _); simpl in Hload; [|by apply IH].
  destruct (resolve_json_file _ _) as [jf|]; [|done].
  destruct (key_of _) as [k'|]; [|done].
  rewrite (IH _ _ Hload Hrest). apply table_get_set_ne. congruence.
Qed.

Lemma load_entries_keys script_dir k entries : ∀ table table',
  load_entries script_dir entries table = Some table' →
  is_Some (table_get k table') →
  is_Some (table_get k table) ∨ ∃ x, x ∈ entries ∧ entry_key x = Some k.
Proof.
  induction entries as [|x rest IH]; intros table table' Hload Hk; simpl in Hload.
  { injection Hload as <-. by left. }
  destruct x as [a|l|e]; [done|done|].
  destruct (truthy (get e "path" (JAtom ANone))) eqn:Hpath; simpl in Hload.
  2:{ destruct (IH _ _ Hload Hk) as [?|(x & Hx & Hkx)]; [by left|].
      right. exists x. split; [by right | done]. }
  destruct (resolve_json_file _ _) as [jf|]; [|done].
  destruct (key_of _) as [k'|] eqn:Hkey; [|done].
  destruct (IH _ _ Hload Hk) as [Hset|(x & Hx & Hkx)].
  - destruct (decide (k' = k)) as [->|Hne].
    + right. exists (JDict e). split; [by left|]. simpl. by rewrite Hpath.
    + left. by rewrite table_get_set_ne in Hset.
  - right. exists x. split; [by right | done].
Qed.

(** X9: the table of endpoints that the loader returns.  Under a path it
    holds the configuration of the last entry with that path: its
    [json_file] made absolute against the directory of the script, the other
    three settings as the entry gives them or their defaults.  It holds
    nothing under a path that no entry has. *)
Theorem table_holds_the_last_entry_of_each_path
    script_dir config entries table :
  endpoints_of config = Some entries →
  load_endpoints_config script_dir (Some (JsonText config)) = Some table →
  (∀ pre e post k,
     entries = (pre ++ JDict e :: post)%list →
     entry_key (JDict e) = Some k →
     (∀ x, x ∈ post → entry_key x ≠ Some k) →
     ∃ json_file,
       resolve_json_file script_dir (get e "json_file" (JAtom (AStr ""))) = Some json_file ∧
       table_get k table = Some (entry_config e json_file)) ∧
  (∀ k, is_Some (table_get k table) → ∃ x, x ∈ entries ∧ entry_key x = Some k).
Proof.
  intros Hentries. unfold load_endpoints_config. rewrite Hentries. intros Hload. split.
  - intros pre e post k -> Hk Hpost.
    rewrite load_entries_app in Hload.
    destruct (load_entries script_dir pre []) as [t1|]; [|done].
    simpl in Hload, Hk.
    destruct (truthy _); [|done]. simpl in Hload.
    destruct (resolve_json_file _ _) as [jf|]; [|done].
    rewrite Hk in Hload. exists jf. split; [done|].
    rewrite (load_entries_other_keys _ k _ _ _ Hload Hpost).
    apply table_get_set.
  - intros k Hk.
    by destruct (load_entries_keys _ k _ _ _ Hload Hk) as [[? [=]]|?].
Qed.

(** X10: entries without a path (none, or [null], an empty string, zero,
    [false], an empty list or object) are passed over before anything else
    of them is looked at: the loader returns what it returns without them. *)
Theorem entries_without_a_path_are_passed_over script_dir entries table :
  load_entries script_dir (List.filter has_path entries) table
  = load_entries script_dir entries table.
Proof.
  revert table. induction entries as [|x rest IH]; intros table; [done|].
  destruct x as [a|l|e]; simpl; [done|done|].
  destruct (truthy _) eqn:Hp; simpl; rewrite ?Hp; simpl; [|apply IH].
  destruct (resolve_json_file _ _); [|done].
  destruct (key_of _); [apply IH | done].
Qed.

(** X11: one entry that cannot be stored makes the whole load fail, also
    when every other entry is in order: an entry that is no object, or an
    entry with a path that is a list or an object, or with a [json_file]
    that is neither empty nor a string. *)
Theorem one_bad_entry_fails_the_load script_dir entries x table :
  x ∈ entries →
  match x with
  | JDict e =>
      truthy (get e "path" (JAtom ANone)) = true ∧
      (key_of (get e "path" (JAtom ANone)) = None ∨
       resolve_json_file script_dir (get e "json_file" (JAtom (AStr ""))) = None)
  | _ => True
  end →
  load_entries script_dir entries table = None.
Proof.
  intros Hin Hbad. apply list_elem_of_split in Hin as (pre & post & ->).
  rewrite load_entries_app.
  destruct (load_entries script_dir pre table) as [t1|]; [|done]. simpl.
  destruct x as [a|l|e]; [done|done|].
  destruct Hbad as [-> Hbad]. simpl.
  destruct (resolve_json_file _ _); [|done].
  by destruct Hbad as [->|?].
Qed.

End ConfigFacts.

(* ===================================================================== *)
(** * More on the Generic Message Encoder *)
(* ===================================================================== *)

Module EncoderMore.
Import Py Proto Encoder EncoderSpec.

Section More.
Variable pool : DescriptorPool.
Variable oh : okind → string → bool.

Abbreviation populate := (populate_message pool oh).

(** ** What a population writes *)

Lemma alist_get_set_ne {A} k k' (v : A) l :
  k ≠ k' → alist_get k (alist_set k' v l) = alist_get k l.
Proof.
  intros Hne. induction l as [|[k0 v0] l IH]; simpl.
  - by apply String.eqb_neq in Hne; rewrite String.eqb_sym, Hne.
  - destruct (String.eqb k0 k') eqn:Hk; simpl.
    + apply String.eqb_eq in Hk as ->.
      assert (String.eqb k' k = false) as Hf
        by (apply String.eqb_neq; congruence).
      by rewrite !Hf.
    + by rewrite IH.
Qed.

Lemma alist_get_clear ns n' st :
  n' ∉ ns → alist_get n' (clear_fields ns st) = alist_get n' st.
Proof.
  intros Hn. induction st as [|[k v] st IH]; [done|].
  unfold clear_fields in *. cbn [List.filter fst].
  case_bool_decide as Hk; cbn [negb alist_get].
  - assert (String.eqb k n' = false) as ->; [|done].
    apply String.eqb_neq. by intros ->.
  - by rewrite IH.
Qed.

Lemma clear_fields_nil st : clear_fields [] st = st.
Proof.
  induction st as [|[k v] st IH]; [done|].
  unfold clear_fields in *. cbn [List.filter fst].
  rewrite bool_decide_eq_false_2 by (by intros ?%elem_of_nil).
  cbn [negb]. by rewrite IH.
Qed.

Lemma siblings_repeated d n f :
  fields_by_name d n = Some f → repeated f = true → siblings d n = [].
Proof. intros Hf Hr. unfold siblings, oneof_of. by rewrite Hf, Hr. Qed.

Lemma writes_refl n m : writes_only n m m.
Proof. by split. Qed.

Lemma writes_trans n m1 m2 m3 :
  writes_only n m1 m2 → writes_only n m2 m3 → writes_only n m1 m3.
Proof.
  intros [Hd1 Hs1] [Hd2 Hs2]. split; [congruence|].
  intros n' Hn Hsib. rewrite Hs2, Hs1; [done..|by rewrite Hd1].
Qed.

Lemma writes_set_store n m v : writes_only n m (set_store m n v).
Proof.
  split; [done|]. intros n' Hn Hsib. cbn [set_store store].
  rewrite alist_get_set_ne by done. by apply alist_get_clear.
Qed.

Lemma writes_attach n m sub : writes_only n m (attach m n sub).
Proof.
  unfold attach. destruct sub as [d [|x st]];
    [apply writes_refl | apply writes_set_store].
Qed.

Lemma writes_put_items n m l : writes_only n m (put_items m n l).
Proof. destruct l; [apply writes_refl | apply writes_set_store]. Qed.

Lemma writes_put_entries n m l : writes_only n m (put_entries m n l).
Proof. destruct l; [apply writes_refl | apply writes_set_store]. Qed.

Create HintDb writes.
#[local] Hint Resolve writes_refl writes_set_store writes_attach writes_put_items
  writes_put_entries : writes.

Section AnyCallee.
Variable rec : message → json → message * outcome.

Lemma inspect_field_writes m field value :
  writes_only (name field) m (inspect_field pool oh rec m field value).1.
Proof.
  unfold inspect_field.
  destruct (is_struct_typed pool field && is_dict value).
  - destruct value as [a|items|entries]; destruct (kind_of pool field);
      try apply writes_refl.
    destruct (ParseDict (JDict entries) _) as [struct_field [|e|]];
      cbn [fst]; auto with writes.
  - destruct (message_type pool field) as [entry|]; [|apply writes_refl].
    destruct (map_entry entry); [|apply writes_refl].
    destruct value as [a|items|entries]; try apply writes_refl.
    destruct (kind_of pool field); try apply writes_refl.
    destruct (map_loop _ _ _ _ _ _ _ _) as [cur t]. simpl. auto with writes.
Qed.

Lemma assign_scalar_writes m field a :
  writes_only (name field) m (assign_scalar pool m field a).1.
Proof.
  assert (∀ a', writes_only (name field) m
                  (match setattr pool m field a' with
                   | SetOk m' => (m', Returned)
                   | SetRaise e => (m, Raised e)
                   | SetUnsettled => (m, OutOfModel)
                   end).1) as Hretry.
  { intros a'. unfold setattr. destruct (kind_of pool field); simpl;
      try apply writes_refl.
    destruct (check_value t a'); simpl; auto with writes. }
  unfold assign_scalar.
  destruct (setattr pool m field a) as [m'|e|] eqn:Hset.
  - specialize (Hretry a). by rewrite Hset in Hretry.
  - destruct e; try apply writes_refl.
    + destruct a; simpl; try apply writes_refl; try apply Hretry.
      destruct (PyStr.isdigit s) as [[|]|]; try apply writes_refl.
      destruct (PyStr.int_of_str s); [apply Hretry | apply writes_refl].
    + destruct a; simpl; try apply writes_refl; try apply Hretry.
      destruct (PyStr.isdigit s) as [[|]|]; try apply writes_refl.
      destruct (PyStr.int_of_str s); [apply Hretry | apply writes_refl].
  - apply writes_refl.
Qed.

Lemma dispatch_writes m field value :
  writes_only (name field) m (dispatch pool oh rec m field value).1.
Proof.
  unfold dispatch. destruct value as [a|items|entries].
  - apply assign_scalar_writes.
  - destruct (kind_of pool field); try apply writes_refl.
    + by destruct items.
    + destruct items; [apply writes_refl|]. by destruct (hasattr _ _).
    + destruct (extend_scalar _ _ _) as [cur oc]. simpl. auto with writes.
    + destruct (extend_composite _ _ _ _) as [cur oc]. simpl. auto with writes.
    + by destruct items.
  - destruct (getattr pool m field) as [[nested|k]|]; try apply writes_refl.
    destruct (rec nested (JDict entries)) as [nested' oc]. simpl. auto with writes.
Qed.

Lemma populate_field_writes m actual_key value :
  writes_only actual_key m (populate_field pool oh rec m actual_key value).1.
Proof.
  unfold populate_field.
  destruct (fields_by_name (DESCRIPTOR m) actual_key) as [field|] eqn:Hf;
    [|apply writes_refl].
  rewrite <- (EncoderFacts.fields_by_name_name _ _ _ Hf).
  pose proof (inspect_field_writes m field value) as H1.
  destruct (inspect_field pool oh rec m field value) as [m1 t]. simpl in H1.
  destruct t; simpl; [done | | done].
  eapply writes_trans; [exact H1 | apply dispatch_writes].
Qed.

Lemma field_for_key_descriptor m m' key :
  DESCRIPTOR m' = DESCRIPTOR m → field_for_key m' key = field_for_key m key.
Proof. intros H. unfold field_for_key, resolve_key, hasattr. by rewrite H. Qed.

Lemma populate_items_frame entries : ∀ m,
  DESCRIPTOR (populate_items pool oh rec entries m).1 = DESCRIPTOR m ∧
  ∀ n, (∀ kv f, kv ∈ entries → field_for_key m kv.1 = Some f →
                name f ≠ n ∧ n ∉ siblings (DESCRIPTOR m) (name f)) →
       alist_get n (store (populate_items pool oh rec entries m).1)
       = alist_get n (store m).
Proof.
  induction entries as [|[key value] rest IH]; intros m; [done|]. simpl.
  destruct (resolve_key (hasattr m) key) as [actual_key|] eqn:Hres.
  2:{ destruct (IH m) as [Hd Hs]. split; [done|]. intros n Hn.
      apply Hs. intros kv f Hkv. apply Hn. by right. }
  pose proof (populate_field_writes m actual_key value) as [Hd1 Hs1].
  assert (∀ n, (∀ kv f, kv ∈ (key, value) :: rest →
                        field_for_key m kv.1 = Some f →
                        name f ≠ n ∧ n ∉ siblings (DESCRIPTOR m) (name f)) →
               alist_get n (store (populate_field pool oh rec m actual_key value).1)
               = alist_get n (store m)) as Hhere.
  { intros n Hn. unfold populate_field in *.
    destruct (fields_by_name (DESCRIPTOR m) actual_key) as [field|] eqn:Hf; [|done].
    destruct (Hn (key, value) field) as [Hne Hsib]; [by left | |].
    { cbn [fst]. unfold field_for_key. by rewrite Hres. }
    rewrite (EncoderFacts.fields_by_name_name _ _ _ Hf) in Hne, Hsib.
    apply Hs1; [by intros -> | done]. }
  destruct (populate_field pool oh rec m actual_key value) as [m' oc].
  simpl in Hd1, Hhere.
  destruct oc; [|by split|by split].
  destruct (IH m') as [Hd Hs]. split; [congruence|].
  intros n Hn. rewrite Hs; [by apply Hhere|].
  intros kv f Hkv Hfk. rewrite Hd1. apply (Hn kv f); [by right|].
  by rewrite <- (field_for_key_descriptor m m').
Qed.

End AnyCallee.

(** X12: populating a message changes nothing but the fields that the
    keys of the JSON object stand for and the other members of their
    oneofs, which a write clears: it keeps the type of the message, and
    what the message holds under any other name is afterwards what it was
    before, however the population ends. *)
Theorem population_writes_only_the_fields_of_its_keys m entries :
  DESCRIPTOR (populate m (JDict entries)).1 = DESCRIPTOR m ∧
  ∀ n, (∀ kv f, kv ∈ entries → field_for_key m kv.1 = Some f →
                name f ≠ n ∧ n ∉ siblings (DESCRIPTOR m) (name f)) →
       alist_get n (store (populate m (JDict entries)).1) = alist_get n (store m).
Proof. rewrite EncoderFacts.populate_dict. apply populate_items_frame. Qed.

(** ** Scalars *)

Lemma check_value_string_rejected t s e :
  check_value t (AStr s) = Reject e → e = TypeError.
Proof.
  destruct t; simpl; congruence.
Qed.

(** X13: a JSON number (or boolean) that a field rejects ends the
    population of the message with the exception of the assignment: the
    retry of lines 264-265 assigns the same value again and raises again.
    So a number out of the range of an integer field, or a number with a
    fraction given to one, fails the whole message, where a string that
    is no number is passed over. *)
Theorem rejected_number_ends_the_population m key field a e rest :
  field_for_key m key = Some field →
  setattr pool m field a = SetRaise e →
  is_int_or_float a = true →
  populate m (JDict ((key, JAtom a) :: rest)) = (m, Raised e).
Proof.
  intros Hf Hset Hnum.
  rewrite (EncoderFacts.populate_cons_atom _ _ _ _ _ _ _ Hf). unfold assign_scalar.
  rewrite Hset. destruct e; try done; destruct a; try done; simpl; by rewrite Hset.
Qed.

(** X14: a string of the digits 0-9 that a singular scalar field
    rejects is converted by [int] and assigned again, and the item ends as
    that second assignment ends: the field holds what its type checker
    makes of the integer (the number for an integer field that can hold
    it, the float for a [float] or [double] field, whether it is non-zero
    for a [bool] field), or the exception of the second assignment ends
    the population, as [ValueError] does for an integer field that cannot
    hold the number.  A string of more digits than [int] converts ends
    the population with the [ValueError] of [int]. *)
Theorem digit_string_ends_as_the_integer_does m key field t s e rest :
  field_for_key m key = Some field →
  kind_of pool field = FkScalar t →
  check_value t (AStr s) = Reject e →
  PyStr.isdigit s = Some true →
  (∀ n, PyStr.int_of_str s = Some n →
        populate m (JDict ((key, JAtom (AStr s)) :: rest))
        = match check_value t (AInt n) with
          | Accept v => populate (set_store m (name field) (VScalar v)) (JDict rest)
          | Reject e' => (m, Raised e')
          | Unsettled => (m, OutOfModel)
          end ∧
        (∀ lo hi, int_range t = Some (lo, hi) → ¬ (lo ≤ n ≤ hi) →
                  populate m (JDict ((key, JAtom (AStr s)) :: rest))
                  = (m, Raised ValueError))) ∧
  (PyStr.int_of_str s = None →
   populate m (JDict ((key, JAtom (AStr s)) :: rest)) = (m, Raised ValueError)).
Proof.
  intros Hf Hk Hrej Hd.
  pose proof (check_value_string_rejected _ _ _ Hrej) as ->.
  split.
  - intros n Hn.
    assert (populate m (JDict ((key, JAtom (AStr s)) :: rest))
            = match check_value t (AInt n) with
              | Accept v => populate (set_store m (name field) (VScalar v)) (JDict rest)
              | Reject e' => (m, Raised e')
              | Unsettled => (m, OutOfModel)
              end) as Heq.
    { rewrite (EncoderFacts.populate_cons_atom _ _ _ _ _ _ _ Hf).
      unfold assign_scalar, setattr. rewrite Hk, Hrej, Hd, Hn.
      by destruct (check_value t (AInt n)). }
    split; [exact Heq|].
    intros lo hi Hr Hout. rewrite Heq.
    assert (check_value t (AInt n) = Reject ValueError) as ->; [|done].
    assert ((lo <=? n) && (n <=? hi) = false) as Hb.
    { apply andb_false_iff. rewrite !Z.leb_gt. lia. }
    destruct t; simpl in Hr; try discriminate; injection Hr as <- <-;
      simpl; by rewrite Hb.
  - intros Hn. rewrite (EncoderFacts.populate_cons_atom _ _ _ _ _ _ _ Hf).
    unfold assign_scalar, setattr. by rewrite Hk, Hrej, Hd, Hn.
Qed.

(** X15: a scalar JSON value given to a field that is not a singular
    scalar (a message, a repeated or a map field) ends the population
    with [AttributeError], whatever the value is: the exception is not one
    of those the assignment is guarded against. *)
Theorem scalar_for_a_composite_field_ends_the_population m key field a rest :
  field_for_key m key = Some field →
  (∀ t, kind_of pool field ≠ FkScalar t) →
  kind_of pool field ≠ FkBad →
  populate m (JDict ((key, JAtom a) :: rest)) = (m, Raised AttributeError).
Proof.
  intros Hf Hns Hnb.
  rewrite (EncoderFacts.populate_cons_atom _ _ _ _ _ _ _ Hf).
  unfold assign_scalar, setattr.
  destruct (kind_of pool field) as [t| | | | |] eqn:Hk; try done.
  by destruct (Hns t).
Qed.

(** ** Arrays *)

Lemma alist_set_same {A} k (v : A) l : alist_get k l = Some v → alist_set k v l = l.
Proof.
  induction l as [|[k0 v0] l IH]; simpl; [done|].
  destruct (String.eqb k0 k) eqn:Hk.
  - apply String.eqb_eq in Hk as ->. by intros [= ->].
  - intros H. by rewrite IH.
Qed.

Lemma set_store_same m n v :
  siblings (DESCRIPTOR m) n = [] → alist_get n (store m) = Some v →
  set_store m n v = m.
Proof.
  intros Hs H. unfold set_store.
  rewrite Hs, clear_fields_nil, (alist_set_same _ _ _ H). by destruct m.
Qed.

(** A repeated field, a map field included, is a member of no oneof. *)
Lemma kind_repeated field :
  match kind_of pool field with
  | FkRepScalar _ | FkRepMessage _ | FkMap _ _ => repeated field = true
  | _ => True
  end.
Proof.
  unfold kind_of.
  destruct (type field) as [| | | | | | | | | | | | | | | |n];
    try by destruct (repeated field).
  destruct (pool !! n) as [d'|]; [|done].
  destruct (repeated field); [|done].
  destruct (map_entry d'); [|done].
  unfold map_kind. destruct (fields_by_name d' "key"); [|done].
  destruct (fields_by_name d' "value") as [vf|]; [|done].
  destruct (type vf); try done. by destruct (pool !! _).
Qed.

Lemma put_items_stored m n :
  siblings (DESCRIPTOR m) n = [] → put_items m n (stored_items m n) = m.
Proof.
  intros Hs. unfold put_items, stored_items.
  destruct (alist_get n (store m)) as [[a|sub|l|l]|] eqn:Hn; try done.
  destruct l as [|x l]; [done|]. by apply set_store_same.
Qed.

Lemma put_entries_stored m n :
  siblings (DESCRIPTOR m) n = [] → put_entries m n (stored_entries m n) = m.
Proof.
  intros Hs. unfold put_entries, stored_entries.
  destruct (alist_get n (store m)) as [[a|sub|l|l]|] eqn:Hn; try done.
  destruct l as [|x l]; [done|]. by apply set_store_same.
Qed.

Lemma extend_composite_app d pre post cur :
  Forall (λ item, is_dict item = true ∧
                  (populate (new_message d) item).2 = Returned) pre →
  extend_composite populate d (pre ++ post) cur
  = extend_composite populate d post
      (cur ++ List.map (λ item, VMessage (populate (new_message d) item).1) pre)%list.
Proof.
  intros Hpre. revert cur.
  induction Hpre as [|item r [Hd Hret] Hr IH]; intros cur; simpl.
  - by rewrite app_nil_r.
  - destruct item; try discriminate.
    destruct (populate (new_message d) (JDict entries)) as [nested oc] eqn:Hp.
    simpl in Hret. subst oc. rewrite IH. simpl. by rewrite <- app_assoc.
Qed.

(** X16: an empty JSON array leaves the message as it is, whatever the
    field; an array that is not empty, given to a singular scalar field
    or to a map field, ends the population with [AttributeError]; and in
    an array given to a repeated message field the first item that is no
    object ends it with [TypeError], the objects before it having been
    appended. *)
Theorem arrays_on_the_fields_that_take_none m key field rest :
  field_for_key m key = Some field →
  (kind_of pool field ≠ FkBad →
   populate m (JDict ((key, JList []) :: rest)) = populate m (JDict rest)) ∧
  (∀ item items,
     (∃ t, kind_of pool field = FkScalar t) ∨
     (∃ kt mv, kind_of pool field = FkMap kt mv) →
     populate m (JDict ((key, JList (item :: items)) :: rest))
     = (m, Raised AttributeError)) ∧
  (∀ d pre item post,
     kind_of pool field = FkRepMessage d →
     Forall (λ item, is_dict item = true ∧
                     (populate (new_message d) item).2 = Returned) pre →
     is_dict item = false →
     populate m (JDict ((key, JList (pre ++ item :: post)) :: rest))
     = (put_items m (name field)
          (stored_items m (name field)
             ++ List.map (λ item, VMessage (populate (new_message d) item).1) pre)%list,
        Raised TypeError)).
Proof.
  intros Hf. split; [|split].
  - intros Hnb. rewrite (EncoderFacts.populate_cons_list _ _ _ _ _ _ _ Hf).
    unfold dispatch. pose proof (kind_repeated field) as Hrep.
    destruct (kind_of pool field) eqn:Hk; simpl; try done;
      by rewrite put_items_stored
        by exact (siblings_repeated _ _ _ (EncoderFacts.field_for_key_Some _ _ _ Hf) Hrep).
  - intros item items Hk. rewrite (EncoderFacts.populate_cons_list _ _ _ _ _ _ _ Hf).
    unfold dispatch. by destruct Hk as [[t ->]|(kt & mv & ->)].
  - intros d pre item post Hk Hpre Hitem.
    rewrite (EncoderFacts.populate_cons_list _ _ _ _ _ _ _ Hf).
    unfold dispatch. rewrite Hk, (extend_composite_app d pre _ _ Hpre).
    by destruct item.
Qed.

(** ** Nested messages *)

Lemma kind_message_type field d :
  kind_of pool field = FkMessage d → message_type pool field = Some d.
Proof.
  unfold kind_of, message_type.
  destruct (type field) as [| | | | | | | | | | | | | | | |n];
    try by destruct (repeated field).
  destruct (pool !! n) as [d'|]; [|done].
  destruct (repeated field); [|congruence].
  destruct (map_entry d'); [|done].
  unfold map_kind. destruct (fields_by_name d' "key"); [|done].
  destruct (fields_by_name d' "value") as [vf|]; [|done].
  destruct (type vf); try done. by destruct (pool !! _).
Qed.

Lemma field_for_key_exact m key f :
  fields_by_name (DESCRIPTOR m) key = Some f → field_for_key m key = Some f.
Proof.
  intros Hf. unfold field_for_key, resolve_key.
  by rewrite (EncoderFacts.hasattr_field _ _ _ Hf).
Qed.

Lemma leaf_of_cons d k d' r : leaf_of d ((k, d') :: r) = leaf_of d' r.
Proof.
  unfold leaf_of. simpl. destruct (List.map snd r) as [|x l] eqn:Hr; [done|].
  clear Hr. revert x. induction l as [|y l IH]; intros x; [done|].
  change (List.last (x :: y :: l) d) with (List.last (y :: l) d).
  change (List.last (x :: y :: l) d') with (List.last (y :: l) d').
  apply IH.
Qed.

Lemma nest_is_dict path inner : is_dict inner = true → is_dict (nest path inner) = true.
Proof. by destruct path as [|[k d] r]. Qed.

(** X17: population down a path of singular message fields: a new
    message given the JSON object that holds [inner] at the end of the
    path ends as the population of the innermost message from [inner]
    ends, and holds that message at the end of the path.  So an exception
    raised in a nested message at any depth ends the population of the
    outermost one, and a nested message in which nothing is written stays
    absent from its parent. *)
Theorem nested_population path : ∀ d inner,
  links pool d path → is_dict inner = true →
  populate (new_message d) (nest path inner)
  = (wrap d path (populate (new_message (leaf_of d path)) inner).1,
     (populate (new_message (leaf_of d path)) inner).2).
Proof.
  induction path as [|[k d'] r IH]; intros d inner Hlinks Hinner.
  { simpl. unfold leaf_of. simpl. by destruct (populate (new_message d) inner). }
  destruct Hlinks as [(f & Hf & Hk & Hns & Hme) Hr].
  rewrite leaf_of_cons.
  pose proof (IH d' inner Hr Hinner) as Hrec.
  pose proof (nest_is_dict r inner Hinner) as Hdict.
  cbn [nest wrap].
  destruct (nest r inner) as [a|items|es] eqn:Hnest; try discriminate.
  assert (field_for_key (new_message d) k = Some f) as Hfk
    by by apply field_for_key_exact.
  rewrite (EncoderFacts.populate_cons_field _ _ _ _ _ _ _ Hfk).
  unfold populate_field. rewrite (EncoderFacts.field_for_key_Some _ _ _ Hfk).
  unfold inspect_field. rewrite Hns, (kind_message_type _ _ Hk), Hme.
  cbn [andb]. unfold dispatch, getattr. rewrite Hk.
  unfold stored_message. cbn [new_message store alist_get].
  change (Msg d' []) with (new_message d'). rewrite Hrec.
  rewrite (EncoderFacts.fields_by_name_name _ _ _ Hf).
  by destruct ((populate (new_message (leaf_of d' r)) inner).2).
Qed.

(** ** Fields of type [google.protobuf.Struct] *)

(** X18: a singular field of type [google.protobuf.Struct] given a JSON
    object whose numbers are ones a [double] takes holds the [Struct] the
    object parses to, whatever it held before, and population goes on; the
    object is parsed by [ParseDict], not populated field by field. *)
Theorem struct_field_holds_the_parsed_object m key field sd entries rest :
  field_for_key m key = Some field →
  kind_of pool field = FkMessage sd →
  is_struct_typed pool field = true →
  double_safe (JDict entries) = true →
  populate m (JDict ((key, JDict entries) :: rest))
  = populate (set_store m (name field)
                (VMessage (convert_struct (stored_message m (name field) sd) entries)))
      (JDict rest) ∧
  store (convert_struct (stored_message m (name field) sd) entries)
  = store (convert_struct (new_message sd) entries).
Proof.
  intros Hf Hk Hst Hsafe. split; [|done].
  rewrite (EncoderFacts.populate_cons_field _ _ _ _ _ _ _ Hf).
  unfold populate_field. rewrite (EncoderFacts.field_for_key_Some _ _ _ Hf).
  unfold inspect_field. rewrite Hst. cbn [is_dict andb]. rewrite Hk.
  unfold ParseDict. by rewrite Hsafe.
Qed.

(** ** Maps *)

Lemma kind_map_entry field kt mv :
  kind_of pool field = FkMap kt mv →
  ∃ entry, message_type pool field = Some entry ∧ map_entry entry = true.
Proof.
  unfold kind_of, message_type.
  destruct (type field) as [| | | | | | | | | | | | | | | |n];
    try by destruct (repeated field).
  destruct (pool !! n) as [d'|]; [|done].
  destruct (repeated field); [|done].
  destruct (map_entry d') eqn:Hme; [|done]. intros _. by exists d'.
Qed.

Lemma scalar_map_kind field kt vt :
  scalar_map pool field kt vt →
  is_struct_typed pool field = false ∧
  kind_of pool field = FkMap kt (MvScalar vt) ∧
  ∃ entry vf, message_type pool field = Some entry ∧ map_entry entry = true ∧
              fields_by_name entry "value" = Some vf ∧
              is_struct_typed pool vf = false.
Proof.
  intros (Hrep & entry & kf & vf & Hmt & Hme & Hfn & Hkf & Hkt & Hvf & Hvt & Hvm & Hns).
  split; [|split].
  - unfold is_struct_typed. rewrite Hmt. by apply String.eqb_neq.
  - unfold message_type in Hmt. unfold kind_of, map_kind.
    destruct (type field); try discriminate. rewrite Hmt, Hrep, Hme, Hkf, Hvf.
    rewrite Hvt, Hkt. destruct vt as [| | | | | | | | | | | | | | | |vn]; try done.
    exfalso. by apply (Hns vn).
  - exists entry, vf. split; [done|]. split; [done|]. split; [done|].
    unfold is_struct_typed. by rewrite Hvm.
Qed.

Lemma message_map_kind field kt d :
  message_map pool field kt d →
  is_struct_typed pool field = false ∧
  kind_of pool field = FkMap kt (MvMessage d) ∧
  ∃ entry vf, message_type pool field = Some entry ∧ map_entry entry = true ∧
              fields_by_name entry "value" = Some vf ∧
              is_struct_typed pool vf = false.
Proof.
  intros (Hrep & entry & kf & vf & Hmt & Hme & Hfn & Hkf & Hkt & Hvf & Hvt & Hsn).
  split; [|split].
  - unfold is_struct_typed. rewrite Hmt. by apply String.eqb_neq.
  - unfold message_type in Hmt, Hvt. unfold kind_of, map_kind.
    destruct (type field); try discriminate. rewrite Hmt, Hrep, Hme, Hkf, Hvf.
    destruct (type vf); try discriminate. by rewrite Hvt, Hkt.
  - exists entry, vf. split; [done|]. split; [done|]. split; [done|].
    unfold is_struct_typed. rewrite Hvt. by apply String.eqb_neq.
Qed.

Section PlainMap.
Variables (entry : Descriptor) (vf : FieldDescriptor).
Hypothesis Hvf : fields_by_name entry "value" = Some vf.
Hypothesis Hst : is_struct_typed pool vf = false.

Lemma map_loop_atom kt mv k a rest cur :
  map_loop pool oh populate entry kt mv ((k, JAtom a) :: rest) cur
  = let '(cur', t) := map_setitem kt mv cur k (JAtom a) in
    match t with
    | Continue => map_loop pool oh populate entry kt mv rest cur'
    | _ => (cur', t)
    end.
Proof. simpl. by rewrite Hvf, Hst. Qed.

Lemma map_loop_stored vt keys atoms vs post cur :
  Forall2 (λ a v, check_value vt a = Accept v) atoms vs →
  length keys = length atoms →
  map_loop pool oh populate entry TString (MvScalar vt) (object_of keys atoms ++ post) cur
  = map_loop pool oh populate entry TString (MvScalar vt) post (stored_under keys vs cur).
Proof.
  intros Hall. revert keys cur.
  induction Hall as [|a v atoms vs Hv Hr IH]; intros keys cur Hlen.
  - by destruct keys.
  - destruct keys as [|k keys]; [done|]. injection Hlen as Hlen.
    cbn [object_of stored_under app]. rewrite map_loop_atom.
    unfold map_setitem. cbn [check_value]. rewrite Hv. by apply IH.
Qed.

Lemma map_loop_rejected_value vt k a e post cur :
  check_value vt a = Reject e →
  map_loop pool oh populate entry TString (MvScalar vt) ((k, JAtom a) :: post) cur
  = (cur, Fallthrough).
Proof.
  intros Hrej. rewrite map_loop_atom. unfold map_setitem. cbn [check_value].
  by rewrite Hrej.
Qed.

Lemma alist_set_fresh {A} k (v : A) l :
  alist_get k l = None → alist_set k v l = (l ++ [(k, v)])%list.
Proof.
  induction l as [|[k0 v0] l IH]; simpl; [done|].
  destruct (String.eqb k0 k); [done|]. intros H. by rewrite IH.
Qed.

Lemma alist_get_app_fresh {A} k k' (v : A) l :
  k ≠ k' → alist_get k l = None → alist_get k (l ++ [(k', v)])%list = None.
Proof.
  intros Hne. induction l as [|[k0 v0] l IH]; simpl.
  - intros _. assert (String.eqb k' k = false) as ->; [|done].
    apply String.eqb_neq. congruence.
  - destruct (String.eqb k0 k); [done | exact IH].
Qed.

Lemma map_loop_messages d items : ∀ cur,
  NoDup (List.map fst items) →
  (∀ kv, kv ∈ items → alist_get kv.1 cur = None) →
  Forall (λ kv, is_dict kv.2 = true ∧
                (populate (new_message d) kv.2).2 = Returned) items →
  map_loop pool oh populate entry TString (MvMessage d) items cur
  = ((cur ++ List.map (λ kv, (kv.1, VMessage (populate (new_message d) kv.2).1)) items)%list,
     Continue).
Proof.
  induction items as [|[k v] r IH]; intros cur Hnd Hfresh Hall.
  { simpl. by rewrite app_nil_r. }
  cbn [List.map fst] in Hnd.
  apply NoDup_cons in Hnd as [Hk Hnd]. apply Forall_cons in Hall as [[Hd Hret] Hall].
  simpl in Hd, Hret.
  destruct v as [a|l|es]; try discriminate.
  cbn [map_loop]. rewrite Hvf, Hst. cbn [is_dict].
  unfold map_getitem. cbn [check_value].
  assert (alist_get k cur = None) as Hkc by (apply (Hfresh (k, JDict es)); by left).
  rewrite Hkc.
  destruct (populate (new_message d) (JDict es)) as [nested oc] eqn:Hp.
  simpl in Hret. subst oc. cbn [tried_of].
  rewrite EncoderFacts.alist_set_set, alist_set_fresh by done.
  rewrite IH; [|done| |done].
  - cbn [List.map fst snd]. rewrite Hp. cbn [fst]. by rewrite <- app_assoc.
  - intros [k' v'] Hkv. cbn [fst]. apply alist_get_app_fresh.
    + intros ->. apply Hk. change (List.map fst r) with (fst <$> r).
      apply list_elem_of_fmap. by exists (k, v').
    + apply (Hfresh (k', v')). by right.
Qed.

End PlainMap.

(** X19: a map field with string keys and scalar values given a JSON
    object of scalars stores each value under its key, in the order of the
    object, as long as the type checker of the values accepts them.  The
    first value it rejects is not stored and ends the loop: the items
    after it are not looked at, no coercion is tried (a string of digits
    for an integer-valued map is such a value), and the exception is
    swallowed; the item is then handled as a nested message on the map
    container, and when no key of the object names an attribute of the
    container population goes on with the remaining items. *)
Theorem scalar_map_stores_until_a_value_is_rejected
    m key field vt keys atoms vs rest :
  field_for_key m key = Some field →
  scalar_map pool field TString vt →
  Forall2 (λ a v, check_value vt a = Accept v) atoms vs →
  length keys = length atoms →
  populate m (JDict ((key, JDict (object_of keys atoms)) :: rest))
  = populate (put_entries m (name field)
                (stored_under keys vs (stored_entries m (name field))))
      (JDict rest) ∧
  (∀ k a e post,
     check_value vt a = Reject e →
     (∀ kv, kv ∈ (object_of keys atoms ++ (k, JAtom a) :: post)%list →
            resolve_key (oh KScalarMap) kv.1 = None) →
     populate m (JDict ((key, JDict (object_of keys atoms ++ (k, JAtom a) :: post)%list)
                          :: rest))
     = populate (put_entries m (name field)
                   (stored_under keys vs (stored_entries m (name field))))
         (JDict rest)).
Proof.
  intros Hf Hmap Hall Hlen.
  destruct (scalar_map_kind field TString vt Hmap)
    as (Hns & Hk & entry & vf & Hmt & Hme & Hvf & Hst).
  split.
  - rewrite (EncoderFacts.populate_cons_field _ _ _ _ _ _ _ Hf). unfold populate_field.
    rewrite (EncoderFacts.field_for_key_Some _ _ _ Hf).
    unfold inspect_field. rewrite Hns. cbn [andb]. rewrite Hmt, Hme, Hk.
    rewrite <- (app_nil_r (object_of keys atoms)).
    by rewrite (map_loop_stored entry vf Hvf Hst vt keys atoms vs [] _ Hall Hlen).
  - intros k a e post Hrej Hno.
    rewrite (EncoderFacts.populate_cons_field _ _ _ _ _ _ _ Hf). unfold populate_field.
    rewrite (EncoderFacts.field_for_key_Some _ _ _ Hf).
    unfold inspect_field. rewrite Hns. cbn [andb]. rewrite Hmt, Hme, Hk.
    rewrite (map_loop_stored entry vf Hvf Hst vt keys atoms vs _ _ Hall Hlen).
    rewrite (map_loop_rejected_value entry vf Hvf Hst vt k a e post _ Hrej).
    unfold dispatch, getattr.
    rewrite Hk. by rewrite (EncoderFacts.probe_other_no_attribute _ _ _ Hno).
Qed.

(** X20: a map field whose key type rejects strings (every key type but
    [string]) gets no entry from a JSON object, whatever the values are:
    the first key is refused, the exception is swallowed and the message
    stays as it is; the item is then handled as a nested message on the
    map container. *)
Theorem map_with_other_keys_gets_no_entry
    m key field kt mv k v e post rest :
  field_for_key m key = Some field →
  kind_of pool field = FkMap kt mv →
  check_value kt (AStr k) = Reject e →
  populate m (JDict ((key, JDict ((k, v) :: post)) :: rest))
  = match probe_other oh (container_of mv) ((k, v) :: post) with
    | Returned => populate m (JDict rest)
    | oc => (m, oc)
    end.
Proof.
  intros Hf Hk Hrej.
  destruct (kind_map_entry _ _ _ Hk) as (entry & Hmt & Hme).
  assert (inspect_field pool oh populate m field (JDict ((k, v) :: post))
          = (m, Fallthrough)) as Hinspect.
  { unfold inspect_field.
    destruct (is_struct_typed pool field); cbn [andb is_dict]; [by rewrite Hk|].
    rewrite Hmt, Hme, Hk.
    assert (map_loop pool oh populate entry kt mv ((k, v) :: post)
              (stored_entries m (name field))
            = (stored_entries m (name field), Fallthrough)) as ->.
    { cbn [map_loop]. unfold map_getitem, map_setitem. rewrite Hrej.
      destruct (match fields_by_name entry "value" with
                | Some value_field => is_struct_typed pool value_field
                | None => false
                end); [done|].
      destruct (is_dict v); [done|]. by destruct mv. }
    pose proof (kind_repeated field) as Hrep. rewrite Hk in Hrep.
    by rewrite put_entries_stored
      by exact (siblings_repeated _ _ _ (EncoderFacts.field_for_key_Some _ _ _ Hf) Hrep). }
  rewrite (EncoderFacts.populate_cons_field _ _ _ _ _ _ _ Hf). unfold populate_field.
  rewrite (EncoderFacts.field_for_key_Some _ _ _ Hf), Hinspect.
  unfold dispatch, getattr. rewrite Hk.
  destruct mv; cbn [container_of];
    by destruct (probe_other oh _ ((k, v) :: post)).
Qed.

(** X21: a map field with string keys whose values are messages, given a
    JSON object of objects under distinct keys, gets one entry per item,
    in the order of the object: a new message of the value type populated
    from the item's object, provided each of these populations returns.
    An empty object still creates its entry. *)
Theorem message_map_entries_are_populated m key field d items rest :
  field_for_key m key = Some field →
  message_map pool field TString d →
  stored_entries m (name field) = [] →
  NoDup (List.map fst items) →
  Forall (λ kv, is_dict kv.2 = true ∧
                (populate (new_message d) kv.2).2 = Returned) items →
  populate m (JDict ((key, JDict items) :: rest))
  = populate
      (put_entries m (name field)
         (List.map (λ kv, (kv.1, VMessage (populate (new_message d) kv.2).1)) items))
      (JDict rest).
Proof.
  intros Hf Hmap Hempty Hnd Hall.
  destruct (message_map_kind field TString d Hmap)
    as (Hns & Hk & entry & vf & Hmt & Hme & Hvf & Hst).
  rewrite (EncoderFacts.populate_cons_field _ _ _ _ _ _ _ Hf). unfold populate_field.
  rewrite (EncoderFacts.field_for_key_Some _ _ _ Hf).
  unfold inspect_field. rewrite Hns. cbn [andb]. rewrite Hmt, Hme, Hk, Hempty.
  by rewrite (map_loop_messages entry vf Hvf Hst d items [] Hnd) by done.
Qed.

End More.
End EncoderMore.

(* ===================================================================== *)
(** * The statements above at work *)
(* ===================================================================== *)

Module Instances.
Import Py Proto Encoder EncoderSpec Engine Config Handler Fixtures Directory.

Abbreviation populate := (populate_message profile_pool container_hasattr).

(** ** The resolver *)

Lemma import_statement_witness :
  ResolverSpec.all_space "  " = true ∧
  ResolverSpec.lacks PyStr.dquote "public " = true ∧
  ResolverSpec.lacks PyStr.dquote "a/b.proto" = true ∧
  Resolver.import_of_line
    ("  " ++ ResolverSpec.import_statement "public " "a/b.proto" ";  // shared types  ")
  = Some "a/b.proto".
Proof.
  split; [reflexivity|]. split; [reflexivity|]. split; [reflexivity|].
  apply (ResolverMore.import_statement_is_read_back "  " "public " "a/b.proto");
    reflexivity.
Defined.

(** ** The engine *)

Lemma success_witness :
  result (encode (JDict [("count", JAtom (AInt 3))]) envelope_proto "Envelope")
    = Bytes (Msg Envelope [("count", VScalar (AInt 3))]) ∧
  sys_path (after (encode (JDict [("count", JAtom (AInt 3))]) envelope_proto "Envelope"))
    = ["/srv/app"].
Proof.
  assert (result (encode (JDict [("count", JAtom (AInt 3))]) envelope_proto "Envelope")
          = Bytes (Msg Envelope [("count", VScalar (AInt 3))])) as Hres
    by (by vm_compute).
  split; [exact Hres|].
  exact (EngineMore.success_restores_the_search_path the_world fresh_process _ _ _ _ _ Hres).
Defined.

Lemma failure_witness :
  returncode (compile the_world envelope_proto None) = 0 ∧
  is_Some (proto_module_name envelope_proto None) ∧
  result (encode (JDict [("count", JAtom (AInt 3000000000))]) envelope_proto "Envelope")
    = NoBytes ∧
  sys_path (after (encode (JDict [("count", JAtom (AInt 3000000000))])
                     envelope_proto "Envelope"))
    = ["/tmp/tmpa1"; "/srv/app"].
Proof.
  assert (returncode (compile the_world envelope_proto None) = 0) as Hrc by reflexivity.
  assert (is_Some (proto_module_name envelope_proto None)) as Hname by (by eexists).
  assert (result (encode (JDict [("count", JAtom (AInt 3000000000))])
                    envelope_proto "Envelope") = NoBytes) as Hres by (by vm_compute).
  split; [exact Hrc|]. split; [exact Hname|]. split; [exact Hres|].
  exact (EngineMore.failure_leaves_the_temporary_directory_on_the_search_path
           the_world fresh_process _ _ _ _ Hrc Hname Hres).
Defined.

Lemma loaded_modules_witness :
  sys_modules warm_process !! "ping_pb2" = Some (ping_pb2 Ping_v1) ∧
  Forall (λ resp, sys_modules (after resp) !! "ping_pb2" = Some (ping_pb2 Ping_v1))
    (serve warm_process [ping_request ping_after; ping_request ping_before]).
Proof.
  assert (sys_modules warm_process !! "ping_pb2" = Some (ping_pb2 Ping_v1)) as Hm
    by (by vm_compute).
  split; [exact Hm|].
  exact (EngineMore.loaded_modules_stay_loaded warm_process _ _ _ Hm).
Defined.

Lemma no_object_witness :
  is_dict (JList [JAtom (AInt 1)]) = false ∧
  IsInitialized (new_message Envelope) = true ∧
  result (encode (JList [JAtom (AInt 1)]) envelope_proto "Envelope")
    = Bytes (new_message Envelope) ∧
  output (encode (JList [JAtom (AInt 1)]) envelope_proto "Envelope") = [] ∧
  IsInitialized (new_message Login) = false ∧
  result (_encode_to_protobuf login_world fresh_process (JAtom (AStr "guest"))
            login_proto "Login" None) = NoBytes ∧
  output (_encode_to_protobuf login_world fresh_process (JAtom (AStr "guest"))
            login_proto "Login" None) = [EncodingError EncodeError].
Proof.
  split; [reflexivity|]. split; [reflexivity|].
  assert (returncode (compile the_world envelope_proto None) = 0) as Hrc
    by reflexivity.
  assert (proto_module_name envelope_proto None = Some "envelope_pb2") as Hname
    by reflexivity.
  assert (import_module (compile the_world envelope_proto None)
            (with_temp_dir the_world fresh_process) "envelope_pb2"
          = (inl envelope_pb2,
             {| sys_path := ["/tmp/tmpa1"; "/srv/app"];
                sys_modules := {[ "envelope_pb2" := envelope_pb2 ]} |})) as Himp
    by (by vm_compute).
  assert (alist_get "Envelope" (mod_attrs envelope_pb2) = Some (AMessageClass Envelope))
    as Hattr by reflexivity.
  assert (returncode (compile login_world login_proto None) = 0) as Hrc'
    by reflexivity.
  assert (proto_module_name login_proto None = Some "login_pb2") as Hname'
    by reflexivity.
  assert (import_module (compile login_world login_proto None)
            (with_temp_dir login_world fresh_process) "login_pb2"
          = (inl login_pb2,
             {| sys_path := ["/tmp/tmpd4"; "/srv/app"];
                sys_modules := {[ "login_pb2" := login_pb2 ]} |})) as Himp'
    by (by vm_compute).
  assert (alist_get "Login" (mod_attrs login_pb2) = Some (AMessageClass Login))
    as Hattr' by reflexivity.
  destruct (EngineMore.document_that_is_no_object_encodes_the_empty_message
              the_world fresh_process (JList [JAtom (AInt 1)]) envelope_proto
              "Envelope" None "envelope_pb2" envelope_pb2 _ Envelope
              Hrc Hname Himp Hattr eq_refl) as [Hset _].
  destruct (EngineMore.document_that_is_no_object_encodes_the_empty_message
              login_world fresh_process (JAtom (AStr "guest")) login_proto
              "Login" None "login_pb2" login_pb2 _ Login
              Hrc' Hname' Himp' Hattr' eq_refl) as [_ Hunset].
  destruct (Hset eq_refl) as [Hres Hout].
  destruct (Hunset eq_refl) as [Hres' Hout'].
  split; [exact Hres|]. split; [exact Hout|]. split; [reflexivity|].
  split; [exact Hres'|exact Hout'].
Defined.

(** A document that leaves the required field of [Login] unset is not
    encoded; one that sets it is. *)
Lemma unset_required_field_fails_the_encoding :
  _encode_to_protobuf login_world fresh_process
    (JDict [("tries", JAtom (AInt 3))]) login_proto "Login" None
  = {| result := NoBytes; output := [EncodingError EncodeError];
       after := {| sys_path := ["/tmp/tmpd4"; "/srv/app"];
                   sys_modules := {[ "login_pb2" := login_pb2 ]} |} |} ∧
  result (_encode_to_protobuf login_world fresh_process
            (JDict [("user", JAtom (AStr "u")); ("tries", JAtom (AInt 3))])
            login_proto "Login" None)
  = Bytes (Msg Login [("user", VScalar (AStr "u")); ("tries", VScalar (AInt 3))]).
Proof. split; by vm_compute. Qed.

Lemma cached_module_witness :
  other_hasattr ping_after = other_hasattr ping_before ∧
  sys_modules warm_process !! "ping_pb2" = Some (ping_pb2 Ping_v1) ∧
  returncode (compile ping_after ping_proto None) = 0 ∧
  returncode (compile ping_before ping_proto None) = 0 ∧
  result (_encode_to_protobuf ping_after warm_process ping_json ping_proto "Ping" None)
  = result (_encode_to_protobuf ping_before warm_process ping_json ping_proto "Ping" None) ∧
  output (_encode_to_protobuf ping_after warm_process ping_json ping_proto "Ping" None)
  = output (_encode_to_protobuf ping_before warm_process ping_json ping_proto "Ping" None) ∧
  result (_encode_to_protobuf ping_after warm_process ping_json ping_proto "Ping" None)
  = Bytes (Msg Ping_v1 [("id", VScalar (AInt 1))]).
Proof.
  assert (sys_modules warm_process !! "ping_pb2" = Some (ping_pb2 Ping_v1)) as Hm
    by (by vm_compute).
  split; [reflexivity|]. split; [exact Hm|].
  split; [reflexivity|]. split; [reflexivity|].
  destruct (EngineMore.cached_module_answers_whatever_the_schema_is
              ping_after ping_before warm_process ping_json ping_proto "Ping" None
              "ping_pb2" (ping_pb2 Ping_v1) eq_refl eq_refl Hm) as [Hsame _].
  destruct (Hsame eq_refl eq_refl) as [Hres Hout].
  split; [exact Hres|]. split; [exact Hout|]. by vm_compute.
Defined.

(** ** The handler and the configuration *)

Lemma query_string_witness :
  ResolverSpec.lacks question_mark "/ping" = true ∧
  _handle_request the_site ping_before fresh_process "/ping?user=7&debug"
  = _handle_request the_site ping_before fresh_process "/ping".
Proof.
  split; [reflexivity|].
  apply (HandlerFacts.query_string_is_ignored the_site ping_before fresh_process
           "/ping" "user=7&debug"). reflexivity.
Defined.

Lemma response_witness :
  _handle_request the_site ping_before fresh_process "/ping"
    = Responded ping_response warm_process ∧
  status ping_response = 200 ∧
  ∃ config json_data proto_data,
    reaches_engine the_site "/ping" config json_data ∧
    result (encoded ping_before fresh_process config json_data) = Bytes proto_data.
Proof.
  assert (_handle_request the_site ping_before fresh_process "/ping"
          = Responded ping_response warm_process) as H by (by vm_compute).
  split; [exact H|]. split; [reflexivity|].
  pose proof (HandlerFacts.response_of_the_handler
                the_site ping_before fresh_process "/ping") as Hr.
  rewrite H in Hr. destruct Hr as [[Hok _] _]. apply Hok. reflexivity.
Defined.

Lemma table_witness :
  endpoints_of endpoints_json
    = Some [entry "/ping" "data/old.json" "Ping"; JDict [("json_file", JAtom (AInt 7))];
            entry "/pong" "/abs/pong.json" "Pong"; entry "/ping" "data/ping.json" "Ping"] ∧
  load_endpoints_config script_dir (Some (JsonText endpoints_json))
    = Some [(KStr "/ping",
             JDict [("json_file", JAtom (AStr "/srv/app/data/ping.json"));
                    ("proto_file", JAtom (AStr "proto/ping.proto"));
                    ("message_type", JAtom (AStr "Ping"));
                    ("proto_root", JAtom ANone)]);
            (KStr "/pong",
             JDict [("json_file", JAtom (AStr "/abs/pong.json"));
                    ("proto_file", JAtom (AStr "proto/ping.proto"));
                    ("message_type", JAtom (AStr "Pong"));
                    ("proto_root", JAtom ANone)])] ∧
  ∃ json_file,
    resolve_json_file script_dir (JAtom (AStr "data/ping.json")) = Some json_file ∧
    json_file = JAtom (AStr "/srv/app/data/ping.json").
Proof.
  assert (endpoints_of endpoints_json
    = Some [entry "/ping" "data/old.json" "Ping"; JDict [("json_file", JAtom (AInt 7))];
            entry "/pong" "/abs/pong.json" "Pong"; entry "/ping" "data/ping.json" "Ping"])
    as Hentries by reflexivity.
  assert (load_endpoints_config script_dir (Some (JsonText endpoints_json))
    = Some [(KStr "/ping",
             JDict [("json_file", JAtom (AStr "/srv/app/data/ping.json"));
                    ("proto_file", JAtom (AStr "proto/ping.proto"));
                    ("message_type", JAtom (AStr "Ping"));
                    ("proto_root", JAtom ANone)]);
            (KStr "/pong",
             JDict [("json_file", JAtom (AStr "/abs/pong.json"));
                    ("proto_file", JAtom (AStr "proto/ping.proto"));
                    ("message_type", JAtom (AStr "Pong"));
                    ("proto_root", JAtom ANone)])]) as Hload by (by vm_compute).
  split; [exact Hentries|]. split; [exact Hload|].
  destruct (ConfigFacts.table_holds_the_last_entry_of_each_path _ _ _ _ Hentries Hload)
    as [Hlast _].
  destruct (Hlast [entry "/ping" "data/old.json" "Ping";
                   JDict [("json_file", JAtom (AInt 7))];
                   entry "/pong" "/abs/pong.json" "Pong"]
              [("path", JAtom (AStr "/ping")); ("json_file", JAtom (AStr "data/ping.json"));
               ("proto_file", JAtom (AStr "proto/ping.proto"));
               ("message_type", JAtom (AStr "Ping"))]
              [] (KStr "/ping") eq_refl eq_refl)
    as (json_file & Hfile & Hget).
  { intros x Hx. by apply elem_of_nil in Hx. }
  exists json_file. split; [exact Hfile|].
  vm_compute in Hfile. by injection Hfile as <-.
Defined.

Lemma bad_entry_witness :
  JAtom (AStr "/ping") ∈ [entry "/pong" "/abs/pong.json" "Pong"; JAtom (AStr "/ping")] ∧
  load_entries script_dir
    [entry "/pong" "/abs/pong.json" "Pong"; JAtom (AStr "/ping")] [] = None.
Proof.
  assert (JAtom (AStr "/ping")
            ∈ [entry "/pong" "/abs/pong.json" "Pong"; JAtom (AStr "/ping")]) as Hin
    by (right; left).
  split; [exact Hin|].
  exact (ConfigFacts.one_bad_entry_fails_the_load script_dir _ _ [] Hin I).
Defined.

(** ** The encoder *)

(** Writing [number] clears [text], the other member of the oneof, and
    leaves [tag] as it was. *)
Lemma oneof_witness :
  populate_message ∅ container_hasattr a_choice (JDict [("number", JAtom (AInt 2))])
  = (Msg Choice [("tag", VScalar (AStr "t")); ("number", VScalar (AInt 2))], Returned) ∧
  siblings Choice "number" = ["text"] ∧
  alist_get "tag"
    (store (populate_message ∅ container_hasattr a_choice
              (JDict [("number", JAtom (AInt 2))])).1)
  = alist_get "tag" (store a_choice).
Proof.
  split; [by vm_compute|]. split; [by vm_compute|].
  apply (proj2 (EncoderMore.population_writes_only_the_fields_of_its_keys
                  ∅ container_hasattr a_choice [("number", JAtom (AInt 2))])).
  intros kv f Hkv Hf. apply list_elem_of_singleton in Hkv as ->.
  vm_compute in Hf. injection Hf as <-.
  split; [done|]. vm_compute. intros Hin.
  apply list_elem_of_singleton in Hin. discriminate Hin.
Defined.

Lemma rejected_number_witness :
  field_for_key a_profile "age" = Some age_field ∧
  setattr profile_pool a_profile age_field (AInt 3000000000) = SetRaise ValueError ∧
  populate a_profile (JDict [("age", JAtom (AInt 3000000000));
                             ("name", JAtom (AStr "Bob"))])
    = (a_profile, Raised ValueError).
Proof.
  split; [reflexivity|]. split; [reflexivity|].
  apply (EncoderMore.rejected_number_ends_the_population profile_pool container_hasattr
           a_profile "age" age_field); reflexivity.
Defined.

Lemma digit_string_for_a_bool_witness :
  field_for_key a_profile "active" = Some active_field ∧
  kind_of profile_pool active_field = FkScalar TBool ∧
  check_value TBool (AStr "1") = Reject TypeError ∧
  PyStr.isdigit "1" = Some true ∧
  PyStr.int_of_str "1" = Some 1 ∧
  populate a_profile (JDict [("active", JAtom (AStr "1"))])
    = (set_store a_profile "active" (VScalar (ABool true)), Returned).
Proof.
  split; [reflexivity|]. split; [reflexivity|]. split; [reflexivity|].
  split; [reflexivity|]. split; [reflexivity|].
  destruct (EncoderMore.digit_string_ends_as_the_integer_does profile_pool
              container_hasattr a_profile "active" active_field TBool "1" TypeError []
              eq_refl eq_refl eq_refl eq_refl) as [H _].
  destruct (H 1 eq_refl) as [Heq _]. rewrite Heq. reflexivity.
Defined.

Lemma scalar_for_a_message_witness :
  field_for_key a_profile "address" = Some address_field ∧
  kind_of profile_pool address_field = FkMessage Address ∧
  populate a_profile (JDict [("address", JAtom (AStr "Main St"));
                             ("name", JAtom (AStr "Bob"))])
    = (a_profile, Raised AttributeError).
Proof.
  assert (kind_of profile_pool address_field = FkMessage Address) as Hk by reflexivity.
  split; [reflexivity|]. split; [exact Hk|].
  apply (EncoderMore.scalar_for_a_composite_field_ends_the_population profile_pool
           container_hasattr a_profile "address" address_field); [reflexivity|..];
    rewrite Hk; intros; discriminate.
Defined.

Lemma arrays_witness :
  field_for_key a_profile "name" = Some name_field ∧
  populate a_profile (JDict [("name", JList []); ("age", JAtom (AInt 31))])
    = (Msg Profile [("name", VScalar (AStr "Ann")); ("age", VScalar (AInt 31))], Returned) ∧
  populate a_profile (JDict [("name", JList [JAtom (AStr "Bob")])])
    = (a_profile, Raised AttributeError).
Proof.
  assert (field_for_key a_profile "name" = Some name_field) as Hf by reflexivity.
  split; [exact Hf|].
  destruct (EncoderMore.arrays_on_the_fields_that_take_none profile_pool
              container_hasattr a_profile "name" name_field
              [("age", JAtom (AInt 31))] Hf) as (Hempty & _).
  destruct (EncoderMore.arrays_on_the_fields_that_take_none profile_pool
              container_hasattr a_profile "name" name_field [] Hf) as (_ & Hfull & _).
  split.
  - rewrite Hempty; [reflexivity | discriminate].
  - apply Hfull. left. by exists TString.
Defined.

Lemma nested_witness :
  links profile_pool Profile geo_path ∧
  populate (new_message Profile) (nest geo_path (JDict [("lat", JAtom (AInt 5))]))
    = (Msg Profile
         [("address",
           VMessage (Msg Address
                       [("geo", VMessage (Msg Geo [("lat", VScalar (AInt 5))]))]))],
       Returned) ∧
  (populate (new_message Profile)
     (nest geo_path (JDict [("lat", JAtom (AFloat (Q2Qc (1 # 2))))]))).2
    = Raised TypeError ∧
  populate (new_message Profile) (nest geo_path (JDict []))
    = (new_message Profile, Returned).
Proof.
  assert (links profile_pool Profile geo_path) as Hlinks.
  { split; [by exists address_field|]. split; [by exists (scalar_field "geo" (TMessage "mock.Geo"))|].
    exact I. }
  split; [exact Hlinks|].
  rewrite (EncoderMore.nested_population profile_pool container_hasattr geo_path
             Profile (JDict [("lat", JAtom (AInt 5))]) Hlinks eq_refl).
  rewrite (EncoderMore.nested_population profile_pool container_hasattr geo_path
             Profile (JDict [("lat", JAtom (AFloat (Q2Qc (1 # 2))))]) Hlinks eq_refl).
  rewrite (EncoderMore.nested_population profile_pool container_hasattr geo_path
             Profile (JDict []) Hlinks eq_refl).
  split; [reflexivity|]. split; reflexivity.
Defined.

Lemma struct_field_witness :
  field_for_key a_profile "extra" = Some extra_field ∧
  kind_of profile_pool extra_field = FkMessage Struct_DESCRIPTOR ∧
  is_struct_typed profile_pool extra_field = true ∧
  populate a_profile (JDict [("extra", JDict [("name", JAtom (AStr "x"))])])
    = (Msg Profile
         [("name", VScalar (AStr "Ann")); ("age", VScalar (AInt 30));
          ("extra",
           VMessage (Msg Struct_DESCRIPTOR
                       [("fields",
                         VMap [("name",
                                VMessage (Value_of "string_value"
                                            (VScalar (AStr "x"))))])]))],
       Returned).
Proof.
  split; [reflexivity|]. split; [reflexivity|]. split; [reflexivity|].
  destruct (EncoderMore.struct_field_holds_the_parsed_object profile_pool
              container_hasattr a_profile "extra" extra_field Struct_DESCRIPTOR
              [("name", JAtom (AStr "x"))] [] eq_refl eq_refl eq_refl eq_refl) as [H _].
  rewrite H. reflexivity.
Defined.

Lemma scores_is_a_scalar_map : scalar_map profile_pool scores_field TString TInt32.
Proof.
  split; [reflexivity|].
  exists ScoresEntry, (scalar_field "key" TString), (scalar_field "value" TInt32).
  repeat split; first [by vm_compute | intros H; discriminate H].
Defined.

Lemma scalar_map_witness :
  field_for_key a_profile "scores" = Some scores_field ∧
  scalar_map profile_pool scores_field TString TInt32 ∧
  populate a_profile (JDict [("scores", JDict [("a", JAtom (AInt 1));
                                               ("b", JAtom (ABool true))])])
    = (Msg Profile
         [("name", VScalar (AStr "Ann")); ("age", VScalar (AInt 30));
          ("scores", VMap [("a", VScalar (AInt 1)); ("b", VScalar (AInt 1))])],
       Returned) ∧
  populate a_profile (JDict [("scores", JDict [("a", JAtom (AInt 1));
                                               ("b", JAtom (AStr "2"));
                                               ("c", JAtom (AInt 3))])])
    = (Msg Profile
         [("name", VScalar (AStr "Ann")); ("age", VScalar (AInt 30));
          ("scores", VMap [("a", VScalar (AInt 1))])],
       Returned).
Proof.
  assert (field_for_key a_profile "scores" = Some scores_field) as Hf by reflexivity.
  split; [exact Hf|]. split; [exact scores_is_a_scalar_map|].
  destruct (EncoderMore.scalar_map_stores_until_a_value_is_rejected profile_pool
              container_hasattr a_profile "scores" scores_field TInt32
              ["a"; "b"] [AInt 1; ABool true] [AInt 1; AInt 1] []
              Hf scores_is_a_scalar_map) as [Hall _].
  { by repeat constructor. }
  { reflexivity. }
  destruct (EncoderMore.scalar_map_stores_until_a_value_is_rejected profile_pool
              container_hasattr a_profile "scores" scores_field TInt32
              ["a"] [AInt 1] [AInt 1] []
              Hf scores_is_a_scalar_map) as [_ Hrej].
  { by repeat constructor. }
  { reflexivity. }
  split.
  - cbn [object_of] in Hall. rewrite Hall. reflexivity.
  - specialize (Hrej "b" (AStr "2") TypeError [("c", JAtom (AInt 3))] eq_refl).
    cbn [object_of app] in Hrej. rewrite Hrej; [reflexivity|].
    intros kv Hkv.
    repeat (apply elem_of_cons in Hkv as [->|Hkv]; [reflexivity|]).
    by apply elem_of_nil in Hkv.
Defined.

Lemma other_keys_witness :
  field_for_key a_profile "codes" = Some codes_field ∧
  kind_of profile_pool codes_field = FkMap TInt32 (MvScalar TString) ∧
  check_value TInt32 (AStr "1") = Reject TypeError ∧
  populate a_profile (JDict [("codes", JDict [("1", JAtom (AStr "one"))]);
                             ("age", JAtom (AInt 31))])
    = (Msg Profile [("name", VScalar (AStr "Ann")); ("age", VScalar (AInt 31))], Returned).
Proof.
  split; [reflexivity|]. split; [reflexivity|]. split; [reflexivity|].
  rewrite (EncoderMore.map_with_other_keys_gets_no_entry profile_pool container_hasattr
             a_profile "codes" codes_field TInt32 (MvScalar TString) "1"
             (JAtom (AStr "one")) TypeError [] [("age", JAtom (AInt 31))]
             eq_refl eq_refl eq_refl).
  reflexivity.
Defined.

Lemma places_is_a_message_map : message_map profile_pool places_field TString Address.
Proof.
  split; [reflexivity|].
  exists PlacesEntry, (scalar_field "key" TString),
    (scalar_field "value" (TMessage "mock.Address")).
  repeat split; first [by vm_compute | intros H; discriminate H].
Defined.

Lemma message_map_witness :
  field_for_key a_profile "places" = Some places_field ∧
  message_map profile_pool places_field TString Address ∧
  stored_entries a_profile "places" = [] ∧
  populate a_profile
    (JDict [("places", JDict [("home", JDict [("city", JAtom (AStr "Oslo"))]);
                              ("work", JDict [])])])
    = (Msg Profile
         [("name", VScalar (AStr "Ann")); ("age", VScalar (AInt 30));
          ("places", VMap [("home", VMessage (Msg Address [("city", VScalar (AStr "Oslo"))]));
                           ("work", VMessage (Msg Address []))])],
       Returned).
Proof.
  assert (field_for_key a_profile "places" = Some places_field) as Hf by reflexivity.
  split; [exact Hf|]. split; [exact places_is_a_message_map|]. split; [reflexivity|].
  rewrite (EncoderMore.message_map_entries_are_populated profile_pool container_hasattr
             a_profile "places" places_field Address
             [("home", JDict [("city", JAtom (AStr "Oslo"))]); ("work", JDict [])] []
             Hf places_is_a_message_map eq_refl).
  - reflexivity.
  - apply (bool_decide_unpack _). by vm_compute.
  - by repeat constructor.
Defined.

End Instances.
